(** * docker-optimizer: the Dockerfile lexer and instruction parser

    A shallow embedding of [internal/lexer] (tokens, scanner helpers, lexer,
    stage and variable detection) and of [internal/parser] (positions,
    errors, the per-instruction parser), with the properties the design
    document states about them. Further sections cover the rest of the same
    code: the token stream and the logical lines of the lexer, the frame and
    the errors of the parser, the line parser [ParseDockerfile], the RUN
    combiner of [internal/optimizer], the hints of syntax errors and the
    command line splitter.

    Conventions of the embedding
    - a Go [string] is a Rocq [string] (a sequence of bytes); the inputs
      studied are ASCII, where bytes and runes coincide;
    - a Go [int] is a [Z]; additions and subtractions on it go through
      [wrap64], the two's complement wrap-around of a 64-bit platform;
    - a Go [map[string]string] is a [gmap string string]; a [range] over a
      map visits the entries in an order the language leaves unspecified,
      which the parser receives as the parameter [range_order];
    - a function that mutates its receiver returns the new receiver. *)

From Stdlib Require Import ZArith String Ascii List Lia Bool.
From stdpp Require Import base gmap strings list.

Import ListNotations.
Open Scope string_scope.
Open Scope list_scope.
Open Scope Z_scope.

(** ** Go runtime and standard library *)

(** [int] arithmetic on a 64-bit platform wraps around. *)
Definition wrap64 (z : Z) : Z := (z + 2 ^ 63) mod 2 ^ 64 - 2 ^ 63.

Definition int_add (a b : Z) : Z := wrap64 (a + b).
Definition int_sub (a b : Z) : Z := wrap64 (a - b).

(** [len(s)] of a string, in bytes. *)
Definition len (s : string) : Z := Z.of_nat (String.length s).

Definition maxInt64 : Z := 2 ^ 63 - 1.
Definition minInt64 : Z := - 2 ^ 63.

Definition newline : ascii := Ascii.ascii_of_nat 10.
Definition tab : ascii := Ascii.ascii_of_nat 9.
Definition dquote : ascii := Ascii.ascii_of_nat 34.
Definition squote : ascii := Ascii.ascii_of_nat 39.
Definition backslash : ascii := Ascii.ascii_of_nat 92.
Definition nl : string := String newline EmptyString.

(** [strings.HasPrefix], [strings.TrimPrefix], [strings.HasSuffix],
    [strings.TrimSuffix]. *)
Definition HasPrefix (s p : string) : bool := String.prefix p s.

Definition TrimPrefix (s p : string) : string :=
  if HasPrefix s p
  then String.substring (String.length p) (String.length s - String.length p) s
  else s.

Definition HasSuffix (s p : string) : bool :=
  (String.length p <=? String.length s)%nat &&
  String.eqb (String.substring (String.length s - String.length p) (String.length p) s) p.

Definition TrimSuffix (s p : string) : string :=
  if HasSuffix s p
  then String.substring 0 (String.length s - String.length p) s
  else s.

(** [strings.Contains]. *)
Fixpoint Contains (s sub : string) : bool :=
  String.prefix sub s ||
  match s with
  | EmptyString => false
  | String _ s' => Contains s' sub
  end.

(** [strings.Split(s, sep)] for a separator of one byte, which is what every
    call site passes. The accumulator [cur] holds the field being read, in
    reverse. *)
Fixpoint split_go (sep : ascii) (s : string) (cur : list ascii) : list string :=
  match s with
  | EmptyString => [string_of_list_ascii (rev cur)]
  | String c s' =>
      if Ascii.eqb c sep
      then string_of_list_ascii (rev cur) :: split_go sep s' []
      else split_go sep s' (c :: cur)
  end.

Definition Split (s : string) (sep : ascii) : list string := split_go sep s [].

(** [strings.SplitN(s, sep, 2)] for a separator of one byte: the text before
    the first separator and the text after it, or [s] alone. *)
Fixpoint splitN2_go (sep : ascii) (s : string) (cur : list ascii) : option (string * string) :=
  match s with
  | EmptyString => None
  | String c s' =>
      if Ascii.eqb c sep
      then Some (string_of_list_ascii (rev cur), s')
      else splitN2_go sep s' (c :: cur)
  end.

Definition SplitN2 (s : string) (sep : ascii) : list string :=
  match splitN2_go sep s [] with
  | Some (a, b) => [a; b]
  | None => [s]
  end.

(** [strings.Join]. *)
Definition Join (l : list string) (sep : string) : string := String.concat sep l.

(** [strings.Count(s, "\n")]: occurrences of one byte. *)
Fixpoint Count (s : string) (c : ascii) : Z :=
  match s with
  | EmptyString => 0
  | String d s' => (if Ascii.eqb d c then 1 else 0) + Count s' c
  end.

(** [strings.TrimSpace]: the ASCII white space of [unicode.IsSpace]. *)
Definition isSpace (c : ascii) : bool :=
  let n := Ascii.nat_of_ascii c in
  ((9 <=? n) && (n <=? 13))%nat || (n =? 32)%nat.

Fixpoint trimLeft (s : string) : string :=
  match s with
  | EmptyString => EmptyString
  | String c s' => if isSpace c then trimLeft s' else s
  end.

Definition string_rev (s : string) : string :=
  string_of_list_ascii (rev (list_ascii_of_string s)).

Definition TrimSpace (s : string) : string :=
  string_rev (trimLeft (string_rev (trimLeft s))).

(** [strconv.Atoi]: an optional sign, then one or more decimal digits, the
    value within the range of [int]. *)
Definition digit_value (c : ascii) : option Z :=
  let n := Ascii.nat_of_ascii c in
  if ((48 <=? n) && (n <=? 57))%nat then Some (Z.of_nat (n - 48)) else None.

Fixpoint parse_digits (s : string) (acc : Z) : option Z :=
  match s with
  | EmptyString => Some acc
  | String c s' =>
      match digit_value c with
      | Some d => parse_digits s' (10 * acc + d)
      | None => None
      end
  end.

Definition parse_unsigned (s : string) : option Z :=
  match s with
  | EmptyString => None
  | _ => parse_digits s 0
  end.

Definition Atoi (s : string) : option Z :=
  let in_range (v : Z) := if (minInt64 <=? v) && (v <=? maxInt64) then Some v else None in
  match s with
  | String "-" s' => v ← parse_unsigned s'; in_range (- v)
  | String "+" s' => v ← parse_unsigned s'; in_range v
  | _ => v ← parse_unsigned s; in_range v
  end.

(** ** parser: positions and errors *)

Record Position := mkPosition {
  pos_Line : Z;
  pos_Column : Z;
  pos_Offset : Z;
  pos_FilePath : string
}.

Record Range := mkRange {
  range_Start : Position;
  range_End : Position
}.

Definition Position_zero : Position := mkPosition 0 0 0 EmptyString.
Definition Position_at (line column : Z) : Position := mkPosition line column 0 EmptyString.
Definition Range_zero : Range := mkRange Position_zero Position_zero.

(** [ErrorCode], numbered from 1 by [iota + 1]. *)
Inductive ErrorCode :=
| CodeSyntaxError
| CodeValidationError
| CodeReferenceError
| CodeInstructionError
| CodeStageError
| CodeVariableError
| CodeIOError
| CodeInternalError.

Definition ErrorCode_value (c : ErrorCode) : Z :=
  match c with
  | CodeSyntaxError => 1
  | CodeValidationError => 2
  | CodeReferenceError => 3
  | CodeInstructionError => 4
  | CodeStageError => 5
  | CodeVariableError => 6
  | CodeIOError => 7
  | CodeInternalError => 8
  end.

(** [DockerfileError]. The lexer and the parser fill in [Code], [Message],
    [Position] and [Snippet]; [Stage], [Details] and [Hints] keep their zero
    value and [Cause] stays nil. *)
Record DockerfileError := mkDockerfileError {
  err_Code : ErrorCode;
  err_Stage : string;
  err_Position : Position;
  err_Message : string;
  err_Details : string;
  err_Snippet : string;
  err_Hints : list string
}.

Definition DockerfileError_at (code : ErrorCode) (message : string) (pos : Position)
    (snippet : string) : DockerfileError :=
  mkDockerfileError code EmptyString pos message EmptyString snippet [].

(** The values of Go's [error] interface that these packages produce. *)
Inductive error :=
| ErrInvalidInstruction
| EDockerfile (e : DockerfileError)
| Errorf (msg : string)
| io_EOF.

Inductive result (A : Type) :=
| Ok (a : A)
| Err (e : error).
Arguments Ok {A} a.
Arguments Err {A} e.

(** The code of an error, when it is a [DockerfileError]. *)
Definition error_code (e : error) : option ErrorCode :=
  match e with
  | EDockerfile d => Some (err_Code d)
  | _ => None
  end.

Definition error_message (e : error) : string :=
  match e with
  | ErrInvalidInstruction => "invalid instruction"
  | EDockerfile d => err_Message d
  | Errorf msg => msg
  | io_EOF => "EOF"
  end.

(** ** lexer: tokens *)

Inductive TokenType :=
| TOKEN_ILLEGAL
| TOKEN_EOF
| TOKEN_NEWLINE
| TOKEN_WHITESPACE
| TOKEN_INSTRUCTION_FROM
| TOKEN_INSTRUCTION_RUN
| TOKEN_INSTRUCTION_CMD
| TOKEN_INSTRUCTION_LABEL
| TOKEN_INSTRUCTION_MAINTAINER
| TOKEN_INSTRUCTION_EXPOSE
| TOKEN_INSTRUCTION_ENV
| TOKEN_INSTRUCTION_ADD
| TOKEN_INSTRUCTION_COPY
| TOKEN_INSTRUCTION_ENTRYPOINT
| TOKEN_INSTRUCTION_VOLUME
| TOKEN_INSTRUCTION_USER
| TOKEN_INSTRUCTION_WORKDIR
| TOKEN_INSTRUCTION_ARG
| TOKEN_INSTRUCTION_ONBUILD
| TOKEN_INSTRUCTION_STOPSIGNAL
| TOKEN_INSTRUCTION_HEALTHCHECK
| TOKEN_INSTRUCTION_SHELL
| TOKEN_COMMENT
| TOKEN_CONTINUATION
| TOKEN_ESCAPEDCHAR
| TOKEN_HEREDOC_START
| TOKEN_HEREDOC_END
| TOKEN_STRING
| TOKEN_QUOTED_STRING
| TOKEN_NUMBER
| TOKEN_EQUALS
| TOKEN_COLON
| TOKEN_COMMA
| TOKEN_LBRACKET
| TOKEN_RBRACKET
| TOKEN_VARIABLE
| TOKEN_AS
| TOKEN_STAGE_NAME
| TOKEN_HEREDOC_CONTENT.

(** The [iota] value of a token type. [TOKEN_HEREDOC_CONTENT] is used by the
    scanner and the parser but is not in the constant block of the token
    file; it is taken as a further constant after the block, outside the
    instruction range. *)
Definition TokenType_value (t : TokenType) : Z :=
  match t with
  | TOKEN_ILLEGAL => 0
  | TOKEN_EOF => 1
  | TOKEN_NEWLINE => 2
  | TOKEN_WHITESPACE => 3
  | TOKEN_INSTRUCTION_FROM => 4
  | TOKEN_INSTRUCTION_RUN => 5
  | TOKEN_INSTRUCTION_CMD => 6
  | TOKEN_INSTRUCTION_LABEL => 7
  | TOKEN_INSTRUCTION_MAINTAINER => 8
  | TOKEN_INSTRUCTION_EXPOSE => 9
  | TOKEN_INSTRUCTION_ENV => 10
  | TOKEN_INSTRUCTION_ADD => 11
  | TOKEN_INSTRUCTION_COPY => 12
  | TOKEN_INSTRUCTION_ENTRYPOINT => 13
  | TOKEN_INSTRUCTION_VOLUME => 14
  | TOKEN_INSTRUCTION_USER => 15
  | TOKEN_INSTRUCTION_WORKDIR => 16
  | TOKEN_INSTRUCTION_ARG => 17
  | TOKEN_INSTRUCTION_ONBUILD => 18
  | TOKEN_INSTRUCTION_STOPSIGNAL => 19
  | TOKEN_INSTRUCTION_HEALTHCHECK => 20
  | TOKEN_INSTRUCTION_SHELL => 21
  | TOKEN_COMMENT => 22
  | TOKEN_CONTINUATION => 23
  | TOKEN_ESCAPEDCHAR => 24
  | TOKEN_HEREDOC_START => 25
  | TOKEN_HEREDOC_END => 26
  | TOKEN_STRING => 27
  | TOKEN_QUOTED_STRING => 28
  | TOKEN_NUMBER => 29
  | TOKEN_EQUALS => 30
  | TOKEN_COLON => 31
  | TOKEN_COMMA => 32
  | TOKEN_LBRACKET => 33
  | TOKEN_RBRACKET => 34
  | TOKEN_VARIABLE => 35
  | TOKEN_AS => 36
  | TOKEN_STAGE_NAME => 37
  | TOKEN_HEREDOC_CONTENT => 38
  end.

Definition TokenType_eqb (a b : TokenType) : bool :=
  TokenType_value a =? TokenType_value b.

Record Token := mkToken {
  tok_Type : TokenType;
  tok_Value : string;
  tok_Line : Z;
  tok_Column : Z;
  tok_Length : Z;
  tok_Raw : string
}.

(** [&Token{Type: TOKEN_EOF}], the token the lexer makes up at the end of the
    input and after a scan error. *)
Definition Token_EOF : Token := mkToken TOKEN_EOF EmptyString 0 0 0 EmptyString.

Definition IsInstruction (t : Token) : bool :=
  (TokenType_value TOKEN_INSTRUCTION_FROM <=? TokenType_value (tok_Type t)) &&
  (TokenType_value (tok_Type t) <=? TokenType_value TOKEN_INSTRUCTION_SHELL).

Definition is_type (ty : TokenType) (t : Token) : bool := TokenType_eqb (tok_Type t) ty.

(** ** lexer: the token stream *)

(** [InstructionTokens]. The lexer always fills in [Instruction]; a nil
    [*InstructionTokens], or one whose [Instruction] is nil, is the [None]
    that [ParseInstruction] receives. *)
Record InstructionTokens := mkInstructionTokens {
  it_Instruction : Token;
  it_Arguments : list Token;
  it_Comments : list Token;
  it_Raw : list Token;
  it_JSONForm : bool
}.

(** What one call of [Scanner.Scan] returns. The bodies of [Scan] and of the
    rune reader [scan] are not part of the sources at hand, so a scanner is
    taken as the sequence of results its successive calls give; once the
    sequence is used up, [Scan] answers [io.EOF]. *)
Inductive ScanResult :=
| ScanToken (t : Token)
| ScanError (e : error).

Definition Scan (sc : list ScanResult) : result Token * list ScanResult :=
  match sc with
  | [] => (Err io_EOF, [])
  | ScanToken t :: sc' => (Ok t, sc')
  | ScanError e :: sc' => (Err e, sc')
  end.

Definition is_io_EOF (e : error) : bool :=
  match e with
  | io_EOF => true
  | _ => false
  end.

Record Lexer := mkLexer {
  lx_scanner : list ScanResult;
  lx_currentToken : Token;
  lx_peekToken : Token;
  lx_tokens : list Token;
  lx_errors : list error;
  lx_inHeredoc : bool;
  lx_heredocID : string;
  lx_lineTokens : list Token
}.

(** The end of [nextToken], once a token has been read: the heredoc flag is
    updated and the token becomes the peek token. *)
Definition nextToken_accept (l : Lexer) (sc : list ScanResult) (token : Token) : Lexer :=
  let '(inH, hid) :=
    if is_type TOKEN_HEREDOC_START token then (true, tok_Value token)
    else if lx_inHeredoc l && is_type TOKEN_HEREDOC_END token
            && String.eqb (tok_Value token) (lx_heredocID l)
         then (false, lx_heredocID l)
         else (lx_inHeredoc l, lx_heredocID l) in
  mkLexer sc (lx_currentToken l) token (lx_tokens l ++ [token]) (lx_errors l)
          inH hid (lx_lineTokens l).

(** The two error exits of [nextToken]. *)
Definition nextToken_fail (l : Lexer) (sc : list ScanResult) (e : error) : Lexer :=
  mkLexer sc (lx_currentToken l) Token_EOF (lx_tokens l)
          (if is_io_EOF e then lx_errors l else lx_errors l ++ [e])
          (lx_inHeredoc l) (lx_heredocID l) (lx_lineTokens l).

Definition nextToken (l0 : Lexer) : Lexer :=
  let l := mkLexer (lx_scanner l0) (lx_peekToken l0) (lx_peekToken l0) (lx_tokens l0)
                   (lx_errors l0) (lx_inHeredoc l0) (lx_heredocID l0) (lx_lineTokens l0) in
  match Scan (lx_scanner l) with
  | (Err e, sc) => nextToken_fail l sc e
  | (Ok token, sc) =>
      if negb (lx_inHeredoc l) && is_type TOKEN_WHITESPACE token
      then match Scan sc with
           | (Err e, sc') => nextToken_fail l sc' e
           | (Ok token', sc') => nextToken_accept l sc' token'
           end
      else nextToken_accept l sc token
  end.

(** [NewLexer]. The two token fields are nil before the first two calls of
    [nextToken]; [nextToken] never reads [currentToken] and only copies
    [peekToken], so the value standing for nil is never looked at. *)
Definition NewLexer (r : list ScanResult) : Lexer :=
  nextToken (nextToken (mkLexer r Token_EOF Token_EOF [] [] false EmptyString [])).

Definition NextToken (l : Lexer) : Token * Lexer :=
  (lx_currentToken l, nextToken l).

Definition PeekToken (l : Lexer) : Token := lx_peekToken l.

Definition set_lineTokens (l : Lexer) (ts : list Token) : Lexer :=
  mkLexer (lx_scanner l) (lx_currentToken l) (lx_peekToken l) (lx_tokens l)
          (lx_errors l) (lx_inHeredoc l) (lx_heredocID l) ts.

Definition add_error (l : Lexer) (e : error) : Lexer :=
  mkLexer (lx_scanner l) (lx_currentToken l) (lx_peekToken l) (lx_tokens l)
          (lx_errors l ++ [e]) (lx_inHeredoc l) (lx_heredocID l) (lx_lineTokens l).

(** A bound on the number of calls of [NextToken] that can still return a
    token other than EOF: the loops below run on it. *)
Definition live (t : Token) : nat := if is_type TOKEN_EOF t then 0%nat else 1%nat.

Definition remaining (l : Lexer) : nat :=
  (3 * length (lx_scanner l) + 2 * live (lx_peekToken l) + live (lx_currentToken l))%nat.

(** The loop of [TokenizeLine]; [None] when the fuel runs out. *)
Fixpoint TokenizeLine_loop (fuel : nat) (l : Lexer) (continuationMode : bool) : option Lexer :=
  match fuel with
  | O => None
  | S fuel' =>
      let '(token, l) := NextToken l in
      if is_type TOKEN_EOF token then Some l
      else
        let l := set_lineTokens l (lx_lineTokens l ++ [token]) in
        if is_type TOKEN_CONTINUATION token then TokenizeLine_loop fuel' l true
        else if is_type TOKEN_NEWLINE token
             then if negb continuationMode then Some l
                  else TokenizeLine_loop fuel' l false
             else TokenizeLine_loop fuel' l continuationMode
  end.

Definition TokenizeLine (l : Lexer) : option (list Token * Lexer) :=
  l' ← TokenizeLine_loop (S (remaining l)) (set_lineTokens l []) false;
  Some (lx_lineTokens l', l').

Definition line_error (t : Token) : error :=
  EDockerfile (DockerfileError_at CodeSyntaxError "Line must start with an instruction"
                 (Position_at (tok_Line t) (tok_Column t)) (tok_Raw t)).

(** The partition of the tokens after the instruction keyword. *)
Definition line_arguments (tokens : list Token) : list Token :=
  List.filter (fun t => negb (is_type TOKEN_COMMENT t) && negb (is_type TOKEN_NEWLINE t)
                        && negb (is_type TOKEN_CONTINUATION t)) tokens.

Definition line_comments (tokens : list Token) : list Token :=
  List.filter (is_type TOKEN_COMMENT) tokens.

(** [ProcessInstructionLine] on the tokens of one logical line. The
    [JSONForm] field is not among the fields the function sets. *)
Definition instruction_of_line (tokens : list Token) : result (option InstructionTokens) :=
  match tokens with
  | [] => Ok None
  | first :: rest =>
      if is_type TOKEN_COMMENT first then Ok None
      else if negb (IsInstruction first) then Err (line_error first)
      else Ok (Some (mkInstructionTokens first (line_arguments rest) (line_comments rest)
                       tokens false))
  end.

Definition ProcessInstructionLine (l : Lexer)
    : option (result (option InstructionTokens) * Lexer) :=
  '(tokens, l') ← TokenizeLine l;
  Some (instruction_of_line tokens, l').

(** [IsJSONForm]: no function of the package calls it. *)
Fixpoint IsJSONForm_from (tokens : list Token) : bool :=
  match tokens with
  | [] => false
  | t :: rest =>
      if is_type TOKEN_WHITESPACE t then IsJSONForm_from rest
      else String.eqb (tok_Value t) "["
  end.

Definition IsJSONForm (tokens : list Token) : bool := IsJSONForm_from (tail tokens).

Definition GetInstructionValue (it : InstructionTokens) : string :=
  tok_Value (it_Instruction it).

Definition GetArgumentsAsString (it : InstructionTokens) : string :=
  Join (List.map tok_Value
          (List.filter (fun t => negb (is_type TOKEN_WHITESPACE t)) (it_Arguments it))) " ".

(** The resynchronisation loop of [ProcessAllInstructions]. *)
Fixpoint skip_line (fuel : nat) (l : Lexer) : option Lexer :=
  match fuel with
  | O => None
  | S fuel' =>
      if negb (is_type TOKEN_EOF (lx_currentToken l))
         && negb (is_type TOKEN_NEWLINE (lx_currentToken l))
      then skip_line fuel' (snd (NextToken l))
      else Some l
  end.

Fixpoint ProcessAllInstructions_loop (fuel : nat) (l : Lexer)
    (instructions : list InstructionTokens) : option (list InstructionTokens * Lexer) :=
  match fuel with
  | O => None
  | S fuel' =>
      if is_type TOKEN_EOF (lx_currentToken l) then Some (instructions, l)
      else
        '(r, l) ← ProcessInstructionLine l;
        match r with
        | Err e =>
            let l := add_error l e in
            l ← skip_line (S (remaining l)) l;
            ProcessAllInstructions_loop fuel' l instructions
        | Ok None => ProcessAllInstructions_loop fuel' l instructions
        | Ok (Some inst) => ProcessAllInstructions_loop fuel' l (instructions ++ [inst])
        end
  end.

Definition ProcessAllInstructions (l : Lexer)
    : option (list InstructionTokens * list error * Lexer) :=
  '(instructions, l') ← ProcessAllInstructions_loop (S (remaining l)) l [];
  Some (instructions, lx_errors l', l').

(** ** lexer: stages and variables *)

Record StageInfo := mkStageInfo {
  stage_Index : Z;
  stage_Name : string;
  stage_BaseImage : string;
  stage_StartLine : Z;
  stage_EndLine : Z
}.

Definition set_EndLine (s : StageInfo) (line : Z) : StageInfo :=
  mkStageInfo (stage_Index s) (stage_Name s) (stage_BaseImage s) (stage_StartLine s) line.

(** The value after the first [AS] token that has a successor. *)
Fixpoint stage_name_of (args : list Token) : string :=
  match args with
  | a :: rest =>
      match rest with
      | b :: _ => if is_type TOKEN_AS a then tok_Value b else stage_name_of rest
      | [] => EmptyString
      end
  | [] => EmptyString
  end.

Definition base_image_of (args : list Token) : string :=
  match args with
  | a :: _ => tok_Value a
  | [] => EmptyString
  end.

(** The state of the loop of [DetectStages]: the stages closed so far, the
    open stage and the next index. *)
Record StageScan := mkStageScan {
  ss_stages : list StageInfo;
  ss_currentStage : StageInfo;
  ss_stageIndex : Z
}.

Definition StageScan_init : StageScan :=
  mkStageScan [] (mkStageInfo 0 EmptyString EmptyString 0 0) 0.

Definition DetectStages_step (st : StageScan) (inst : InstructionTokens) : StageScan :=
  if String.eqb (GetInstructionValue inst) "FROM"
  then
    let stages :=
      if 0 <? stage_StartLine (ss_currentStage st)
      then ss_stages st ++
           [set_EndLine (ss_currentStage st) (int_sub (tok_Line (it_Instruction inst)) 1)]
      else ss_stages st in
    mkStageScan stages
      (mkStageInfo (ss_stageIndex st) (stage_name_of (it_Arguments inst))
                   (base_image_of (it_Arguments inst)) (tok_Line (it_Instruction inst)) 0)
      (int_add (ss_stageIndex st) 1)
  else st.

Definition DetectStages_finish (st : StageScan) (instructions : list InstructionTokens)
    : list StageInfo :=
  if 0 <? stage_StartLine (ss_currentStage st)
  then
    let currentStage :=
      match list.last instructions with
      | Some lastInst => set_EndLine (ss_currentStage st) (tok_Line (it_Instruction lastInst))
      | None => ss_currentStage st
      end in
    ss_stages st ++ [currentStage]
  else ss_stages st.

(** The part of [DetectStages] after the tokens have been grouped. *)
Definition stages_of (instructions : list InstructionTokens) : list StageInfo :=
  DetectStages_finish (fold_left DetectStages_step instructions StageScan_init) instructions.

Definition DetectStages (l : Lexer) : option (result (list StageInfo) * Lexer) :=
  '(instructions, errors, l') ← ProcessAllInstructions l;
  match errors with
  | e :: _ => Some (Err e, l')
  | [] => Some (Ok (stages_of instructions), l')
  end.

Record VariableInfo := mkVariableInfo {
  var_Name : string;
  var_Type : string;
  var_Value : string;
  var_Line : Z;
  var_Column : Z;
  var_StageIdx : Z
}.

(** [parseVariableDeclarations]. *)
Definition declare (result : gmap string string) (part : string) : gmap string string :=
  if String.eqb part EmptyString then result
  else if Contains part "="
       then match SplitN2 part "=" with
            | [k; v] => <[k := v]> result
            | _ => result
            end
       else <[part := EmptyString]> result.

Definition parseVariableDeclarations (args : string) : gmap string string :=
  fold_left declare (Split args " ") ∅.

(** The index of the first stage whose line range holds [line], or -1. *)
Fixpoint find_stage (stages : list StageInfo) (i : Z) (line : Z) : Z :=
  match stages with
  | [] => -1
  | stage :: rest =>
      if (stage_StartLine stage <=? line)
         && ((stage_EndLine stage =? 0) || (line <=? stage_EndLine stage))
      then i
      else find_stage rest (i + 1) line
  end.

Section MapOrder.

(** The order in which a [range] loop visits a map. *)
Variable range_order : gmap string string → list (string * string).

Definition variables_step (stages : list StageInfo) (variables : list VariableInfo)
    (inst : InstructionTokens) : list VariableInfo :=
  let instType := GetInstructionValue inst in
  if negb (String.eqb instType "ARG") && negb (String.eqb instType "ENV") then variables
  else
    let stageIdx := find_stage stages 0 (tok_Line (it_Instruction inst)) in
    let declarations := parseVariableDeclarations (GetArgumentsAsString inst) in
    variables ++
    List.map (fun kv : string * string =>
                mkVariableInfo (fst kv) instType (snd kv) (tok_Line (it_Instruction inst))
                               (tok_Column (it_Instruction inst)) stageIdx)
             (range_order declarations).

Definition variables_of (stages : list StageInfo) (instructions : list InstructionTokens)
    : list VariableInfo :=
  fold_left (variables_step stages) instructions [].

(** [DetectVariables]: both [DetectStages] and the second call of
    [ProcessAllInstructions] run on the one lexer. *)
Definition DetectVariables (l : Lexer) : option (list VariableInfo * Lexer) :=
  '(r, l1) ← DetectStages l;
  match r with
  | Err _ => Some ([], l1)
  | Ok stages =>
      '(instructions, _, l2) ← ProcessAllInstructions l1;
      Some (variables_of stages instructions, l2)
  end.

End MapOrder.

(** ** lexer: the scanner *)

(** [bufio.Reader] as far as [ReadRune] and [UnreadRune] go: the runes still
    to be read, and the rune [UnreadRune] may put back (only right after a
    [ReadRune] that returned one). *)
Record Reader := mkReader {
  rd_pending : string;
  rd_last : option ascii
}.

Definition ReadRune (r : Reader) : option ascii * Reader :=
  match rd_pending r with
  | EmptyString => (None, mkReader EmptyString None)
  | String c rest => (Some c, mkReader rest (Some c))
  end.

Definition UnreadRune (r : Reader) : Reader :=
  match rd_last r with
  | Some c => mkReader (String c (rd_pending r)) None
  | None => r
  end.

(** The fields of [Scanner] that the heredoc functions touch. *)
Record Scanner := mkScanner {
  sc_reader : Reader;
  sc_position : Position;
  sc_char : ascii;
  sc_buffer : string;
  sc_peekBuffer : string;
  sc_inHeredoc : bool;
  sc_heredocWord : string
}.

Definition set_reader (s : Scanner) (r : Reader) : Scanner :=
  mkScanner r (sc_position s) (sc_char s) (sc_buffer s) (sc_peekBuffer s)
            (sc_inHeredoc s) (sc_heredocWord s).

Definition set_buffer (s : Scanner) (b : string) : Scanner :=
  mkScanner (sc_reader s) (sc_position s) (sc_char s) b (sc_peekBuffer s)
            (sc_inHeredoc s) (sc_heredocWord s).

Definition set_peekBuffer (s : Scanner) (b : string) : Scanner :=
  mkScanner (sc_reader s) (sc_position s) (sc_char s) (sc_buffer s) b
            (sc_inHeredoc s) (sc_heredocWord s).

Definition set_inHeredoc (s : Scanner) (b : bool) : Scanner :=
  mkScanner (sc_reader s) (sc_position s) (sc_char s) (sc_buffer s) (sc_peekBuffer s)
            b (sc_heredocWord s).

Definition WriteRune (b : string) (c : ascii) : string := b +:+ String c EmptyString.

(** Modelled from the spec: the rune reader [scan], whose body is not in the
    sources. The scanner "maintains the current rune" and tracks line and
    column: [scan] reads the next rune of the reader into [char] and moves
    the position, and reports [io.EOF] at the end of the input. *)
Definition scan (s : Scanner) : option error * Scanner :=
  match ReadRune (sc_reader s) with
  | (None, r) => (Some io_EOF, set_reader s r)
  | (Some c, r) =>
      let p := sc_position s in
      let p' :=
        if Ascii.eqb c newline
        then mkPosition (int_add (pos_Line p) 1) 0 (int_add (pos_Offset p) 1) (pos_FilePath p)
        else mkPosition (pos_Line p) (int_add (pos_Column p) 1) (int_add (pos_Offset p) 1)
                        (pos_FilePath p) in
      (None, mkScanner r p' c (sc_buffer s) (sc_peekBuffer s)
                       (sc_inHeredoc s) (sc_heredocWord s))
  end.

(** One turn of the loop of [peekLine]: either the loop is left, or it goes
    on with the scanner given. *)
Definition peekLine_body (s : Scanner) : Scanner + Scanner :=
  match ReadRune (sc_reader s) with
  | (None, r) => inl (set_reader s r)
  | (Some ch, r) =>
      if Ascii.eqb ch newline
      then inl (set_reader s (UnreadRune r))
      else inr (set_reader (set_peekBuffer s (WriteRune (sc_peekBuffer s) ch))
                           (UnreadRune r))
  end.

Fixpoint peekLine_loop (fuel : nat) (s : Scanner) : option Scanner :=
  match fuel with
  | O => None
  | S fuel' =>
      match peekLine_body s with
      | inl s' => Some s'
      | inr s' => peekLine_loop fuel' s'
      end
  end.

(** [peekLine]; [None] when the loop has not been left after [fuel] turns. *)
Definition peekLine (fuel : nat) (s : Scanner) : option (string * Scanner) :=
  s' ← peekLine_loop fuel (set_peekBuffer s EmptyString);
  Some (sc_peekBuffer s', s').

(** [for i := 0; i < n; i++ { s.scan() }], the results dropped. *)
Fixpoint scan_times (n : nat) (s : Scanner) : Scanner :=
  match n with
  | O => s
  | S n' => scan_times n' (snd (scan s))
  end.

Definition heredoc_token (startPos : Position) (s : Scanner) : Token :=
  mkToken TOKEN_HEREDOC_CONTENT (sc_buffer s) (pos_Line startPos) (pos_Column startPos)
          (len (sc_buffer s)) (sc_buffer s).

(** The loop of [scanHeredocContent]; [None] when neither this loop nor the
    loop of [peekLine] has been left within [fuel] turns. *)
Fixpoint scanHeredocContent_loop (fuel : nat) (startPos : Position) (s : Scanner)
    : option (result Token * Scanner) :=
  match fuel with
  | O => None
  | S fuel' =>
      match scan s with
      | (Some err, s) => Some (Err err, s)
      | (None, s) =>
          if Ascii.eqb (sc_char s) newline
          then
            '(nextLine, s) ← peekLine fuel s;
            if String.eqb (TrimSpace nextLine) (sc_heredocWord s)
            then
              let s := set_inHeredoc s false in
              let s := scan_times (String.length (sc_heredocWord s) + 1) s in
              Some (Ok (heredoc_token startPos s), s)
            else
              scanHeredocContent_loop fuel' startPos (set_buffer s (WriteRune (sc_buffer s) (sc_char s)))
          else
            scanHeredocContent_loop fuel' startPos (set_buffer s (WriteRune (sc_buffer s) (sc_char s)))
      end
  end.

Definition scanHeredocContent (fuel : nat) (s : Scanner) : option (result Token * Scanner) :=
  scanHeredocContent_loop fuel (sc_position s) (set_buffer s EmptyString).

(** *** The JSON array *)

(** [s.buffer.WriteRune(s.char)]. *)
Definition write_char (s : Scanner) : Scanner :=
  set_buffer s (WriteRune (sc_buffer s) (sc_char s)).

(** The loop of [scanQuotedContentInJSON]: the text up to the closing quote
    goes to the buffer, a backslash and the rune after it copied as they
    are. *)
Fixpoint scanQuotedContentInJSON_loop (fuel : nat) (quote : ascii) (s : Scanner)
    : option (option error * Scanner) :=
  match fuel with
  | O => None
  | S fuel' =>
      match scan s with
      | (Some err, s) => Some (Some err, s)
      | (None, s) =>
          if Ascii.eqb (sc_char s) backslash
          then
            match scan (write_char s) with
            | (Some err, s) => Some (Some err, s)
            | (None, s) => scanQuotedContentInJSON_loop fuel' quote (write_char s)
            end
          else
            let s := write_char s in
            if Ascii.eqb (sc_char s) quote then Some (None, s)
            else scanQuotedContentInJSON_loop fuel' quote s
      end
  end.

Definition scanQuotedContentInJSON (fuel : nat) (quote : ascii) (s : Scanner)
    : option (option error * Scanner) :=
  scanQuotedContentInJSON_loop fuel quote (set_buffer s (WriteRune (sc_buffer s) quote)).

Definition string_token (startPos : Position) (s : Scanner) : Token :=
  mkToken TOKEN_STRING (sc_buffer s) (pos_Line startPos) (pos_Column startPos)
          (len (sc_buffer s)) (sc_buffer s).

(** The loop of [scanJSONArray]: brackets are counted, quoted text is
    skipped, and the loop ends with the bracket that closes the first. *)
Fixpoint scanJSONArray_loop (fuel : nat) (startPos : Position) (depth : Z) (s : Scanner)
    : option (result Token * Scanner) :=
  match fuel with
  | O => None
  | S fuel' =>
      match scan s with
      | (Some err, s) => Some (Err err, s)
      | (None, s) =>
          if Ascii.eqb (sc_char s) dquote || Ascii.eqb (sc_char s) squote
          then
            r ← scanQuotedContentInJSON fuel (sc_char s) s;
            match r with
            | (Some err, s) => Some (Err err, s)
            | (None, s) => scanJSONArray_loop fuel' startPos depth s
            end
          else
            let depth :=
              if Ascii.eqb (sc_char s) "[" then int_add depth 1
              else if Ascii.eqb (sc_char s) "]" then int_sub depth 1
              else depth in
            let s := write_char s in
            if depth =? 0 then Some (Ok (string_token startPos s), s)
            else scanJSONArray_loop fuel' startPos depth s
      end
  end.

(** [scanJSONArray], entered with the opening bracket in [char]; [None] when
    the loops have not been left within [fuel] turns. *)
Definition scanJSONArray (fuel : nat) (s : Scanner) : option (result Token * Scanner) :=
  scanJSONArray_loop fuel (sc_position s) 1
    (set_buffer s (WriteRune EmptyString (sc_char s))).

(** ** parser: instructions *)

Record Heredoc := mkHeredoc {
  hd_Identifier : string;
  hd_Content : string;
  hd_Range : Range;
  hd_Delimiter : string;
  hd_StripLeadingTabs : bool
}.

(** A [*Stage]: nil, or a handle on the stage pointed to. The parser only
    stores it. *)
Definition StageRef := option nat.

Record Instruction := mkInstruction {
  ins_Command : string;
  ins_Args : list string;
  ins_Flags : gmap string string;
  ins_Range : Range;
  ins_Raw : string;
  ins_Comment : string;
  ins_JSONForm : bool;
  ins_Stage : StageRef;
  ins_Heredoc : option Heredoc;
  ins_Dependencies : list string
}.

Definition set_Args (i : Instruction) (args : list string) : Instruction :=
  mkInstruction (ins_Command i) args (ins_Flags i) (ins_Range i) (ins_Raw i) (ins_Comment i)
                (ins_JSONForm i) (ins_Stage i) (ins_Heredoc i) (ins_Dependencies i).

Definition set_Flag (i : Instruction) (k v : string) : Instruction :=
  mkInstruction (ins_Command i) (ins_Args i) (<[k := v]> (ins_Flags i)) (ins_Range i)
                (ins_Raw i) (ins_Comment i) (ins_JSONForm i) (ins_Stage i) (ins_Heredoc i)
                (ins_Dependencies i).

Definition set_JSONForm (i : Instruction) (b : bool) : Instruction :=
  mkInstruction (ins_Command i) (ins_Args i) (ins_Flags i) (ins_Range i) (ins_Raw i)
                (ins_Comment i) b (ins_Stage i) (ins_Heredoc i) (ins_Dependencies i).

Definition set_Heredoc (i : Instruction) (h : option Heredoc) : Instruction :=
  mkInstruction (ins_Command i) (ins_Args i) (ins_Flags i) (ins_Range i) (ins_Raw i)
                (ins_Comment i) (ins_JSONForm i) (ins_Stage i) h (ins_Dependencies i).

Definition set_Dependencies (i : Instruction) (d : list string) : Instruction :=
  mkInstruction (ins_Command i) (ins_Args i) (ins_Flags i) (ins_Range i) (ins_Raw i)
                (ins_Comment i) (ins_JSONForm i) (ins_Stage i) (ins_Heredoc i) d.

Definition set_Comment (i : Instruction) (c : string) : Instruction :=
  mkInstruction (ins_Command i) (ins_Args i) (ins_Flags i) (ins_Range i) (ins_Raw i) c
                (ins_JSONForm i) (ins_Stage i) (ins_Heredoc i) (ins_Dependencies i).

Definition set_Range_End (i : Instruction) (p : Position) : Instruction :=
  mkInstruction (ins_Command i) (ins_Args i) (ins_Flags i)
                (mkRange (range_Start (ins_Range i)) p) (ins_Raw i) (ins_Comment i)
                (ins_JSONForm i) (ins_Stage i) (ins_Heredoc i) (ins_Dependencies i).

(** An error of the instruction parser: an [*DockerfileError] with no
    snippet. *)
Definition instruction_error (message : string) (pos : Position) : option error :=
  Some (EDockerfile (DockerfileError_at CodeInstructionError message pos EmptyString)).

Definition not_whitespace (t : Token) : bool := negb (is_type TOKEN_WHITESPACE t).

(** The value of the first token that is not white space, or the empty
    string. *)
Definition first_value (args : list Token) : string :=
  match List.find not_whitespace args with
  | Some t => tok_Value t
  | None => EmptyString
  end.

(** *** FROM *)

Fixpoint find_as (args : list Token) : option string :=
  match args with
  | a :: rest =>
      match rest with
      | b :: _ => if is_type TOKEN_AS a then Some (tok_Value b) else find_as rest
      | [] => None
      end
  | [] => None
  end.

Definition is_platform_flag (t : Token) : bool :=
  is_type TOKEN_STRING t && HasPrefix (tok_Value t) "--platform=".

Definition is_base_image (t : Token) : bool :=
  is_type TOKEN_STRING t && negb (HasPrefix (tok_Value t) "--").

Definition parseFromInstruction (tokens : InstructionTokens) (instruction : Instruction)
    : Instruction * option error :=
  let args := it_Arguments tokens in
  match args with
  | [] => (instruction,
           instruction_error "FROM instruction requires a base image"
                             (range_Start (ins_Range instruction)))
  | _ =>
      let instruction :=
        match find_as args with
        | Some stageName => set_Flag instruction "stage" stageName
        | None => instruction
        end in
      let instruction :=
        match List.find is_platform_flag args with
        | Some t => set_Flag instruction "platform" (TrimPrefix (tok_Value t) "--platform=")
        | None => instruction
        end in
      let instruction :=
        match List.find is_base_image args with
        | Some t => set_Args instruction (ins_Args instruction ++ [tok_Value t])
        | None => instruction
        end in
      (instruction, None)
  end.

(** *** The JSON array form *)

Section Parser.

(** [json.Unmarshal] into a [[]string]: the strings decoded, or the text of
    the error. *)
Variable json_Unmarshal : string → list string + string.

(** The order in which a [range] loop visits a map. *)
Variable range_order : gmap string string → list (string * string).

Definition parseJSONArrayForm (tokens : InstructionTokens) (instruction : Instruction)
    : Instruction * option error :=
  let jsonStr :=
    match List.find not_whitespace (it_Arguments tokens) with
    | Some t => tok_Raw t
    | None => EmptyString
    end in
  if String.eqb jsonStr EmptyString
  then (instruction,
        instruction_error "Missing JSON array argument" (range_Start (ins_Range instruction)))
  else
    match json_Unmarshal jsonStr with
    | inr msg =>
        (instruction,
         Some (EDockerfile (DockerfileError_at CodeSyntaxError ("Invalid JSON array: " +:+ msg)
                              (range_Start (ins_Range instruction)) jsonStr)))
    | inl args => (set_JSONForm (set_Args instruction args) true, None)
    end.

(** *** RUN, CMD, ENTRYPOINT *)

Definition heredoc_of (raw : list Token) : option Heredoc :=
  match List.find (is_type TOKEN_HEREDOC_START) raw with
  | None => None
  | Some token =>
      let heredocContent :=
        match List.find (is_type TOKEN_HEREDOC_CONTENT) raw with
        | Some t => tok_Value t
        | None => EmptyString
        end in
      if String.eqb heredocContent EmptyString then None
      else Some (mkHeredoc (tok_Value token) heredocContent
                   (mkRange (Position_at (tok_Line token) (tok_Column token))
                            (Position_at
                               (int_add (int_add (tok_Line token) (Count heredocContent newline)) 1)
                               0))
                   (tok_Value token) false)
  end.

Definition parseRunInstruction (tokens : InstructionTokens) (instruction : Instruction)
    : Instruction * option error :=
  if it_JSONForm tokens then parseJSONArrayForm tokens instruction
  else
    let args := GetArgumentsAsString tokens in
    if String.eqb args EmptyString
    then (instruction,
          instruction_error "RUN instruction requires at least one argument"
                            (range_Start (ins_Range instruction)))
    else
      let instruction :=
        match heredoc_of (it_Raw tokens) with
        | Some h => set_Heredoc instruction (Some h)
        | None => instruction
        end in
      (set_Args instruction [args], None).

Definition parseCmdInstruction (tokens : InstructionTokens) (instruction : Instruction)
    : Instruction * option error :=
  if it_JSONForm tokens then parseJSONArrayForm tokens instruction
  else
    let args := GetArgumentsAsString tokens in
    if String.eqb args EmptyString
    then (instruction,
          instruction_error "CMD instruction requires at least one argument"
                            (range_Start (ins_Range instruction)))
    else (set_Args instruction [args], None).

Definition parseEntrypointInstruction (tokens : InstructionTokens) (instruction : Instruction)
    : Instruction * option error :=
  parseCmdInstruction tokens instruction.

(** *** LABEL, ENV *)

Record KVState := mkKVState {
  kv_result : gmap string string;
  kv_key : string;
  kv_value : string;
  kv_inQuote : bool;
  kv_quoteChar : ascii;
  kv_isKey : bool;
  kv_escaped : bool
}.

(** [key += string(ch)] or [value += string(ch)], by [isKey]. *)
Definition kv_put (st : KVState) (ch : ascii) : KVState :=
  if kv_isKey st
  then mkKVState (kv_result st) (WriteRune (kv_key st) ch) (kv_value st) (kv_inQuote st)
                 (kv_quoteChar st) (kv_isKey st) (kv_escaped st)
  else mkKVState (kv_result st) (kv_key st) (WriteRune (kv_value st) ch) (kv_inQuote st)
                 (kv_quoteChar st) (kv_isKey st) (kv_escaped st).

Definition kv_step (st : KVState) (ch : ascii) : KVState :=
  if kv_escaped st
  then
    let st := kv_put st ch in
    mkKVState (kv_result st) (kv_key st) (kv_value st) (kv_inQuote st) (kv_quoteChar st)
              (kv_isKey st) false
  else if Ascii.eqb ch backslash
  then mkKVState (kv_result st) (kv_key st) (kv_value st) (kv_inQuote st) (kv_quoteChar st)
                 (kv_isKey st) true
  else if Ascii.eqb ch dquote || Ascii.eqb ch squote
  then
    if kv_inQuote st && Ascii.eqb ch (kv_quoteChar st)
    then mkKVState (kv_result st) (kv_key st) (kv_value st) false (kv_quoteChar st)
                   (kv_isKey st) (kv_escaped st)
    else if negb (kv_inQuote st)
    then mkKVState (kv_result st) (kv_key st) (kv_value st) true ch
                   (kv_isKey st) (kv_escaped st)
    else kv_put st ch
  else if Ascii.eqb ch "="
  then
    if negb (kv_inQuote st) && kv_isKey st
    then mkKVState (kv_result st) (kv_key st) (kv_value st) (kv_inQuote st) (kv_quoteChar st)
                   false (kv_escaped st)
    else kv_put st ch
  else if Ascii.eqb ch " " || Ascii.eqb ch tab
  then
    if kv_inQuote st then kv_put st ch
    else if negb (kv_isKey st) && negb (String.eqb (kv_value st) EmptyString)
    then mkKVState (<[kv_key st := kv_value st]> (kv_result st)) EmptyString EmptyString (kv_inQuote st)
                   (kv_quoteChar st) true (kv_escaped st)
    else st
  else kv_put st ch.

Definition parseKeyValuePairs (input : string) : gmap string string :=
  let st := fold_left kv_step (list_ascii_of_string input)
                      (mkKVState ∅ EmptyString EmptyString false " " true false) in
  if negb (String.eqb (kv_key st) EmptyString)
  then <[kv_key st := kv_value st]> (kv_result st)
  else kv_result st.

(** [for k, v := range pairs { Args = append(Args, k+"="+v) }]. *)
Definition append_pairs (instruction : Instruction) (pairs : gmap string string) : Instruction :=
  set_Args instruction
    (ins_Args instruction ++
     List.map (fun kv : string * string => fst kv +:+ "=" +:+ snd kv) (range_order pairs)).

Definition parseLabelInstruction (tokens : InstructionTokens) (instruction : Instruction)
    : Instruction * option error :=
  let args := GetArgumentsAsString tokens in
  if String.eqb args EmptyString
  then (instruction,
        instruction_error "LABEL instruction requires at least one key-value pair"
                          (range_Start (ins_Range instruction)))
  else (append_pairs instruction (parseKeyValuePairs args), None).

Definition parseEnvInstruction (tokens : InstructionTokens) (instruction : Instruction)
    : Instruction * option error :=
  let args := GetArgumentsAsString tokens in
  if String.eqb args EmptyString
  then (instruction,
        instruction_error "ENV instruction requires at least one variable"
                          (range_Start (ins_Range instruction)))
  else (append_pairs instruction (parseKeyValuePairs args), None).

(** *** EXPOSE *)

(** The checks on one port token: [None] when it passes. [parts[0]] and
    [parts[1]] exist whenever the value holds a slash. *)
Definition check_port (token : Token) : option error :=
  let port := tok_Value token in
  let parts := Split port "/" in
  let has_protocol := Contains port "/" in
  let protocol := nth 1 parts EmptyString in
  let port := if has_protocol then nth 0 parts EmptyString else port in
  if has_protocol && negb (String.eqb protocol "tcp") && negb (String.eqb protocol "udp")
  then instruction_error ("Invalid protocol: " +:+ protocol +:+ ". Must be tcp or udp")
                         (Position_at (tok_Line token) (tok_Column token))
  else
    match Atoi port with
    | None => instruction_error ("Invalid port number: " +:+ port)
                                (Position_at (tok_Line token) (tok_Column token))
    | Some _ => None
    end.

Fixpoint expose_loop (args : list Token) (instruction : Instruction)
    : Instruction * option error :=
  match args with
  | [] => (instruction, None)
  | token :: rest =>
      if not_whitespace token
      then
        match check_port token with
        | Some e => (instruction, Some e)
        | None =>
            expose_loop rest (set_Args instruction (ins_Args instruction ++ [tok_Value token]))
        end
      else expose_loop rest instruction
  end.

Definition parseExposeInstruction (tokens : InstructionTokens) (instruction : Instruction)
    : Instruction * option error :=
  match it_Arguments tokens with
  | [] => (instruction,
           instruction_error "EXPOSE instruction requires at least one port"
                             (range_Start (ins_Range instruction)))
  | args => expose_loop args instruction
  end.

(** *** ADD, COPY *)

(** The state of the flag loop: the instruction, the positional arguments
    and [hasFrom]. ([hasChown] is set and never read.) *)
Definition addcopy_step (st : Instruction * list string * bool) (token : Token)
    : Instruction * list string * bool :=
  let '(instruction, args, hasFrom) := st in
  let v := tok_Value token in
  if is_type TOKEN_STRING token && HasPrefix v "--"
  then
    if HasPrefix v "--chown="
    then (set_Flag instruction "chown" (TrimPrefix v "--chown="), args, hasFrom)
    else if HasPrefix v "--from="
    then
      let instruction := set_Flag instruction "from" (TrimPrefix v "--from=") in
      let fromValue := default EmptyString (ins_Flags instruction !! "from") in
      (set_Dependencies instruction (ins_Dependencies instruction ++ [fromValue]), args, true)
    else if HasPrefix v "--chmod="
    then (set_Flag instruction "chmod" (TrimPrefix v "--chmod="), args, hasFrom)
    else st
  else if not_whitespace token then (instruction, args ++ [v], hasFrom)
  else st.

Definition parseAddCopyInstruction (tokens : InstructionTokens) (instruction : Instruction)
    : Instruction * option error :=
  let '(instruction, args, hasFrom) :=
    fold_left addcopy_step (it_Arguments tokens) (instruction, [], false) in
  if (length args <? 2)%nat
  then (instruction,
        instruction_error (ins_Command instruction
                           +:+ " instruction requires at least source and destination")
                          (range_Start (ins_Range instruction)))
  else
    let instruction := set_Args instruction args in
    if String.eqb (ins_Command instruction) "ADD" && hasFrom
    then (instruction,
          instruction_error "ADD does not support the --from flag"
                            (range_Start (ins_Range instruction)))
    else (instruction, None).

(** *** VOLUME, USER, WORKDIR, ARG *)

Definition parseVolumeInstruction (tokens : InstructionTokens) (instruction : Instruction)
    : Instruction * option error :=
  if it_JSONForm tokens then parseJSONArrayForm tokens instruction
  else
    let instruction :=
      set_Args instruction
        (ins_Args instruction
         ++ List.map tok_Value (List.filter not_whitespace (it_Arguments tokens))) in
    match ins_Args instruction with
    | [] => (instruction,
             instruction_error "VOLUME instruction requires at least one argument"
                               (range_Start (ins_Range instruction)))
    | _ => (instruction, None)
    end.

(** USER and WORKDIR differ by the message only. *)
Definition parse_raw_argument (message : string) (tokens : InstructionTokens)
    (instruction : Instruction) : Instruction * option error :=
  let args := GetArgumentsAsString tokens in
  if String.eqb args EmptyString
  then (instruction, instruction_error message (range_Start (ins_Range instruction)))
  else (set_Args instruction [args], None).

Definition parseUserInstruction :=
  parse_raw_argument "USER instruction requires a username or UID".

Definition parseWorkdirInstruction :=
  parse_raw_argument "WORKDIR instruction requires a path".

Definition parseArgInstruction (tokens : InstructionTokens) (instruction : Instruction)
    : Instruction * option error :=
  let args := GetArgumentsAsString tokens in
  if String.eqb args EmptyString
  then (instruction,
        instruction_error "ARG instruction requires a name" (range_Start (ins_Range instruction)))
  else
    let parts := SplitN2 args "=" in
    let name := TrimSpace (nth 0 parts EmptyString) in
    let instruction := set_Args instruction [name] in
    match parts with
    | _ :: value :: _ => (set_Flag instruction "default" value, None)
    | _ => (instruction, None)
    end.

(** *** ONBUILD *)

Definition parseOnbuildInstruction (tokens : InstructionTokens) (instruction : Instruction)
    : Instruction * option error :=
  let args := GetArgumentsAsString tokens in
  if String.eqb args EmptyString
  then (instruction,
        instruction_error "ONBUILD instruction requires another instruction as argument"
                          (range_Start (ins_Range instruction)))
  else
    let triggerInstruction := first_value (it_Arguments tokens) in
    if String.eqb triggerInstruction "ONBUILD"
    then (instruction,
          instruction_error "ONBUILD cannot be nested (ONBUILD ONBUILD ...)"
                            (range_Start (ins_Range instruction)))
    else if String.eqb triggerInstruction "FROM"
    then (instruction,
          instruction_error "ONBUILD cannot trigger FROM instruction"
                            (range_Start (ins_Range instruction)))
    else (set_Args instruction [args], None).

(** *** STOPSIGNAL *)

Definition parseStopsignalInstruction (tokens : InstructionTokens) (instruction : Instruction)
    : Instruction * option error :=
  let args := GetArgumentsAsString tokens in
  if String.eqb args EmptyString
  then (instruction,
        instruction_error "STOPSIGNAL instruction requires a signal"
                          (range_Start (ins_Range instruction)))
  else
    let signal := TrimSpace args in
    match Atoi signal with
    | None =>
        if negb (HasPrefix signal "SIG")
        then (instruction,
              instruction_error ("Invalid signal format: " +:+ signal)
                                (range_Start (ins_Range instruction)))
        else (set_Args instruction [signal], None)
    | Some _ => (set_Args instruction [signal], None)
    end.

(** *** HEALTHCHECK *)

(** The text collected after [CMD]: each value followed by a space. *)
Definition cmd_args (rest : list Token) : string :=
  String.concat EmptyString
    (List.map (fun t => tok_Value t +:+ " ") (List.filter not_whitespace rest)).

(** The flag loop, on the tokens from index [i] on: the flags, the arguments
    and [cmdFound]. A flag takes the next token as its value, and the loop
    then steps over that token. *)
Fixpoint healthcheck_loop (rest : list Token) (flags : gmap string string)
    (args : list string) : gmap string string * list string * bool :=
  match rest with
  | [] => (flags, args, false)
  | token :: rest' =>
      if is_type TOKEN_WHITESPACE token then healthcheck_loop rest' flags args
      else if HasPrefix (tok_Value token) "--"
      then
        match rest' with
        | next :: rest'' =>
            if not_whitespace next
            then healthcheck_loop rest''
                   (<[TrimPrefix (tok_Value token) "--" := tok_Value next]> flags) args
            else healthcheck_loop rest' flags args
        | [] => (flags, args, false)
        end
      else if String.eqb (tok_Value token) "CMD"
      then (flags, args ++ ["CMD"; TrimSpace (cmd_args rest')], true)
      else healthcheck_loop rest' flags (args ++ [tok_Value token])
  end.

Definition set_Flags (i : Instruction) (flags : gmap string string) : Instruction :=
  mkInstruction (ins_Command i) (ins_Args i) flags (ins_Range i) (ins_Raw i) (ins_Comment i)
                (ins_JSONForm i) (ins_Stage i) (ins_Heredoc i) (ins_Dependencies i).

Definition parseHealthcheckInstruction (tokens : InstructionTokens) (instruction : Instruction)
    : Instruction * option error :=
  let firstArg := first_value (it_Arguments tokens) in
  if String.eqb firstArg "NONE"
  then (set_Args instruction ["NONE"], None)
  else
    let '(flags, args, cmdFound) :=
      healthcheck_loop (it_Arguments tokens) (ins_Flags instruction) [] in
    let instruction := set_Flags instruction flags in
    if negb cmdFound && negb (String.eqb firstArg "NONE")
    then (instruction,
          instruction_error "HEALTHCHECK requires CMD or NONE"
                            (range_Start (ins_Range instruction)))
    else (set_Args instruction args, None).

(** *** SHELL *)

Definition parseShellInstruction (tokens : InstructionTokens) (instruction : Instruction)
    : Instruction * option error :=
  if negb (it_JSONForm tokens)
  then (instruction,
        instruction_error "SHELL instruction requires JSON array format"
                          (range_Start (ins_Range instruction)))
  else parseJSONArrayForm tokens instruction.

(** *** ParseInstruction *)

(** The comment text: each comment without its [#] and trimmed, one per
    line. *)
Definition comment_text (comments : list Token) : string :=
  TrimSuffix
    (String.concat EmptyString
       (List.map (fun cmt => TrimSpace (TrimPrefix (tok_Value cmt) "#") +:+ nl) comments))
    nl.

(** The instruction as [ParseInstruction] has it before the dispatch on the
    command. *)
Definition new_instruction (tokens : InstructionTokens) (stage : StageRef) : Instruction :=
  let instruction :=
    mkInstruction (GetInstructionValue tokens) [] ∅
      (mkRange (Position_at (tok_Line (it_Instruction tokens))
                            (tok_Column (it_Instruction tokens)))
               Position_zero)
      (GetArgumentsAsString tokens) EmptyString (it_JSONForm tokens) stage None [] in
  let instruction :=
    match it_Comments tokens with
    | [] => instruction
    | comments => set_Comment instruction (comment_text comments)
    end in
  match list.last (it_Raw tokens) with
  | Some lastToken =>
      set_Range_End instruction
        (Position_at (tok_Line lastToken)
                     (int_add (tok_Column lastToken) (len (tok_Value lastToken))))
  | None => instruction
  end.

Definition dispatch (command : string) (tokens : InstructionTokens) (instruction : Instruction)
    : Instruction * option error :=
  if String.eqb command "FROM" then parseFromInstruction tokens instruction
  else if String.eqb command "RUN" then parseRunInstruction tokens instruction
  else if String.eqb command "CMD" then parseCmdInstruction tokens instruction
  else if String.eqb command "LABEL" then parseLabelInstruction tokens instruction
  else if String.eqb command "EXPOSE" then parseExposeInstruction tokens instruction
  else if String.eqb command "ENV" then parseEnvInstruction tokens instruction
  else if String.eqb command "ADD" then parseAddCopyInstruction tokens instruction
  else if String.eqb command "COPY" then parseAddCopyInstruction tokens instruction
  else if String.eqb command "ENTRYPOINT" then parseEntrypointInstruction tokens instruction
  else if String.eqb command "VOLUME" then parseVolumeInstruction tokens instruction
  else if String.eqb command "USER" then parseUserInstruction tokens instruction
  else if String.eqb command "WORKDIR" then parseWorkdirInstruction tokens instruction
  else if String.eqb command "ARG" then parseArgInstruction tokens instruction
  else if String.eqb command "ONBUILD" then parseOnbuildInstruction tokens instruction
  else if String.eqb command "STOPSIGNAL" then parseStopsignalInstruction tokens instruction
  else if String.eqb command "HEALTHCHECK" then parseHealthcheckInstruction tokens instruction
  else if String.eqb command "SHELL" then parseShellInstruction tokens instruction
  else (instruction, Some (Errorf ("unknown instruction: " +:+ command))).

(** [ParseInstruction]: [None] stands for a nil [tokens] or a nil
    [tokens.Instruction]. *)
Definition ParseInstruction (tokens : option InstructionTokens) (stage : StageRef)
    : result Instruction :=
  match tokens with
  | None => Err ErrInvalidInstruction
  | Some tokens =>
      let command := GetInstructionValue tokens in
      match dispatch command tokens (new_instruction tokens stage) with
      | (_, Some err) => Err err
      | (instruction, None) => Ok instruction
      end
  end.

End Parser.

(** ** A logical line, from its tokens to the instruction *)

(** The lexer's grouping of the tokens of one logical line, followed by
    [ParseInstruction]: the path an instruction takes from
    [ProcessInstructionLine] to the parser. A line with no instruction (empty
    or a comment) gives [None]. *)
Definition parse_line (json_Unmarshal : string → list string + string)
    (range_order : gmap string string → list (string * string))
    (tokens : list Token) (stage : StageRef) : option (result Instruction) :=
  match instruction_of_line tokens with
  | Err e => Some (Err e)
  | Ok None => None
  | Ok (Some it) => Some (ParseInstruction json_Unmarshal range_order (Some it) stage)
  end.

(** A token as the scanner functions build them: [Raw] is the text, [Length]
    its length. *)
Definition token (ty : TokenType) (text : string) (line column : Z) : Token :=
  mkToken ty text line column (len text) text.

Definition q : string := String dquote EmptyString.

(** The tokens of [COPY --from=builder /src /dst] and of the same arguments
    after [ADD], on line [n]. *)
Definition from_builder_args (n : Z) : list Token :=
  [token TOKEN_STRING "--from=builder" n 5;
   token TOKEN_STRING "/src" n 20;
   token TOKEN_STRING "/dst" n 25].

Definition copy_line (n : Z) : list Token :=
  token TOKEN_INSTRUCTION_COPY "COPY" n 0 :: from_builder_args n ++ [token TOKEN_NEWLINE nl n 29].

Definition add_line (n : Z) : list Token :=
  token TOKEN_INSTRUCTION_ADD "ADD" n 0 :: from_builder_args n ++ [token TOKEN_NEWLINE nl n 29].

(** The tokens of the three ONBUILD lines. *)
Definition onbuild_nested_line (n : Z) : list Token :=
  [token TOKEN_INSTRUCTION_ONBUILD "ONBUILD" n 0;
   token TOKEN_INSTRUCTION_ONBUILD "ONBUILD" n 8;
   token TOKEN_INSTRUCTION_RUN "RUN" n 16;
   token TOKEN_STRING "x" n 20;
   token TOKEN_NEWLINE nl n 21].

Definition onbuild_from_line (n : Z) : list Token :=
  [token TOKEN_INSTRUCTION_ONBUILD "ONBUILD" n 0;
   token TOKEN_INSTRUCTION_FROM "FROM" n 8;
   token TOKEN_STRING "scratch" n 13;
   token TOKEN_NEWLINE nl n 20].

Definition onbuild_run_line (n : Z) : list Token :=
  [token TOKEN_INSTRUCTION_ONBUILD "ONBUILD" n 0;
   token TOKEN_INSTRUCTION_RUN "RUN" n 8;
   token TOKEN_STRING "echo" n 12;
   token TOKEN_STRING "hi" n 17;
   token TOKEN_NEWLINE nl n 19].

(** The tokens of [EXPOSE 8080/tcp 9090/udp 70000]. *)
Definition expose_line (n : Z) : list Token :=
  [token TOKEN_INSTRUCTION_EXPOSE "EXPOSE" n 0;
   token TOKEN_STRING "8080/tcp" n 7;
   token TOKEN_STRING "9090/udp" n 16;
   token TOKEN_NUMBER "70000" n 25;
   token TOKEN_NEWLINE nl n 30].

Definition expose_one (v : string) (n : Z) : list Token :=
  [token TOKEN_INSTRUCTION_EXPOSE "EXPOSE" n 0; token TOKEN_STRING v n 7].

(** The text of the JSON array of the CMD line, which [scanJSONArray] returns
    as one [TOKEN_STRING] whose value and raw text are the whole array. *)
Definition json_abd : string :=
  "[" +:+ q +:+ "a" +:+ q +:+ "," +:+ q +:+ "b c" +:+ q +:+ "," +:+ q +:+ "d" +:+ q +:+ "]".

Definition cmd_json_line (n : Z) : list Token :=
  [token TOKEN_INSTRUCTION_CMD "CMD" n 0; token TOKEN_STRING json_abd n 4;
   token TOKEN_NEWLINE nl n 20].

Definition cmd_shell_line (n : Z) : list Token :=
  [token TOKEN_INSTRUCTION_CMD "CMD" n 0; token TOKEN_STRING "echo" n 4;
   token TOKEN_STRING "hi" n 9; token TOKEN_NEWLINE nl n 11].

Definition cmd_invalid_line (n : Z) : list Token :=
  [token TOKEN_INSTRUCTION_CMD "CMD" n 0; token TOKEN_STRING "[invalid json" n 4;
   token TOKEN_NEWLINE nl n 17].

(** A port value as the design states it: a number, or a number, a slash and
    [tcp] or [udp]. *)
Definition is_integer (s : string) : Prop := is_Some (Atoi s).

Definition port_accepted (v : string) : Prop :=
  match Split v "/" with
  | [] => False
  | [number] => is_integer number
  | number :: protocol :: _ => (protocol = "tcp" ∨ protocol = "udp") ∧ is_integer number
  end.

(** *** Lines of the lexer *)

(** A RUN line of the scanner: the keyword, one argument and the newline. *)
Definition run_tokens (text : string) (n : Z) : list ScanResult :=
  [ScanToken (token TOKEN_INSTRUCTION_RUN "RUN" n 0);
   ScanToken (token TOKEN_STRING text n 4);
   ScanToken (token TOKEN_NEWLINE nl n 5)].

(** The lines [foo], [RUN x], [RUN y]: the first does not start with an
    instruction, the other two are well formed. *)
Definition bad_then_good : list ScanResult :=
  [ScanToken (token TOKEN_STRING "foo" 1 0); ScanToken (token TOKEN_NEWLINE nl 1 3)]
  ++ run_tokens "x" 2 ++ run_tokens "y" 3.

(** The lines [FROM alpine] and [ARG VERSION=1]. *)
Definition from_then_arg : list ScanResult :=
  [ScanToken (token TOKEN_INSTRUCTION_FROM "FROM" 1 0);
   ScanToken (token TOKEN_STRING "alpine" 1 5);
   ScanToken (token TOKEN_NEWLINE nl 1 11);
   ScanToken (token TOKEN_INSTRUCTION_ARG "ARG" 2 0);
   ScanToken (token TOKEN_STRING "VERSION=1" 2 4);
   ScanToken (token TOKEN_NEWLINE nl 2 13)].

(** The lines [FROM alpine AS base], [RUN x], [FROM base], [RUN y]. *)
Definition two_stages : list ScanResult :=
  [ScanToken (token TOKEN_INSTRUCTION_FROM "FROM" 1 0);
   ScanToken (token TOKEN_STRING "alpine" 1 5);
   ScanToken (token TOKEN_AS "AS" 1 12);
   ScanToken (token TOKEN_STRING "base" 1 15);
   ScanToken (token TOKEN_NEWLINE nl 1 19)]
  ++ run_tokens "x" 2
  ++ [ScanToken (token TOKEN_INSTRUCTION_FROM "FROM" 3 0);
      ScanToken (token TOKEN_STRING "base" 3 5);
      ScanToken (token TOKEN_NEWLINE nl 3 9)]
  ++ run_tokens "y" 4.

(** What the lexer makes of these lines: the instructions, the lexer left
    at the end of the input, and the stages. *)
Definition two_stages_instructions : list InstructionTokens :=
  Eval vm_compute in
    match ProcessAllInstructions (NewLexer two_stages) with
    | Some (instructions, _, _) => instructions
    | None => []
    end.

Definition two_stages_end : Lexer :=
  Eval vm_compute in
    match ProcessAllInstructions (NewLexer two_stages) with
    | Some (_, _, l) => l
    | None => NewLexer []
    end.

Definition two_stages_found : list StageInfo :=
  [mkStageInfo 0 "base" "alpine" 1 2; mkStageInfo 1 EmptyString "base" 3 4].

(** The line [FROM --platform=linux/amd64 ubuntu AS build], then [RUN x]. *)
Definition from_platform_tokens (n : Z) : list Token :=
  [token TOKEN_INSTRUCTION_FROM "FROM" n 0;
   token TOKEN_STRING "--platform=linux/amd64" n 5;
   token TOKEN_STRING "ubuntu" n 28;
   token TOKEN_AS "AS" n 35;
   token TOKEN_STRING "build" n 38;
   token TOKEN_NEWLINE nl n 43].

Definition from_platform : list ScanResult :=
  List.map ScanToken (from_platform_tokens 1) ++ run_tokens "x" 2.

(** The line [LABEL a=1 b=2]. *)
Definition label_tokens : InstructionTokens :=
  mkInstructionTokens (token TOKEN_INSTRUCTION_LABEL "LABEL" 1 0)
    [token TOKEN_STRING "a=1" 1 6; token TOKEN_STRING "b=2" 1 10] []
    [token TOKEN_INSTRUCTION_LABEL "LABEL" 1 0;
     token TOKEN_STRING "a=1" 1 6; token TOKEN_STRING "b=2" 1 10]
    false.

(** *** Stages, as the properties speak of them *)

Definition is_FROM (inst : InstructionTokens) : bool :=
  String.eqb (GetInstructionValue inst) "FROM".

(** The lines of the FROM instructions, in source order. *)
Definition FROM_lines (instructions : list InstructionTokens) : list Z :=
  List.map (fun inst => tok_Line (it_Instruction inst)) (List.filter is_FROM instructions).

(** The indices 0, 1, ..., n-1. *)
Definition indices (n : nat) : list Z := List.map Z.of_nat (seq 0 n).

(** The stages of a loop state: the closed ones and the open one, if any. *)
Definition open_stages (st : StageScan) : list StageInfo :=
  if 0 <? stage_StartLine (ss_currentStage st)
  then ss_stages st ++ [ss_currentStage st]
  else ss_stages st.

(** *** The JSON array of CMD *)

(** The scanner on the line [CMD ["a","b c","d"]], the opening bracket just
    read. *)
Definition json_scanner : Scanner :=
  mkScanner
    (mkReader (q +:+ "a" +:+ q +:+ "," +:+ q +:+ "b c" +:+ q +:+ "," +:+ q +:+ "d" +:+ q
               +:+ "]" +:+ nl) None)
    (Position_at 1 4) "[" EmptyString EmptyString false EmptyString.

(** *** The heredoc of RUN *)

(** The body of the heredoc of [RUN <<EOF]: what the reader holds after
    [<<EOF]. *)
Definition heredoc_body : string :=
  nl +:+ "echo one" +:+ nl +:+ "echo two" +:+ nl +:+ "EOF".

(** The scanner in heredoc mode with the delimiter [EOF], about to read
    [pending]. *)
Definition heredoc_scanner (pending : string) : Scanner :=
  mkScanner (mkReader pending None) (Position_at 1 10) "F" EmptyString EmptyString true "EOF".

(** *** The JSON form and the order of maps *)

(** The instruction with [JSONForm] set, as the parser expects it for a JSON
    array. *)
Definition with_JSONForm (it : InstructionTokens) : InstructionTokens :=
  mkInstructionTokens (it_Instruction it) (it_Arguments it) (it_Comments it) (it_Raw it) true.

(** A decoder that refuses every text; the lines below have no JSON array. *)
Definition no_json (text : string) : list string + string := inr "invalid character".

(** An order in which a [range] loop may visit a map: each entry once. *)
Definition order_valid (range_order : gmap string string → list (string * string)) : Prop :=
  ∀ m, range_order m ≡ₚ map_to_list m.

(** Two such orders: the one of [map_to_list], and its reverse. *)
Definition reverse_order (m : gmap string string) : list (string * string) :=
  reverse (map_to_list m).

(** The command of the tokens given to [ParseInstruction]. *)
Definition command_of (tokens : option InstructionTokens) : string :=
  match tokens with
  | Some it => GetInstructionValue it
  | None => EmptyString
  end.

(** ** Further functions of the packages *)

(** *** lexer: the whole token list *)

Definition GetTokens (l : Lexer) : list Token := lx_tokens l.

Definition GetErrors (l : Lexer) : list error := lx_errors l.

(** The loop of [TokenizeAll]; [None] when the fuel runs out. *)
Fixpoint TokenizeAll_loop (fuel : nat) (l : Lexer) : option Lexer :=
  match fuel with
  | O => None
  | S fuel' =>
      if is_type TOKEN_EOF (lx_currentToken l) then Some l
      else TokenizeAll_loop fuel' (snd (NextToken l))
  end.

Definition TokenizeAll (l : Lexer) : option (list Token * list error * Lexer) :=
  l' ← TokenizeAll_loop (S (remaining l)) l;
  Some (lx_tokens l', lx_errors l', l').

(** *** lexer: token helpers *)

Definition IsArgument (t : Token) : bool :=
  is_type TOKEN_STRING t || is_type TOKEN_QUOTED_STRING t
  || is_type TOKEN_NUMBER t || is_type TOKEN_VARIABLE t.

(** [Keywords]. *)
Definition Keywords : gmap string TokenType :=
  list_to_map
    [("FROM", TOKEN_INSTRUCTION_FROM);
     ("RUN", TOKEN_INSTRUCTION_RUN);
     ("CMD", TOKEN_INSTRUCTION_CMD);
     ("LABEL", TOKEN_INSTRUCTION_LABEL);
     ("MAINTAINER", TOKEN_INSTRUCTION_MAINTAINER);
     ("EXPOSE", TOKEN_INSTRUCTION_EXPOSE);
     ("ENV", TOKEN_INSTRUCTION_ENV);
     ("ADD", TOKEN_INSTRUCTION_ADD);
     ("COPY", TOKEN_INSTRUCTION_COPY);
     ("ENTRYPOINT", TOKEN_INSTRUCTION_ENTRYPOINT);
     ("VOLUME", TOKEN_INSTRUCTION_VOLUME);
     ("USER", TOKEN_INSTRUCTION_USER);
     ("WORKDIR", TOKEN_INSTRUCTION_WORKDIR);
     ("ARG", TOKEN_INSTRUCTION_ARG);
     ("ONBUILD", TOKEN_INSTRUCTION_ONBUILD);
     ("STOPSIGNAL", TOKEN_INSTRUCTION_STOPSIGNAL);
     ("HEALTHCHECK", TOKEN_INSTRUCTION_HEALTHCHECK);
     ("SHELL", TOKEN_INSTRUCTION_SHELL);
     ("AS", TOKEN_AS)].

(** *** The token stream the lexer hands out *)

(** The tokens of a scanner that the lexer lets through: white space is
    dropped. *)
Fixpoint visible (sc : list ScanResult) : list Token :=
  match sc with
  | [] => []
  | ScanToken t :: sc' => if is_type TOKEN_WHITESPACE t then visible sc' else t :: visible sc'
  | ScanError _ :: sc' => visible sc'
  end.

(** A scanner run with no error, no EOF token before the end, no heredoc,
    and no two white space tokens in a row. *)
Definition plain_token (r : ScanResult) : bool :=
  match r with
  | ScanToken t => negb (is_type TOKEN_EOF t) && negb (is_type TOKEN_HEREDOC_START t)
  | ScanError _ => false
  end.

Definition is_space_result (r : ScanResult) : bool :=
  match r with
  | ScanToken t => is_type TOKEN_WHITESPACE t
  | ScanError _ => false
  end.

Fixpoint spaced (sc : list ScanResult) : bool :=
  match sc with
  | [] => true
  | r :: sc' =>
      match sc' with
      | r' :: _ => negb (is_space_result r && is_space_result r') && spaced sc'
      | [] => true
      end
  end.

Definition plain_scanner (sc : list ScanResult) : bool :=
  forallb plain_token sc && spaced sc.

(** The tokens that the calls of [NextToken] to come return before EOF. *)
Definition stream (l : Lexer) : list Token :=
  if is_type TOKEN_EOF (lx_currentToken l) then []
  else lx_currentToken l ::
       (if is_type TOKEN_EOF (lx_peekToken l) then []
        else lx_peekToken l :: visible (lx_scanner l)).

(** A lexer in the middle of a plain scanner run. *)
Definition plain_lexer (l : Lexer) : Prop :=
  lx_inHeredoc l = false
  ∧ plain_scanner (lx_scanner l) = true
  ∧ (is_type TOKEN_EOF (lx_peekToken l) = true → lx_scanner l = [])
  ∧ (is_type TOKEN_EOF (lx_currentToken l) = true → is_type TOKEN_EOF (lx_peekToken l) = true).

(** The first logical line of a token list and the tokens after it, as
    [TokenizeLine] cuts them: the line ends with the first newline that no
    continuation precedes. *)
Fixpoint logical_line (ts : list Token) (continuationMode : bool) : list Token * list Token :=
  match ts with
  | [] => ([], [])
  | t :: rest =>
      if is_type TOKEN_CONTINUATION t
      then let '(line, after) := logical_line rest true in (t :: line, after)
      else if is_type TOKEN_NEWLINE t
           then if negb continuationMode then ([t], rest)
                else let '(line, after) := logical_line rest false in (t :: line, after)
           else let '(line, after) := logical_line rest continuationMode in (t :: line, after)
  end.

(** A well-formed physical line: an instruction keyword, arguments and
    comments, and the newline. *)
Definition inner_token (t : Token) : bool :=
  negb (is_type TOKEN_NEWLINE t) && negb (is_type TOKEN_CONTINUATION t)
  && negb (is_type TOKEN_EOF t).

Definition instruction_line (line : list Token) : Prop :=
  ∃ keyword body newline_token,
    line = keyword :: body ++ [newline_token]
    ∧ IsInstruction keyword = true
    ∧ forallb inner_token body = true
    ∧ is_type TOKEN_NEWLINE newline_token = true.

(** The instruction of a well-formed line. *)
Definition instruction_of (line : list Token) : option InstructionTokens :=
  match instruction_of_line line with
  | Ok (Some it) => Some it
  | _ => None
  end.

(** A comment line: the comment and the newline. *)
Definition comment_line (line : list Token) : Prop :=
  ∃ comment body newline_token,
    line = comment :: body ++ [newline_token]
    ∧ is_type TOKEN_COMMENT comment = true
    ∧ forallb inner_token body = true
    ∧ is_type TOKEN_NEWLINE newline_token = true.

Definition source_line (line : list Token) : Prop :=
  instruction_line line ∨ comment_line line.

(** What every [InstructionTokens] of the lexer satisfies. *)
Definition grouped (it : InstructionTokens) : Prop :=
  IsInstruction (it_Instruction it) = true
  ∧ it_JSONForm it = false
  ∧ head (it_Raw it) = Some (it_Instruction it)
  ∧ Forall (fun t => is_type TOKEN_NEWLINE t = false
                     ∧ is_type TOKEN_CONTINUATION t = false
                     ∧ is_type TOKEN_COMMENT t = false) (it_Arguments it)
  ∧ Forall (fun t => is_type TOKEN_COMMENT t = true) (it_Comments it).

(** *** Stages, one for each FROM *)

(** The stage of each FROM instruction of [froms], numbered from [k]: it
    starts at the line of its FROM and ends on the line before the next
    FROM, the last one at [lastLine]. *)
Fixpoint stages_from (froms : list InstructionTokens) (k : nat) (lastLine : Z)
    : list StageInfo :=
  match froms with
  | [] => []
  | from :: rest =>
      mkStageInfo (Z.of_nat k) (stage_name_of (it_Arguments from))
        (base_image_of (it_Arguments from)) (tok_Line (it_Instruction from))
        (match rest with
         | next :: _ => int_sub (tok_Line (it_Instruction next)) 1
         | [] => lastLine
         end)
      :: stages_from rest (S k) lastLine
  end.

(** The line of the last instruction, 0 when there is none. *)
Definition last_line (instructions : list InstructionTokens) : Z :=
  match list.last instructions with
  | Some inst => tok_Line (it_Instruction inst)
  | None => 0
  end.

(** The state of the loop once the FROM instructions [p] have been read. *)
Definition scan_state (st : StageScan) (p : list InstructionTokens) : Prop :=
  ss_stageIndex st = Z.of_nat (length p)
  ∧ match p with
    | [] => st = StageScan_init
    | _ => 0 < stage_StartLine (ss_currentStage st)
           ∧ ∀ X, ss_stages st ++ [set_EndLine (ss_currentStage st) X] = stages_from p 0 X
    end.

(** *** The rules of the parser *)

(** The commands [ParseInstruction] has a rule for. *)
Definition known_commands : list string :=
  ["FROM"; "RUN"; "CMD"; "LABEL"; "EXPOSE"; "ENV"; "ADD"; "COPY"; "ENTRYPOINT"; "VOLUME";
   "USER"; "WORKDIR"; "ARG"; "ONBUILD"; "STOPSIGNAL"; "HEALTHCHECK"; "SHELL"].

(** The fields of an instruction that [ParseInstruction] sets before it
    looks at the command. *)
Definition frame (i : Instruction) : string * Range * string * string * StageRef :=
  (ins_Command i, ins_Range i, ins_Raw i, ins_Comment i, ins_Stage i).

(** An error of a rule: a [CodeInstructionError], or the [CodeSyntaxError] of
    the JSON decoder, which needs [JSONForm]. *)
Definition rule_error (tokens : InstructionTokens) (e : option error) : Prop :=
  match e with
  | None => True
  | Some (EDockerfile d) =>
      err_Code d = CodeInstructionError
      ∨ (err_Code d = CodeSyntaxError ∧ it_JSONForm tokens = true)
  | Some _ => False
  end.

(** The [--from=] flags of ADD and COPY, and the positional arguments. *)
Definition is_from_flag (t : Token) : bool :=
  is_type TOKEN_STRING t && HasPrefix (tok_Value t) "--from=".

Definition is_flag (t : Token) : bool :=
  is_type TOKEN_STRING t && HasPrefix (tok_Value t) "--".

Definition from_values (args : list Token) : list string :=
  List.map (fun t => TrimPrefix (tok_Value t) "--from=") (List.filter is_from_flag args).

Definition positional (args : list Token) : list string :=
  List.map tok_Value (List.filter (fun t => negb (is_flag t) && not_whitespace t) args).

(** What every rule of the parser keeps: it leaves the frame alone, fails
    with a rule error only, and does not turn [JSONForm] on by itself. *)
Definition rule_sound (rule : InstructionTokens → Instruction → Instruction * option error)
    : Prop :=
  ∀ tokens i,
    frame (fst (rule tokens i)) = frame i
    ∧ rule_error tokens (snd (rule tokens i))
    ∧ (it_JSONForm tokens = false → ins_JSONForm (fst (rule tokens i)) = ins_JSONForm i).

(** *** Key-value pairs as LABEL and ENV write them *)

(** The characters with a meaning for [parseKeyValuePairs]. *)
Definition value_char (c : ascii) : bool :=
  negb (Ascii.eqb c backslash) && negb (Ascii.eqb c dquote) && negb (Ascii.eqb c squote)
  && negb (Ascii.eqb c " ") && negb (Ascii.eqb c tab).

Definition key_char (c : ascii) : bool := value_char c && negb (Ascii.eqb c "=").

(** A key without quotes, escapes, white space or [=], and a value without
    quotes, escapes or white space; neither is empty. *)
Definition plain_key (k : string) : Prop :=
  k ≠ EmptyString ∧ forallb key_char (list_ascii_of_string k) = true.

Definition plain_value (v : string) : Prop :=
  v ≠ EmptyString ∧ forallb value_char (list_ascii_of_string v) = true.

Definition plain_pair (kv : string * string) : Prop := plain_key (fst kv) ∧ plain_value (snd kv).

Definition pair_text (kv : string * string) : string := fst kv +:+ "=" +:+ snd kv.

(** The pairs written one after the other with a space between them. *)
Definition pairs_text (pairs : list (string * string)) : string :=
  Join (List.map pair_text pairs) " ".

(** The states of the scan between two pairs, inside a key and inside a
    value. *)
Definition kv_in_key (r : gmap string string) (key : string) (quoteChar : ascii) : KVState :=
  mkKVState r key EmptyString false quoteChar true false.

Definition kv_in_value (r : gmap string string) (key value : string) (quoteChar : ascii)
    : KVState :=
  mkKVState r key value false quoteChar false false.

(** What [parseKeyValuePairs] returns from the state at the end of the
    input. *)
Definition kv_finish (st : KVState) : gmap string string :=
  if negb (String.eqb (kv_key st) EmptyString)
  then <[kv_key st := kv_value st]> (kv_result st)
  else kv_result st.

(** ** The line parser and the optimizer *)

(** [strings.Fields] on ASCII text: the maximal runs of characters that are
    not white space. The accumulator [cur] holds the field being read, in
    reverse. *)
Fixpoint fields_go (s : string) (cur : list ascii) : list string :=
  match s with
  | EmptyString =>
      match cur with
      | [] => []
      | _ => [string_of_list_ascii (rev cur)]
      end
  | String c s' =>
      if isSpace c
      then match cur with
           | [] => fields_go s' []
           | _ => string_of_list_ascii (rev cur) :: fields_go s' []
           end
      else fields_go s' (c :: cur)
  end.

Definition Fields (s : string) : list string := fields_go s [].

Module optimizer.

(** The instruction of the line parser: a command and its arguments. *)
Record Instruction := mkInstruction {
  Command : string;
  Args : list string
}.

Record Dockerfile := mkDockerfile {
  Instructions : list Instruction
}.

(** The body of the loop of [ParseDockerfile] on one line. *)
Definition parse_text_line (line : string) : option Instruction :=
  let line := TrimSpace line in
  if String.eqb line EmptyString || HasPrefix line "#" then None
  else match Fields line with
       | [] => None
       | command :: args => Some (mkInstruction command args)
       end.

Definition ParseDockerfile (content : string) : Dockerfile :=
  mkDockerfile (omap parse_text_line (Split content newline)).

Definition is_RUN (inst : Instruction) : bool := String.eqb (Command inst) "RUN".

(** The RUN instruction that stands for the commands collected. *)
Definition merged (runCommands : list string) : Instruction :=
  mkInstruction "RUN" [Join runCommands " && "].

(** [if len(runCommands) > 0 { result = append(result, ...) }]. *)
Definition flush (result : list Instruction) (runCommands : list string) : list Instruction :=
  match runCommands with
  | [] => result
  | _ => result ++ [merged runCommands]
  end.

(** The loop of [combineRunCommands] on [result] and [runCommands]. *)
Definition combine_step (st : list Instruction * list string) (inst : Instruction)
    : list Instruction * list string :=
  let '(result, runCommands) := st in
  if is_RUN inst then (result, runCommands ++ [Join (Args inst) " "])
  else (flush result runCommands ++ [inst], []).

Definition combineRunCommands (instructions : list Instruction) : list Instruction :=
  let '(result, runCommands) := fold_left combine_step instructions ([], []) in
  flush result runCommands.

Definition format_line (inst : Instruction) : string :=
  Command inst
  +:+ match Args inst with
      | [] => EmptyString
      | args => " " +:+ Join args " "
      end
  +:+ nl.

Definition formatDockerfile (instructions : list Instruction) : string :=
  String.concat EmptyString (List.map format_line instructions).

(** [Optimize], with its one optimization. *)
Definition Optimize (doc : Dockerfile) : string :=
  formatDockerfile (combineRunCommands (Instructions doc)).

(** A list as [combineRunCommands] leaves it: every RUN has one argument
    and is followed by an instruction other than RUN, or by nothing. *)
Fixpoint combined (instructions : list Instruction) : bool :=
  match instructions with
  | [] => true
  | inst :: rest =>
      (if is_RUN inst
       then match Args inst with [_] => true | _ => false end
            && match rest with next :: _ => negb (is_RUN next) | [] => true end
       else true)
      && combined rest
  end.

(** The loop as a recursion on the instructions, [runCommands] in hand. *)
Fixpoint combine_from (instructions : list Instruction) (runCommands : list string)
    : list Instruction :=
  match instructions with
  | [] => flush [] runCommands
  | inst :: rest =>
      if is_RUN inst then combine_from rest (runCommands ++ [Join (Args inst) " "])
      else flush [] runCommands ++ inst :: combine_from rest []
  end.

(** A word: a text that is not empty and holds no white space. *)
Definition is_word (s : string) : bool :=
  negb (String.eqb s EmptyString)
  && forallb (fun c => negb (isSpace c)) (list_ascii_of_string s).

(** An instruction as a line of a Dockerfile gives it: the command is a word
    that does not start a comment, the arguments are words. *)
Definition wordy (inst : Instruction) : bool :=
  is_word (Command inst) && negb (HasPrefix (Command inst) "#")
  && forallb is_word (Args inst).

(** A phrase: one or more words with one space between them. *)
Definition is_phrase (s : string) : bool :=
  match Fields s with
  | [] => false
  | ws => String.eqb (Join ws " ") s
  end.

(** A RUN instruction that has arguments, or another instruction. *)
Definition has_command (inst : Instruction) : bool :=
  negb (is_RUN inst) || match Args inst with [] => false | _ => true end.

(** The instruction with its arguments cut at white space. *)
Definition spread (inst : Instruction) : Instruction :=
  mkInstruction (Command inst) (Fields (Join (Args inst) " ")).

(** What [combineRunCommands] returns on wordy instructions: a RUN has one
    phrase for argument, the other instructions are wordy. *)
Definition settled (inst : Instruction) : bool :=
  if is_RUN inst
  then match Args inst with [p] => is_phrase p | _ => false end
  else wordy inst.

End optimizer.

(** ** The text of a JSON array, as [scanJSONArray] reads it *)

(** Inside quotes: a rune, or a backslash and the rune after it. *)
Inductive quoted_item :=
  | Char (c : ascii)
  | Escaped (c : ascii).


Definition item_text (i : quoted_item) : string :=
  match i with
  | Char c => String c EmptyString
  | Escaped c => String backslash (String c EmptyString)
  end.

Definition items_text (items : list quoted_item) : string :=
  fold_right (fun i acc => item_text i +:+ acc) EmptyString items.



(** A rune inside quotes is neither the quote nor a backslash, unless a
    backslash comes before it. *)
Definition item_ok (quote : ascii) (i : quoted_item) : bool :=
  match i with
  | Char c => negb (Ascii.eqb c quote) && negb (Ascii.eqb c backslash)
  | Escaped _ => true
  end.


(** ** parser: the hints of a syntax error *)

(** [strings.ToLower] on ASCII text. *)
Definition lower (c : ascii) : ascii :=
  let n := Ascii.nat_of_ascii c in
  if ((65 <=? n) && (n <=? 90))%nat then Ascii.ascii_of_nat (n + 32) else c.

Fixpoint ToLower (s : string) : string :=
  match s with
  | EmptyString => EmptyString
  | String c s' => String (lower c) (ToLower s')
  end.

Definition commonErrors : gmap string string :=
  list_to_map
    [("unknown instruction",
      "Instruction ka naam uppercase mein likhein (jaise FROM, RUN, COPY)");
     ("missing separator",
      "Instruction aur uske arguments ke beech space daalna zaroori hai");
     ("unexpected EOF",
      "Kisi instruction ya quote ko close karna bhool gaye hain");
     ("empty continuation",
      "Line continuation (" +:+ String backslash ") ke baad kuch content hona chahiye");
     ("invalid reference format",
      "Base image ya stage ka reference format sahi nahi hai");
     ("invalid port",
      "Port number valid range (1-65535) mein hona chahiye");
     ("invalid syntax",
      "Dockerfile syntax check karein aur documentation follow karein")].

Definition general_hint : string :=
  "Docker documentation check karein: https://docs.docker.com/engine/reference/builder/".

Section Hints.

Variable range_order : gmap string string → list (string * string).

(** The body of [for pattern, hint := range commonErrors]. *)
Definition hint_step (errMsg : string) (hints : list string) (entry : string * string)
    : list string :=
  let '(pattern, hint) := entry in
  if Contains (ToLower errMsg) pattern then hints ++ [hint] else hints.

Definition getSyntaxErrorHints (errMsg : string) : list string :=
  let hints := fold_left (hint_step errMsg) (range_order commonErrors) [] in
  match hints with
  | [] => [general_hint]
  | _ => hints
  end.

Definition NewSyntaxError (pos : Position) (message snippet : string) : DockerfileError :=
  mkDockerfileError CodeSyntaxError EmptyString pos message EmptyString snippet
                    (getSyntaxErrorHints message).

End Hints.

(** The hints of the patterns found in a message, in the order of [entries]. *)
Definition matching_hints (errMsg : string) (entries : list (string * string)) : list string :=
  List.map snd (List.filter (fun entry => Contains (ToLower errMsg) (fst entry)) entries).

(** ** The command line splitter *)

Record SplitState := mkSplitState {
  sp_parts : list string;
  sp_current : string;
  sp_inQuotes : bool;
  sp_escaped : bool
}.

(** The body of the loop of [splitCommand], one turn for each byte: on an
    ASCII line these are the runes that [range] yields. *)
Definition split_step (st : SplitState) (char : ascii) : SplitState :=
  if sp_escaped st
  then mkSplitState (sp_parts st) (WriteRune (sp_current st) char) (sp_inQuotes st) false
  else if Ascii.eqb char backslash
  then mkSplitState (sp_parts st) (sp_current st) (sp_inQuotes st) true
  else if Ascii.eqb char dquote
  then mkSplitState (sp_parts st) (sp_current st) (negb (sp_inQuotes st)) (sp_escaped st)
  else if Ascii.eqb char " " && negb (sp_inQuotes st)
  then if (0 <? len (sp_current st))
       then mkSplitState (sp_parts st ++ [sp_current st]) EmptyString
                         (sp_inQuotes st) (sp_escaped st)
       else st
  else mkSplitState (sp_parts st) (WriteRune (sp_current st) char)
                    (sp_inQuotes st) (sp_escaped st).

Definition split_finish (st : SplitState) : list string :=
  if (0 <? len (sp_current st)) then sp_parts st ++ [sp_current st] else sp_parts st.

Definition splitCommand (line : string) : list string :=
  split_finish
    (fold_left split_step (list_ascii_of_string line)
               (mkSplitState [] EmptyString false false)).

(** A stretch of a part of a command line: a rune, a backslash with the rune
    after it, or a text in double quotes. *)
Inductive segment :=
  | Rune (c : ascii)
  | Escape (c : ascii)
  | Quote (items : list quoted_item).

Definition item_value (i : quoted_item) : ascii :=
  match i with
  | Char c => c
  | Escaped c => c
  end.

Definition segment_text (seg : segment) : string :=
  match seg with
  | Rune c => String c EmptyString
  | Escape c => String backslash (String c EmptyString)
  | Quote items => String dquote (items_text items +:+ String dquote EmptyString)
  end.

Definition segment_value (seg : segment) : string :=
  match seg with
  | Rune c => String c EmptyString
  | Escape c => String c EmptyString
  | Quote items => string_of_list_ascii (List.map item_value items)
  end.

Definition part_text (part : list segment) : string :=
  fold_right (fun seg acc => segment_text seg +:+ acc) EmptyString part.

Definition part_value (part : list segment) : string :=
  fold_right (fun seg acc => segment_value seg +:+ acc) EmptyString part.

(** A rune outside quotes is neither a space, a quote nor a backslash; inside
    quotes a rune is neither the quote nor a backslash. *)
Definition segment_ok (seg : segment) : bool :=
  match seg with
  | Rune c =>
      negb (Ascii.eqb c " ") && negb (Ascii.eqb c dquote) && negb (Ascii.eqb c backslash)
  | Escape _ => true
  | Quote items => forallb (item_ok dquote) items
  end.

(** A part that leaves something once quotes and backslashes are gone. *)
Definition part_ok (part : list segment) : bool :=
  forallb segment_ok part && negb (String.eqb (part_value part) EmptyString).

(** ** The text of ARG and ENV declarations *)

(** A declaration: a name, and a value when [=] is written. *)
Definition declaration_text (d : string * option string) : string :=
  match snd d with
  | Some value => fst d +:+ "=" +:+ value
  | None => fst d
  end.

Definition declaration_value (d : string * option string) : string :=
  match snd d with
  | Some value => value
  | None => EmptyString
  end.

Definition no_char (c : ascii) (s : string) : bool :=
  negb (existsb (Ascii.eqb c) (list_ascii_of_string s)).

(** The name holds neither a space nor [=], the value holds no space, and a
    name without value is not empty. *)
Definition declaration_ok (d : string * option string) : bool :=
  no_char " " (fst d) && no_char "=" (fst d)
  && match snd d with
     | Some value => no_char " " value
     | None => negb (String.eqb (fst d) EmptyString)
     end.

(** ** ASCII text *)

(** A text of bytes below 128. On such a text the bytes are the runes that a
    [range] loop yields, and [TrimSpace], [Fields] and [ToLower] above are
    those of Go, which on other texts also look at the white space and the
    letters of Unicode. *)
Definition is_ascii (s : string) : bool :=
  forallb (fun c => (Ascii.nat_of_ascii c <? 128)%nat) (list_ascii_of_string s).

Definition all_space (s : string) : bool := forallb isSpace (list_ascii_of_string s).

(** A text with no white space at either end. *)
Definition trimmed (s : string) : bool :=
  match list_ascii_of_string s with
  | [] => true
  | c :: rest => negb (isSpace c) && negb (isSpace (List.last rest c))
  end.

(** A comment token that reads [text]: a [#], white space, the text, white
    space, all of it ASCII. *)
Definition comment_of (t : Token) (text : string) : Prop :=
  ∃ before after,
    tok_Value t = "#" +:+ before +:+ text +:+ after
    ∧ all_space before = true
    ∧ all_space after = true
    ∧ trimmed text = true
    ∧ is_ascii (tok_Value t) = true.

(** ** Sample inputs *)

(** The line [RUN x] with white space tokens as the scanner gives them. *)
Definition run_with_spaces : list ScanResult :=
  [ScanToken (token TOKEN_INSTRUCTION_RUN "RUN" 1 0);
   ScanToken (token TOKEN_WHITESPACE " " 1 3);
   ScanToken (token TOKEN_STRING "x" 1 4);
   ScanToken (token TOKEN_NEWLINE nl 1 5)].

(** The lines [RUN a \], [b # why] and [RUN y]. *)
Definition continued_run : list ScanResult :=
  [ScanToken (token TOKEN_INSTRUCTION_RUN "RUN" 1 0);
   ScanToken (token TOKEN_STRING "a" 1 4);
   ScanToken (token TOKEN_CONTINUATION (String backslash EmptyString) 1 6);
   ScanToken (token TOKEN_NEWLINE nl 1 7);
   ScanToken (token TOKEN_STRING "b" 2 4);
   ScanToken (token TOKEN_COMMENT "# why" 2 6);
   ScanToken (token TOKEN_NEWLINE nl 2 11)]
  ++ run_tokens "y" 3.

(** The line [RUN echo hi] with the comments [# why] and [#  build it  ],
    grouped. *)
Definition commented_run : InstructionTokens :=
  mkInstructionTokens (token TOKEN_INSTRUCTION_RUN "RUN" 1 0)
    [token TOKEN_STRING "echo" 1 4; token TOKEN_STRING "hi" 1 9]
    [token TOKEN_COMMENT "# why" 1 12; token TOKEN_COMMENT "#  build it  " 1 18]
    [token TOKEN_INSTRUCTION_RUN "RUN" 1 0; token TOKEN_STRING "echo" 1 4;
     token TOKEN_STRING "hi" 1 9; token TOKEN_COMMENT "# why" 1 12;
     token TOKEN_COMMENT "#  build it  " 1 18; token TOKEN_NEWLINE nl 1 31]
    false.

(** The lines of [two_stages], one list of tokens each. *)
Definition two_stages_lines : list (list Token) :=
  [[token TOKEN_INSTRUCTION_FROM "FROM" 1 0; token TOKEN_STRING "alpine" 1 5;
    token TOKEN_AS "AS" 1 12; token TOKEN_STRING "base" 1 15; token TOKEN_NEWLINE nl 1 19];
   [token TOKEN_INSTRUCTION_RUN "RUN" 2 0; token TOKEN_STRING "x" 2 4;
    token TOKEN_NEWLINE nl 2 5];
   [token TOKEN_INSTRUCTION_FROM "FROM" 3 0; token TOKEN_STRING "base" 3 5;
    token TOKEN_NEWLINE nl 3 9];
   [token TOKEN_INSTRUCTION_RUN "RUN" 4 0; token TOKEN_STRING "y" 4 4;
    token TOKEN_NEWLINE nl 4 5]].

(** The line [RUN x], a blank line, and the line [RUN y]. *)
Definition blank_line_file : list ScanResult :=
  run_tokens "x" 1 ++ [ScanToken (token TOKEN_NEWLINE nl 2 0)] ++ run_tokens "y" 3.

(** The lines [MAINTAINER me], [ADD --from=builder /src /dst], the same
    after COPY, and [ARG VERSION =1=2], grouped. *)
Definition maintainer_tokens : InstructionTokens :=
  mkInstructionTokens (token TOKEN_INSTRUCTION_MAINTAINER "MAINTAINER" 1 0)
    [token TOKEN_STRING "me" 1 11] []
    [token TOKEN_INSTRUCTION_MAINTAINER "MAINTAINER" 1 0; token TOKEN_STRING "me" 1 11;
     token TOKEN_NEWLINE nl 1 13]
    false.

Definition add_tokens : InstructionTokens :=
  mkInstructionTokens (token TOKEN_INSTRUCTION_ADD "ADD" 1 0) (from_builder_args 1) []
    (add_line 1) false.

Definition copy_tokens : InstructionTokens :=
  mkInstructionTokens (token TOKEN_INSTRUCTION_COPY "COPY" 1 0) (from_builder_args 1) []
    (copy_line 1) false.

Definition arg_tokens : InstructionTokens :=
  mkInstructionTokens (token TOKEN_INSTRUCTION_ARG "ARG" 2 0)
    [token TOKEN_STRING "VERSION" 2 4; token TOKEN_STRING "=1=2" 2 12] []
    [token TOKEN_INSTRUCTION_ARG "ARG" 2 0; token TOKEN_STRING "VERSION" 2 4;
     token TOKEN_STRING "=1=2" 2 12; token TOKEN_NEWLINE nl 2 16]
    false.

(** The pairs of [LABEL a=1 b=2]. *)
Definition label_pairs : list (string * string) := [("a", "1"); ("b", "2")].


(** A Dockerfile of three lines, two of them RUN, and its instructions. *)
Definition three_lines : string :=
  "FROM alpine" +:+ nl +:+ "RUN apk update" +:+ nl +:+ "RUN apk add curl" +:+ nl.

Definition three_instructions : list optimizer.Instruction :=
  [optimizer.mkInstruction "FROM" ["alpine"];
   optimizer.mkInstruction "RUN" ["apk"; "update"];
   optimizer.mkInstruction "RUN" ["apk"; "add"; "curl"]].

(** The command line [RUN "a b" c\ d]. *)
Definition quoted_command : list (list segment) :=
  [[Rune "R"; Rune "U"; Rune "N"];
   [Quote [Char "a"; Char " "; Char "b"]];
   [Rune "c"; Escape " "; Rune "d"]].

(** The declarations [A=1 B C=x=y]. *)
Definition three_declarations : list (string * option string) :=
  [("A", Some "1"); ("B", None); ("C", Some "x=y")].

(** ** Facts on the string functions *)

Lemma prefix_char (c : ascii) (s : string) :
  String.prefix (String c EmptyString) s = true ↔ ∃ s', s = String c s'.
Proof.
  destruct s as [| d s']; cbn.
  - split; [discriminate | intros [? ?]; discriminate].
  - destruct (Ascii.ascii_dec c d) as [-> | Hne].
    + destruct s'; split; eauto.
    + split; [discriminate | intros [? [=]]; congruence].
Qed.

(** [Contains] with a pattern of one byte is membership of that byte. *)
Lemma Contains_char (c : ascii) (s : string) :
  Contains s (String c EmptyString) = true ↔ In c (list_ascii_of_string s).
Proof.
  induction s as [| d s IH].
  - cbn. split; [discriminate | tauto].
  - change (Contains (String d s) (String c EmptyString))
      with (String.prefix (String c EmptyString) (String d s) || Contains s (String c EmptyString)).
    rewrite orb_true_iff, IH, prefix_char. cbn [list_ascii_of_string In].
    split.
    + intros [[s' [= -> _]] | H]; auto.
    + intros [-> | H]; eauto.
Qed.

Lemma split_go_without (sep : ascii) (s : string) (cur : list ascii) :
  ¬ In sep (list_ascii_of_string s) →
  split_go sep s cur = [string_of_list_ascii (rev cur ++ list_ascii_of_string s)].
Proof.
  revert cur. induction s as [| c s IH]; intros cur Hnot; cbn.
  - by rewrite app_nil_r.
  - cbn in Hnot. destruct (Ascii.eqb_spec c sep) as [-> | Hne]; [tauto |].
    rewrite IH by tauto. cbn. by rewrite <- app_assoc.
Qed.

Lemma split_go_nonempty (sep : ascii) (s : string) (cur : list ascii) :
  ∃ a rest, split_go sep s cur = a :: rest.
Proof.
  revert cur. induction s as [| c s IH]; intros cur; cbn; [eauto |].
  destruct (Ascii.eqb c sep); eauto.
Qed.

Lemma split_go_with (sep : ascii) (s : string) (cur : list ascii) :
  In sep (list_ascii_of_string s) →
  ∃ a b rest, split_go sep s cur = a :: b :: rest.
Proof.
  revert cur. induction s as [| c s IH]; intros cur Hin; cbn in *; [tauto |].
  destruct (Ascii.eqb_spec c sep) as [-> | Hne].
  - destruct (split_go_nonempty sep s []) as (b & rest & ->). eauto.
  - destruct Hin as [-> | Hin]; [congruence | eauto].
Qed.

Lemma Split_without (s : string) (sep : ascii) :
  Contains s (String sep EmptyString) = false → Split s sep = [s].
Proof.
  intros H. unfold Split. rewrite split_go_without.
  - cbn. by rewrite string_of_list_ascii_of_string.
  - rewrite <- Contains_char. congruence.
Qed.

Lemma Split_with (s : string) (sep : ascii) :
  Contains s (String sep EmptyString) = true → ∃ a b rest, Split s sep = a :: b :: rest.
Proof. intros H. apply split_go_with, Contains_char, H. Qed.

(** ** Facts on EXPOSE *)

(** The checks of the parser on a port are the ones the design states. *)
Lemma number_check (a : string) (pos : Position) :
  match Atoi a with
  | Some _ => None
  | None => instruction_error ("Invalid port number: " +:+ a) pos
  end = None ↔ is_Some (Atoi a).
Proof.
  destruct (Atoi a); split.
  - eauto.
  - reflexivity.
  - discriminate.
  - intros [? ?]. discriminate.
Qed.

Lemma check_port_accepted (t : Token) :
  check_port t = None ↔ port_accepted (tok_Value t).
Proof.
  unfold check_port, port_accepted, is_integer.
  destruct (Contains (tok_Value t) "/") eqn:HC.
  - destruct (Split_with _ _ HC) as (a & b & rest & ->). cbn [nth andb].
    destruct (String.eqb_spec b "tcp") as [-> | Htcp]; cbn [negb andb].
    + rewrite number_check. tauto.
    + destruct (String.eqb_spec b "udp") as [-> | Hudp]; cbn [negb].
      * rewrite number_check. tauto.
      * split; [discriminate |]. intros [[? | ?] _]; congruence.
  - rewrite (Split_without _ _ HC). cbn [andb].
    apply number_check.
Qed.

Lemma expose_loop_accepts (args : list Token) (instruction : Instruction) :
  snd (expose_loop args instruction) = None
  ↔ Forall (fun t => port_accepted (tok_Value t)) (List.filter not_whitespace args).
Proof.
  revert instruction. induction args as [| t args IH]; intros instruction; cbn.
  - split; auto.
  - destruct (not_whitespace t); [| apply IH].
    rewrite Forall_cons_iff, <- check_port_accepted.
    destruct (check_port t) eqn:HP; cbn.
    + split; [discriminate | intros [? _]; discriminate].
    + rewrite IH. tauto.
Qed.

(** ** Properties of the instruction parser *)

Section ParserFacts.

Variable json_Unmarshal : string → list string + string.
Variable range_order : gmap string string → list (string * string).

Local Abbreviation parse := (parse_line json_Unmarshal range_order).

(** C4. With the argument tokens of [COPY --from=builder /src /dst], COPY
    parses and its [Dependencies] hold [builder]; ADD with the same
    argument tokens fails with a [CodeInstructionError] whose message names
    the [--from] flag. *)
Theorem copy_from_accepted_add_from_rejected (n : Z) (stage : StageRef) :
  (∃ i, parse (copy_line n) stage = Some (Ok i)
        ∧ "builder" ∈ ins_Dependencies i
        ∧ ins_Flags i !! "from" = Some "builder"
        ∧ ins_Args i = ["/src"; "/dst"])
  ∧ (∃ d, parse (add_line n) stage = Some (Err (EDockerfile d))
          ∧ err_Code d = CodeInstructionError
          ∧ err_Message d = "ADD does not support the --from flag").
Proof.
  split.
  - eexists. split; [reflexivity |]. cbn. split; [apply list_elem_of_singleton; reflexivity |].
    split; reflexivity.
  - eexists. split; [reflexivity |]. split; reflexivity.
Qed.

(** C9. [ONBUILD ONBUILD RUN x] fails with the nesting error,
    [ONBUILD FROM scratch] fails with the error on the FROM trigger, and
    [ONBUILD RUN echo hi] parses to the one argument [RUN echo hi]. *)
Theorem onbuild_triggers (n : Z) (stage : StageRef) :
  (∃ d, parse (onbuild_nested_line n) stage = Some (Err (EDockerfile d))
        ∧ err_Code d = CodeInstructionError
        ∧ err_Message d = "ONBUILD cannot be nested (ONBUILD ONBUILD ...)")
  ∧ (∃ d, parse (onbuild_from_line n) stage = Some (Err (EDockerfile d))
          ∧ err_Code d = CodeInstructionError
          ∧ err_Message d = "ONBUILD cannot trigger FROM instruction")
  ∧ (∃ i, parse (onbuild_run_line n) stage = Some (Ok i)
          ∧ ins_Args i = ["RUN echo hi"]).
Proof.
  repeat split; eexists; (split; [reflexivity |]); repeat split; reflexivity.
Qed.

(** EXPOSE as the code has it. [EXPOSE 8080/tcp 9090/udp 70000] parses, the
    three ports kept as written. In general EXPOSE parses exactly when it
    has an argument and each port passes [port_accepted]: the text before
    the first slash is an integer and the text between the first and the
    second slash, if any, is [tcp] or [udp]. A numeric part that is not an
    integer is refused with the port number error. No range is imposed on
    the number: 70000, 0 and 65536 pass. *)
Lemma expose_ports (n : Z) (stage : StageRef) :
  (∃ i, parse (expose_line n) stage = Some (Ok i)
        ∧ ins_Args i = ["8080/tcp"; "9090/udp"; "70000"])
  ∧ (∀ tokens instruction,
        snd (parseExposeInstruction tokens instruction) = None
        ↔ it_Arguments tokens ≠ []
          ∧ Forall (fun t => port_accepted (tok_Value t))
                   (List.filter not_whitespace (it_Arguments tokens)))
  ∧ (∃ d, parse (expose_one "8080/sctp" n) stage = Some (Err (EDockerfile d))
          ∧ err_Code d = CodeInstructionError
          ∧ err_Message d = "Invalid protocol: sctp. Must be tcp or udp")
  ∧ (∃ d, parse (expose_one "http" n) stage = Some (Err (EDockerfile d))
          ∧ err_Code d = CodeInstructionError
          ∧ err_Message d = "Invalid port number: http")
  ∧ port_accepted "70000" ∧ port_accepted "0" ∧ port_accepted "65536/tcp".
Proof.
  split; [eexists; split; reflexivity |].
  split.
  { intros tokens instruction. unfold parseExposeInstruction.
    destruct (it_Arguments tokens) as [| t args] eqn:E.
    - cbn. split; [discriminate | intros [? _]; congruence].
    - rewrite expose_loop_accepts. split; [intros H; split; [discriminate | exact H] | tauto]. }
  split; [eexists; split; [reflexivity | split; reflexivity] |].
  split; [eexists; split; [reflexivity | split; reflexivity] |].
  unfold port_accepted, is_integer. cbn. eauto 6.
Qed.

(** C7. A protocol suffix other than [tcp] or [udp] is not always refused:
    the code cuts the port at every slash and checks the second field only,
    so [EXPOSE 80/tcp/sctp] and [EXPOSE 80/udp/] parse, the port kept as
    written, where the design has them refused. The other parts hold:
    [EXPOSE 8080/tcp 9090/udp 70000] parses with its three ports, 70000
    among them, [8080/sctp] is refused with the protocol error and [http]
    with the port number error. *)
Theorem expose_protocol_suffix_not_checked (n : Z) (stage : StageRef) :
  (∃ i, parse (expose_one "80/tcp/sctp" n) stage = Some (Ok i)
        ∧ ins_Args i = ["80/tcp/sctp"])
  ∧ (∃ i, parse (expose_one "80/udp/" n) stage = Some (Ok i)
          ∧ ins_Args i = ["80/udp/"])
  ∧ (∃ i, parse (expose_line n) stage = Some (Ok i)
          ∧ ins_Args i = ["8080/tcp"; "9090/udp"; "70000"])
  ∧ (∃ d, parse (expose_one "8080/sctp" n) stage = Some (Err (EDockerfile d))
          ∧ err_Code d = CodeInstructionError
          ∧ err_Message d = "Invalid protocol: sctp. Must be tcp or udp")
  ∧ (∃ d, parse (expose_one "http" n) stage = Some (Err (EDockerfile d))
          ∧ err_Code d = CodeInstructionError
          ∧ err_Message d = "Invalid port number: http").
Proof.
  split; [eexists; split; reflexivity |].
  split; [eexists; split; reflexivity |].
  split; [eexists; split; reflexivity |].
  split; eexists; (split; [reflexivity | split; reflexivity]).
Qed.

(** *** The JSON form of CMD *)

(** [ProcessInstructionLine] leaves [JSONForm] unset on every line. *)
Lemma line_never_JSONForm (tokens : list Token) (it : InstructionTokens) :
  instruction_of_line tokens = Ok (Some it) → it_JSONForm it = false.
Proof.
  destruct tokens as [| first rest]; cbn; [discriminate |].
  destruct (is_type TOKEN_COMMENT first); [discriminate |].
  destruct (IsInstruction first); cbn; [| discriminate].
  intros [= <-]. reflexivity.
Qed.

(** So a CMD line coming from the lexer is parsed in shell form whatever its
    tokens are: one argument, or a [CodeInstructionError]; never the JSON
    decoder, never a [CodeSyntaxError]. *)
Lemma cmd_line_shell_form_only (tokens : list Token) (it : InstructionTokens)
    (stage : StageRef) :
  instruction_of_line tokens = Ok (Some it) →
  GetInstructionValue it = "CMD" →
  (∃ i a, ParseInstruction json_Unmarshal range_order (Some it) stage = Ok i
          ∧ ins_Args i = [a] ∧ ins_JSONForm i = false)
  ∨ (∃ d, ParseInstruction json_Unmarshal range_order (Some it) stage = Err (EDockerfile d)
          ∧ err_Code d = CodeInstructionError).
Proof.
  intros Hline Hcmd. pose proof (line_never_JSONForm _ _ Hline) as HJ.
  unfold ParseInstruction. rewrite Hcmd. cbn [dispatch String.eqb Ascii.eqb Bool.eqb].
  unfold parseCmdInstruction. rewrite HJ.
  destruct (String.eqb (GetArgumentsAsString it) EmptyString).
  - right. eexists. split; reflexivity.
  - left. eexists _, _. split; [reflexivity |]. split; [reflexivity |].
    unfold new_instruction. rewrite HJ.
    destruct (it_Comments it), (list.last (it_Raw it)); reflexivity.
Qed.

(** Had [JSONForm] been set, the parser would decode the array, and would
    report a text that does not decode as a [CodeSyntaxError]. *)
Lemma cmd_JSONForm_decoded (it : InstructionTokens) (t : Token) (stage : StageRef)
    (args : list string) :
  GetInstructionValue it = "CMD" →
  List.find not_whitespace (it_Arguments it) = Some t →
  tok_Raw t ≠ EmptyString →
  json_Unmarshal (tok_Raw t) = inl args →
  ∃ i, ParseInstruction json_Unmarshal range_order (Some (with_JSONForm it)) stage = Ok i
       ∧ ins_Args i = args ∧ ins_JSONForm i = true.
Proof.
  intros Hcmd Hfind Hraw Hjson.
  unfold ParseInstruction.
  change (GetInstructionValue (with_JSONForm it)) with (GetInstructionValue it).
  rewrite Hcmd. cbn [dispatch String.eqb Ascii.eqb Bool.eqb].
  unfold parseCmdInstruction, parseJSONArrayForm. cbn [with_JSONForm it_JSONForm it_Arguments].
  rewrite Hfind. destruct (String.eqb_spec (tok_Raw t) EmptyString) as [? | _]; [done |].
  rewrite Hjson. eexists. split; [reflexivity |]. split; reflexivity.
Qed.

Lemma cmd_JSONForm_invalid (it : InstructionTokens) (t : Token) (stage : StageRef)
    (msg : string) :
  GetInstructionValue it = "CMD" →
  List.find not_whitespace (it_Arguments it) = Some t →
  tok_Raw t ≠ EmptyString →
  json_Unmarshal (tok_Raw t) = inr msg →
  ∃ d, ParseInstruction json_Unmarshal range_order (Some (with_JSONForm it)) stage
       = Err (EDockerfile d)
       ∧ err_Code d = CodeSyntaxError.
Proof.
  intros Hcmd Hfind Hraw Hjson.
  unfold ParseInstruction.
  change (GetInstructionValue (with_JSONForm it)) with (GetInstructionValue it).
  rewrite Hcmd. cbn [dispatch String.eqb Ascii.eqb Bool.eqb].
  unfold parseCmdInstruction, parseJSONArrayForm. cbn [with_JSONForm it_JSONForm it_Arguments].
  rewrite Hfind. destruct (String.eqb_spec (tok_Raw t) EmptyString) as [? | _]; [done |].
  rewrite Hjson. eexists. split; reflexivity.
Qed.

(** [scanJSONArray] returns the array of the CMD line as one [TOKEN_STRING]
    whose value and raw text are the text of the array; [IsJSONForm], which
    looks for a token of value [[], does not take the line for JSON form
    either. *)
Lemma scanJSONArray_one_token :
  ∃ s', scanJSONArray 20 json_scanner
        = Some (Ok (mkToken TOKEN_STRING json_abd 1 4 (len json_abd) json_abd), s').
Proof. eexists. vm_compute. reflexivity. Qed.

Lemma IsJSONForm_cmd_json_line (n : Z) : IsJSONForm (cmd_json_line n) = false.
Proof. reflexivity. Qed.

(** C1. On the line [CMD ["a","b c","d"]] as the lexer hands it over, the
    parser does not decode the array: it returns the whole array text as the
    one shell-form argument, with [JSONForm] false. [CMD echo hi] gives the
    argument [echo hi]. A CMD line whose argument is the text
    [[invalid json] is accepted in shell form as well. *)
Theorem cmd_json_array_parsed_in_shell_form (n : Z) (stage : StageRef) :
  (∃ i, parse (cmd_json_line n) stage = Some (Ok i)
        ∧ ins_Args i = [json_abd] ∧ ins_JSONForm i = false)
  ∧ (∃ i, parse (cmd_shell_line n) stage = Some (Ok i)
          ∧ ins_Args i = ["echo hi"] ∧ ins_JSONForm i = false)
  ∧ (∃ i, parse (cmd_invalid_line n) stage = Some (Ok i)
          ∧ ins_Args i = ["[invalid json"] ∧ ins_JSONForm i = false).
Proof.
  repeat split; eexists; (split; [reflexivity |]); split; reflexivity.
Qed.

End ParserFacts.

(** ** Termination of the lexer loops *)

Lemma live_le (t : Token) : (live t <= 1)%nat.
Proof. unfold live. destruct (is_type TOKEN_EOF t); lia. Qed.

Lemma live_EOF : live Token_EOF = 0%nat.
Proof. reflexivity. Qed.

Lemma live_not_EOF (t : Token) : is_type TOKEN_EOF t = false → live t = 1%nat.
Proof. unfold live. intros ->. reflexivity. Qed.

Lemma live_is_EOF (t : Token) : is_type TOKEN_EOF t = true → live t = 0%nat.
Proof. unfold live. intros ->. reflexivity. Qed.

(** [nextToken] never adds work, and removes some when the current token is
    not EOF. *)
Lemma nextToken_remaining (l : Lexer) :
  (remaining (nextToken l) + live (lx_currentToken l) <= remaining l)%nat.
Proof.
  unfold nextToken, remaining, Scan, nextToken_fail, nextToken_accept.
  pose proof (live_le (lx_peekToken l)) as Hp.
  destruct l as [sc cur peek toks errs inH hid lt]; cbn [lx_scanner lx_currentToken lx_peekToken
    lx_tokens lx_errors lx_inHeredoc lx_heredocID lx_lineTokens] in *.
  destruct sc as [| [t | e] sc]; cbn [lx_scanner lx_peekToken lx_currentToken length].
  - rewrite live_EOF. lia.
  - destruct (negb inH && is_type TOKEN_WHITESPACE t).
    + destruct sc as [| [t' | e'] sc]; cbn [lx_scanner lx_peekToken lx_currentToken length].
      * rewrite live_EOF. lia.
      * pose proof (live_le t').
        destruct (is_type TOKEN_HEREDOC_START t');
          [| destruct (inH && is_type TOKEN_HEREDOC_END t' && String.eqb (tok_Value t') hid)];
          cbn [lx_scanner lx_peekToken lx_currentToken length]; lia.
      * rewrite live_EOF. lia.
    + pose proof (live_le t).
      destruct (is_type TOKEN_HEREDOC_START t);
        [| destruct (inH && is_type TOKEN_HEREDOC_END t && String.eqb (tok_Value t) hid)];
        cbn [lx_scanner lx_peekToken lx_currentToken length]; lia.
  - rewrite live_EOF. lia.
Qed.

Lemma set_lineTokens_remaining (l : Lexer) (ts : list Token) :
  remaining (set_lineTokens l ts) = remaining l.
Proof. reflexivity. Qed.

Lemma add_error_remaining (l : Lexer) (e : error) :
  remaining (add_error l e) = remaining l.
Proof. reflexivity. Qed.

(** The loop of [TokenizeLine] returns, and has used up some of the input
    when the current token was not EOF. *)
Lemma TokenizeLine_loop_total (fuel : nat) (l : Lexer) (cm : bool) :
  (remaining l < fuel)%nat →
  ∃ l', TokenizeLine_loop fuel l cm = Some l'
        ∧ (remaining l' + live (lx_currentToken l) <= remaining l)%nat.
Proof.
  revert l cm. induction fuel as [| fuel IH]; intros l cm Hfuel; [lia |].
  cbn [TokenizeLine_loop NextToken].
  pose proof (nextToken_remaining l) as Hstep.
  destruct (is_type TOKEN_EOF (lx_currentToken l)) eqn:HEOF.
  - eexists. split; [reflexivity |]. lia.
  - rewrite (live_not_EOF _ HEOF) in *.
    set (l1 := set_lineTokens (nextToken l) _).
    assert (remaining l1 = remaining (nextToken l)) as H1 by reflexivity.
    assert (∀ cm', ∃ l', TokenizeLine_loop fuel l1 cm' = Some l'
                         ∧ (remaining l' + 1 <= remaining l)%nat) as Hrec.
    { intros cm'. destruct (IH l1 cm') as (l' & -> & Hle); [lia |].
      eexists. split; [reflexivity |]. lia. }
    destruct (is_type TOKEN_CONTINUATION (lx_currentToken l)); [apply Hrec |].
    destruct (is_type TOKEN_NEWLINE (lx_currentToken l)); [| apply Hrec].
    destruct (negb cm); [| apply Hrec].
    eexists. split; [reflexivity |]. lia.
Qed.

Lemma TokenizeLine_total (l : Lexer) :
  ∃ tokens l', TokenizeLine l = Some (tokens, l')
               ∧ (remaining l' + live (lx_currentToken l) <= remaining l)%nat.
Proof.
  unfold TokenizeLine.
  destruct (TokenizeLine_loop_total (S (remaining l)) (set_lineTokens l []) false)
    as (l' & -> & Hle); [rewrite set_lineTokens_remaining; lia |].
  cbn. eauto.
Qed.

Lemma ProcessInstructionLine_total (l : Lexer) :
  ∃ r l', ProcessInstructionLine l = Some (r, l')
          ∧ (remaining l' + live (lx_currentToken l) <= remaining l)%nat.
Proof.
  unfold ProcessInstructionLine.
  destruct (TokenizeLine_total l) as (tokens & l' & -> & Hle). cbn. eauto.
Qed.

Lemma skip_line_total (fuel : nat) (l : Lexer) :
  (remaining l < fuel)%nat →
  ∃ l', skip_line fuel l = Some l' ∧ (remaining l' <= remaining l)%nat.
Proof.
  revert l. induction fuel as [| fuel IH]; intros l Hfuel; [lia |].
  cbn [skip_line NextToken snd].
  destruct (is_type TOKEN_EOF (lx_currentToken l)) eqn:HEOF; cbn [negb andb].
  - eauto.
  - destruct (is_type TOKEN_NEWLINE (lx_currentToken l)); cbn [negb]; [eauto |].
    pose proof (nextToken_remaining l) as Hstep. rewrite (live_not_EOF _ HEOF) in Hstep.
    destruct (IH (nextToken l)) as (l' & -> & Hle); [lia |].
    eexists. split; [reflexivity |]. lia.
Qed.

(** The loop of [ProcessAllInstructions] returns, and leaves the lexer on
    EOF. *)
Lemma ProcessAllInstructions_loop_total (fuel : nat) (l : Lexer)
    (instructions : list InstructionTokens) :
  (remaining l < fuel)%nat →
  ∃ instructions' l', ProcessAllInstructions_loop fuel l instructions = Some (instructions', l')
                      ∧ is_type TOKEN_EOF (lx_currentToken l') = true.
Proof.
  revert l instructions. induction fuel as [| fuel IH]; intros l instructions Hfuel; [lia |].
  cbn [ProcessAllInstructions_loop].
  destruct (is_type TOKEN_EOF (lx_currentToken l)) eqn:HEOF; [eauto |].
  destruct (ProcessInstructionLine_total l) as (r & l1 & -> & Hle).
  rewrite (live_not_EOF _ HEOF) in Hle. cbn [mbind option_bind].
  destruct r as [[inst |] | e].
  - apply IH. lia.
  - apply IH. lia.
  - destruct (skip_line_total (S (remaining (add_error l1 e))) (add_error l1 e))
      as (l2 & -> & Hle2); [lia |].
    cbn [mbind option_bind]. apply IH. rewrite add_error_remaining in Hle2. lia.
Qed.

Lemma ProcessAllInstructions_total (l : Lexer) :
  ∃ instructions l', ProcessAllInstructions l = Some (instructions, lx_errors l', l')
                     ∧ is_type TOKEN_EOF (lx_currentToken l') = true.
Proof.
  unfold ProcessAllInstructions.
  destruct (ProcessAllInstructions_loop_total (S (remaining l)) l []) as (insts & l' & -> & H);
    [lia |].
  cbn. eauto.
Qed.

(** On a lexer that stands on EOF, [ProcessAllInstructions] finds nothing. *)
Lemma ProcessAllInstructions_at_EOF (l : Lexer) :
  is_type TOKEN_EOF (lx_currentToken l) = true →
  ProcessAllInstructions l = Some ([], lx_errors l, l).
Proof.
  intros H. unfold ProcessAllInstructions. cbn [ProcessAllInstructions_loop].
  rewrite H. reflexivity.
Qed.

Lemma DetectStages_total (l : Lexer) :
  ∃ r l', DetectStages l = Some (r, l') ∧ is_type TOKEN_EOF (lx_currentToken l') = true.
Proof.
  unfold DetectStages.
  destruct (ProcessAllInstructions_total l) as (insts & l' & -> & H). cbn.
  destruct (lx_errors l'); eauto.
Qed.

(** ** Properties of the lexer *)

(** Without the first line, both RUN lines are returned and there is no
    error. *)
Lemma good_lines_returned :
  ∃ i1 i2 l',
    ProcessAllInstructions (NewLexer (run_tokens "x" 2 ++ run_tokens "y" 3))
    = Some ([i1; i2], [], l')
    ∧ GetArgumentsAsString i1 = "x" ∧ GetArgumentsAsString i2 = "y".
Proof. eexists _, _, _. split; [vm_compute; reflexivity |]. split; reflexivity. Qed.

(** C3. After the malformed line [foo], [ProcessAllInstructions] returns
    neither of the two well-formed RUN lines that follow: the line has been
    read up to and with its newline when the error comes back, so the
    resynchronisation runs over the next line, whose newline then counts as
    a malformed line of its own. The result is no instruction and three
    errors, at lines 1, 2 and 3. *)
Theorem lines_after_a_bad_line_are_dropped :
  ∃ l',
    ProcessAllInstructions (NewLexer bad_then_good)
    = Some ([],
            [line_error (token TOKEN_STRING "foo" 1 0);
             line_error (token TOKEN_NEWLINE nl 2 5);
             line_error (token TOKEN_NEWLINE nl 3 5)],
            l').
Proof. eexists. vm_compute. reflexivity. Qed.

(** C5. [DetectVariables] returns no variable, whatever the input: the call
    of [DetectStages] has read the lexer to EOF, so the second call of
    [ProcessAllInstructions], on the same lexer, finds no instruction. *)
Theorem DetectVariables_returns_nothing
    (range_order : gmap string string → list (string * string)) (l : Lexer) :
  ∃ l', DetectVariables range_order l = Some ([], l').
Proof.
  unfold DetectVariables.
  destruct (DetectStages_total l) as (r & l1 & -> & HEOF). cbn [mbind option_bind].
  destruct r as [stages | e]; [| eauto].
  rewrite (ProcessAllInstructions_at_EOF l1 HEOF). cbn. eauto.
Qed.

(** On these lines the loop over the instructions, had it been given the
    instructions, would find the variable in stage 0. *)
Lemma variables_of_from_then_arg :
  ∃ instructions stages l',
    ProcessAllInstructions (NewLexer from_then_arg) = Some (instructions, [], l')
    ∧ stages = stages_of instructions
    ∧ variables_of map_to_list stages instructions
      = [mkVariableInfo "VERSION" "ARG" "1" 2 0 0].
Proof.
  eexists _, _, _. split; [vm_compute; reflexivity |]. split; [reflexivity |].
  vm_compute. reflexivity.
Qed.

Lemma DetectVariables_from_then_arg :
  ∃ l', DetectVariables map_to_list (NewLexer from_then_arg) = Some ([], l').
Proof. eexists. vm_compute. reflexivity. Qed.

(** *** Stages *)

Lemma wrap64_small (z : Z) : - 2 ^ 63 <= z < 2 ^ 63 → wrap64 z = z.
Proof. intros H. unfold wrap64. rewrite Z.mod_small; lia. Qed.

Lemma indices_S (n : nat) : indices (S n) = indices n ++ [Z.of_nat n].
Proof. unfold indices. rewrite seq_S, List.map_app. reflexivity. Qed.

Lemma open_stages_closed (st : StageScan) (line : Z) (f : StageInfo → Z) :
  (∀ s z, f (set_EndLine s z) = f s) →
  List.map f (if 0 <? stage_StartLine (ss_currentStage st)
              then ss_stages st ++ [set_EndLine (ss_currentStage st) line]
              else ss_stages st)
  = List.map f (open_stages st).
Proof.
  intros Hf. unfold open_stages. destruct (0 <? _); [| reflexivity].
  rewrite !List.map_app. cbn. by rewrite Hf.
Qed.

Lemma DetectStages_step_FROM (st : StageScan) (inst : InstructionTokens) :
  is_FROM inst = true →
  DetectStages_step st inst
  = mkStageScan
      (if 0 <? stage_StartLine (ss_currentStage st)
       then ss_stages st ++
            [set_EndLine (ss_currentStage st) (int_sub (tok_Line (it_Instruction inst)) 1)]
       else ss_stages st)
      (mkStageInfo (ss_stageIndex st) (stage_name_of (it_Arguments inst))
                   (base_image_of (it_Arguments inst)) (tok_Line (it_Instruction inst)) 0)
      (int_add (ss_stageIndex st) 1).
Proof. unfold is_FROM, DetectStages_step. intros ->. reflexivity. Qed.

Lemma DetectStages_step_other (st : StageScan) (inst : InstructionTokens) :
  is_FROM inst = false → DetectStages_step st inst = st.
Proof. unfold is_FROM, DetectStages_step. intros ->. reflexivity. Qed.

(** The invariant of the loop of [DetectStages]: the stages so far start at
    the lines of the FROM instructions read, and are numbered from 0. *)
Lemma DetectStages_loop_invariant (instructions : list InstructionTokens) :
  ∀ (st : StageScan) (lines : list Z),
    List.map stage_StartLine (open_stages st) = lines →
    List.map stage_Index (open_stages st) = indices (length lines) →
    ss_stageIndex st = Z.of_nat (length lines) →
    Forall (fun z => 0 < z) (FROM_lines instructions) →
    Z.of_nat (length lines + length instructions) < 2 ^ 63 →
    let st' := fold_left DetectStages_step instructions st in
    List.map stage_StartLine (open_stages st') = lines ++ FROM_lines instructions
    ∧ List.map stage_Index (open_stages st')
      = indices (length (lines ++ FROM_lines instructions)).
Proof.
  induction instructions as [| inst instructions IH]; intros st lines HS HI HN Hpos Hlen.
  - cbn. rewrite app_nil_r. auto.
  - cbn [fold_left]. unfold FROM_lines in *. cbn [List.filter] in *.
    destruct (is_FROM inst) eqn:HF.
    + cbn [List.map] in *. apply Forall_cons in Hpos as [Hline Hpos].
      rewrite (DetectStages_step_FROM st inst HF).
      set (st1 := mkStageScan _ _ _).
      assert (open_stages st1
              = (if 0 <? stage_StartLine (ss_currentStage st)
                 then ss_stages st ++ [set_EndLine (ss_currentStage st)
                                         (int_sub (tok_Line (it_Instruction inst)) 1)]
                 else ss_stages st)
                ++ [ss_currentStage st1]) as Hopen.
      { unfold open_stages at 1. cbn [st1 ss_currentStage ss_stages stage_StartLine].
        apply Z.ltb_lt in Hline. by rewrite Hline. }
      specialize (IH st1 (lines ++ [tok_Line (it_Instruction inst)])).
      rewrite <- !app_assoc in IH. cbn [app] in IH. apply IH; clear IH.
      * rewrite Hopen, List.map_app, open_stages_closed by reflexivity.
        rewrite HS. reflexivity.
      * rewrite Hopen, List.map_app, open_stages_closed by reflexivity.
        rewrite HI, length_app, Nat.add_1_r, indices_S. cbn. by rewrite HN.
      * cbn [st1 ss_stageIndex]. rewrite HN, length_app. unfold int_add.
        cbn [length] in *. rewrite wrap64_small; lia.
      * exact Hpos.
      * rewrite length_app. cbn [length] in *. lia.
    + rewrite (DetectStages_step_other st inst HF).
      apply IH; auto. cbn [length] in Hlen. lia.
Qed.

Lemma DetectStages_finish_map (st : StageScan) (instructions : list InstructionTokens)
    (f : StageInfo → Z) :
  (∀ s z, f (set_EndLine s z) = f s) →
  List.map f (DetectStages_finish st instructions) = List.map f (open_stages st).
Proof.
  intros Hf. unfold DetectStages_finish, open_stages.
  destruct (0 <? _); [| reflexivity].
  rewrite !List.map_app. cbn. destruct (list.last instructions); by rewrite ?Hf.
Qed.

(** The stages are numbered 0, 1, 2, ... and start at the lines of the FROM
    instructions, one stage for each, in source order. *)
Lemma stages_of_indices (instructions : list InstructionTokens) :
  Forall (fun z => 0 < z) (FROM_lines instructions) →
  Z.of_nat (length instructions) < 2 ^ 63 →
  List.map stage_Index (stages_of instructions) = indices (length (FROM_lines instructions))
  ∧ List.map stage_StartLine (stages_of instructions) = FROM_lines instructions.
Proof.
  intros Hpos Hlen. unfold stages_of.
  rewrite !DetectStages_finish_map by reflexivity.
  destruct (DetectStages_loop_invariant instructions StageScan_init []) as [HS HI];
    try reflexivity; auto.
Qed.

(** C8. When [DetectStages] returns stages, there is one for each FROM
    instruction, in source order, and their indices are 0, 1, 2, ... The
    lines of the tokens are those of the scanner, which counts from 1, and
    the instructions fit in a slice. *)
Theorem DetectStages_indices (l l' : Lexer) (instructions : list InstructionTokens)
    (errors : list error) (stages : list StageInfo) :
  ProcessAllInstructions l = Some (instructions, errors, l') →
  DetectStages l = Some (Ok stages, l') →
  Forall (fun z => 0 < z) (FROM_lines instructions) →
  Z.of_nat (length instructions) < 2 ^ 63 →
  List.map stage_Index stages = indices (length (FROM_lines instructions))
  ∧ List.map stage_StartLine stages = FROM_lines instructions
  ∧ length stages = length (List.filter is_FROM instructions).
Proof.
  intros HP HD Hpos Hlen. unfold DetectStages in HD. rewrite HP in HD.
  cbn [mbind option_bind] in HD. destruct errors; [| discriminate].
  injection HD as <-.
  destruct (stages_of_indices instructions Hpos Hlen) as [HI HS].
  split; [exact HI |]. split; [exact HS |].
  rewrite <- (length_map stage_StartLine), HS. unfold FROM_lines. by rewrite length_map.
Qed.

Lemma DetectStages_indices_two_stages :
  ProcessAllInstructions (NewLexer two_stages)
  = Some (two_stages_instructions, [], two_stages_end)
  ∧ DetectStages (NewLexer two_stages) = Some (Ok two_stages_found, two_stages_end)
  ∧ Forall (fun z => 0 < z) (FROM_lines two_stages_instructions)
  ∧ Z.of_nat (length two_stages_instructions) < 2 ^ 63
  ∧ (List.map stage_Index two_stages_found = [0; 1]
     ∧ List.map stage_StartLine two_stages_found = [1; 3]
     ∧ length two_stages_found = 2%nat).
Proof.
  assert (ProcessAllInstructions (NewLexer two_stages)
          = Some (two_stages_instructions, [], two_stages_end)) as HP
    by (vm_compute; reflexivity).
  assert (DetectStages (NewLexer two_stages) = Some (Ok two_stages_found, two_stages_end)) as HD
    by (vm_compute; reflexivity).
  assert (Forall (fun z => 0 < z) (FROM_lines two_stages_instructions)) as Hpos
    by (vm_compute; repeat constructor).
  assert (Z.of_nat (length two_stages_instructions) < 2 ^ 63) as Hlen
    by (vm_compute; reflexivity).
  split; [exact HP |]. split; [exact HD |]. split; [exact Hpos |]. split; [exact Hlen |].
  exact (DetectStages_indices (NewLexer two_stages) two_stages_end two_stages_instructions []
           two_stages_found HP HD Hpos Hlen).
Defined.

(** An input without FROM has no stage. *)
Lemma stages_of_without_FROM (instructions : list InstructionTokens) :
  List.filter is_FROM instructions = [] → stages_of instructions = [].
Proof.
  intros Hnone. unfold stages_of.
  assert (fold_left DetectStages_step instructions StageScan_init = StageScan_init) as ->;
    [| reflexivity].
  generalize StageScan_init as st.
  induction instructions as [| inst instructions IH]; intros st; [reflexivity |].
  cbn [List.filter] in Hnone. destruct (is_FROM inst) eqn:HF; [discriminate |].
  cbn [fold_left]. rewrite (DetectStages_step_other st inst HF). auto.
Qed.

(** C6. On [FROM --platform=linux/amd64 ubuntu AS build], [DetectStages]
    takes the flag, which is the first argument, as the base image of the
    stage. The parser's FROM rule, on the same line, skips the flag and
    takes [ubuntu]. *)
Theorem DetectStages_base_image_is_first_argument :
  (∃ l', DetectStages (NewLexer from_platform)
         = Some (Ok [mkStageInfo 0 "build" "--platform=linux/amd64" 1 2], l'))
  ∧ (∀ json_Unmarshal range_order stage,
       ∃ i, parse_line json_Unmarshal range_order (from_platform_tokens 1) stage = Some (Ok i)
            ∧ ins_Args i = ["ubuntu"]
            ∧ ins_Flags i !! "platform" = Some "linux/amd64"
            ∧ ins_Flags i !! "stage" = Some "build").
Proof.
  split.
  - eexists. vm_compute. reflexivity.
  - intros. eexists. split; [reflexivity |]. repeat split; reflexivity.
Qed.

(** ** Properties of the scanner's heredoc body *)

Lemma scan_heredocWord (s : Scanner) : sc_heredocWord (snd (scan s)) = sc_heredocWord s.
Proof. unfold scan. destruct (ReadRune (sc_reader s)) as [[c |] r]; reflexivity. Qed.

(** When the next rune is neither a newline nor the end of the input, one
    turn of the loop of [peekLine] puts the rune back and goes on: the reader
    has the same runes to read as before the turn. *)
Lemma peekLine_body_stuck (s : Scanner) (c : ascii) (rest : string) :
  rd_pending (sc_reader s) = String c rest →
  c ≠ newline →
  ∃ s', peekLine_body s = inr s'
        ∧ rd_pending (sc_reader s') = String c rest
        ∧ sc_peekBuffer s' = WriteRune (sc_peekBuffer s) c.
Proof.
  intros Hpending Hc. unfold peekLine_body, ReadRune. rewrite Hpending.
  destruct (Ascii.eqb_spec c newline) as [? | _]; [done |].
  eexists. split; [reflexivity |]. split; reflexivity.
Qed.

Lemma peekLine_loop_diverges (fuel : nat) (s : Scanner) (c : ascii) (rest : string) :
  rd_pending (sc_reader s) = String c rest →
  c ≠ newline →
  peekLine_loop fuel s = None.
Proof.
  revert s. induction fuel as [| fuel IH]; intros s Hpending Hc; [reflexivity |].
  cbn [peekLine_loop].
  destruct (peekLine_body_stuck s c rest Hpending Hc) as (s' & -> & Hpending' & _).
  eauto.
Qed.

(** [peekLine] does not return while a rune other than a newline is
    waiting. *)
Lemma peekLine_diverges (fuel : nat) (s : Scanner) (c : ascii) (rest : string) :
  rd_pending (sc_reader s) = String c rest →
  c ≠ newline →
  peekLine fuel s = None.
Proof.
  intros Hpending Hc. unfold peekLine.
  rewrite (peekLine_loop_diverges fuel (set_peekBuffer s EmptyString) c rest); auto.
Qed.

(** When it returns, it returns the empty line and leaves the delimiter
    alone. *)
Lemma peekLine_returns_empty (fuel : nat) (s s' : Scanner) (line : string) :
  peekLine fuel s = Some (line, s') →
  line = EmptyString ∧ sc_heredocWord s' = sc_heredocWord s.
Proof.
  unfold peekLine. destruct fuel as [| fuel]; [discriminate |].
  cbn [peekLine_loop]. unfold peekLine_body, ReadRune at 1.
  destruct (rd_pending (sc_reader (set_peekBuffer s EmptyString))) as [| c rest] eqn:Hpending.
  - cbn. intros [= <- <-]. split; reflexivity.
  - destruct (Ascii.eqb_spec c newline) as [-> | Hc].
    + cbn. intros [= <- <-]. split; reflexivity.
    + rewrite (peekLine_loop_diverges fuel _ c rest); [discriminate | reflexivity | exact Hc].
Qed.

(** So [scanHeredocContent] never returns a token when the delimiter is not
    empty: the line it compares with the delimiter is always empty. *)
Lemma scanHeredocContent_loop_no_token (fuel : nat) (startPos : Position) (s s' : Scanner)
    (t : Token) :
  sc_heredocWord s ≠ EmptyString →
  scanHeredocContent_loop fuel startPos s ≠ Some (Ok t, s').
Proof.
  revert s. induction fuel as [| fuel IH]; intros s Hword; [discriminate |].
  cbn [scanHeredocContent_loop].
  pose proof (scan_heredocWord s) as Hscan.
  destruct (scan s) as [[err |] s1]; [discriminate |]. cbn [snd] in Hscan.
  destruct (Ascii.eqb (sc_char s1) newline).
  - destruct (peekLine (S fuel) s1) as [[line s2] |] eqn:Hpeek; [| discriminate].
    cbn [mbind option_bind].
    destruct (peekLine_returns_empty _ _ _ _ Hpeek) as [-> Hw].
    change (TrimSpace EmptyString) with EmptyString.
    destruct (String.eqb_spec EmptyString (sc_heredocWord s2)) as [Heq | _]; [congruence |].
    apply IH. cbn. congruence.
  - apply IH. cbn. congruence.
Qed.

Lemma scan_rune (s : Scanner) (c : ascii) (rest : string) :
  rd_pending (sc_reader s) = String c rest →
  ∃ s1, scan s = (None, s1) ∧ sc_char s1 = c ∧ rd_pending (sc_reader s1) = rest.
Proof.
  intros Hpending. unfold scan, ReadRune. rewrite Hpending.
  eexists. split; [reflexivity |]. split; reflexivity.
Qed.

(** On a body whose first newline is followed by a rune other than a
    newline, [scanHeredocContent] does not return at all. *)
Lemma scanHeredocContent_loop_diverges (fuel : nat) (startPos : Position) (pre : string) :
  ∀ (s : Scanner) (c : ascii) (rest : string),
    rd_pending (sc_reader s) = pre +:+ String newline (String c rest) →
    ¬ In newline (list_ascii_of_string pre) →
    c ≠ newline →
    scanHeredocContent_loop fuel startPos s = None.
Proof.
  revert fuel. induction pre as [| x pre IH]; intros fuel s c rest Hpending Hpre Hc;
    (destruct fuel as [| fuel]; [reflexivity |]); cbn [scanHeredocContent_loop];
    simpl in Hpending; destruct (scan_rune s _ _ Hpending) as (s1 & -> & Hchar & Hrest);
    rewrite Hchar.
  - rewrite Ascii.eqb_refl.
    rewrite (peekLine_diverges (S fuel) s1 c rest); [reflexivity | exact Hrest | exact Hc].
  - cbn in Hpre.
    destruct (Ascii.eqb_spec x newline) as [-> | _]; [tauto |].
    apply (IH fuel _ c rest); [exact Hrest | tauto | exact Hc].
Qed.

(** C2. On the body of [RUN <<EOF], [scanHeredocContent] does not return,
    whatever the number of turns allowed, be the scanner placed before the
    newline that ends the [RUN <<EOF] line or after it: at the first newline
    followed by text, [peekLine] reads and puts back the same rune for
    ever. No heredoc content token is produced. *)
Theorem heredoc_body_never_scanned (fuel : nat) :
  scanHeredocContent fuel (heredoc_scanner heredoc_body) = None
  ∧ scanHeredocContent fuel
      (heredoc_scanner ("echo one" +:+ nl +:+ "echo two" +:+ nl +:+ "EOF")) = None.
Proof.
  split.
  - apply (scanHeredocContent_loop_diverges fuel _ EmptyString _ "e"
             ("cho one" +:+ nl +:+ "echo two" +:+ nl +:+ "EOF")).
    + reflexivity.
    + cbn. tauto.
    + discriminate.
  - apply (scanHeredocContent_loop_diverges fuel _ "echo one" _ "e"
             ("cho two" +:+ nl +:+ "EOF")).
    + reflexivity.
    + cbn. unfold newline. intros H. repeat (destruct H as [H | H]; [discriminate |]). exact H.
    + discriminate.
Qed.

(** Given the heredoc tokens, the RUN rule of the parser attaches the
    heredoc with the identifier, the delimiter and the content. *)
Lemma run_heredoc_attached (json_Unmarshal : string → list string + string)
    (range_order : gmap string string → list (string * string)) (stage : StageRef) :
  ∃ i h,
    parse_line json_Unmarshal range_order
      [token TOKEN_INSTRUCTION_RUN "RUN" 1 0;
       token TOKEN_HEREDOC_START "EOF" 1 4;
       token TOKEN_HEREDOC_CONTENT ("echo one" +:+ nl +:+ "echo two" +:+ nl) 2 0] stage
    = Some (Ok i)
    ∧ ins_Heredoc i = Some h
    ∧ hd_Identifier h = "EOF" ∧ hd_Delimiter h = "EOF"
    ∧ hd_Content h = "echo one" +:+ nl +:+ "echo two" +:+ nl.
Proof. eexists _, _. split; [reflexivity |]. repeat split; reflexivity. Qed.

(** ** Two runs of the parser *)

Lemma map_to_list_valid : order_valid map_to_list.
Proof. intros m. reflexivity. Qed.

Lemma reverse_order_valid : order_valid reverse_order.
Proof. intros m. unfold reverse_order. apply reverse_Permutation. Qed.

Section TwoRuns.

Variable json_Unmarshal : string → list string + string.
Variables order1 order2 : gmap string string → list (string * string).
Hypothesis valid1 : order_valid order1.
Hypothesis valid2 : order_valid order2.

Lemma append_pairs_orders (instruction : Instruction) (pairs : gmap string string) :
  set_Args (append_pairs order1 instruction pairs) []
  = set_Args (append_pairs order2 instruction pairs) []
  ∧ ins_Args (append_pairs order1 instruction pairs)
    ≡ₚ ins_Args (append_pairs order2 instruction pairs).
Proof.
  split; [reflexivity |]. unfold append_pairs. cbn [ins_Args set_Args].
  apply Permutation_app; [reflexivity |]. apply Permutation_map.
  rewrite (valid1 pairs), (valid2 pairs). reflexivity.
Qed.

(** The two runs of one rule agree on the error and on the instruction,
    but for the order of the arguments of LABEL and ENV. *)
Lemma dispatch_orders (command : string) (tokens : InstructionTokens)
    (instruction : Instruction) :
  let r1 := dispatch json_Unmarshal order1 command tokens instruction in
  let r2 := dispatch json_Unmarshal order2 command tokens instruction in
  snd r1 = snd r2
  ∧ set_Args (fst r1) [] = set_Args (fst r2) []
  ∧ ins_Args (fst r1) ≡ₚ ins_Args (fst r2)
  ∧ (command ≠ "LABEL" → command ≠ "ENV" → r1 = r2).
Proof.
  unfold dispatch.
  repeat match goal with
         | |- context [String.eqb command ?k] =>
             destruct (String.eqb_spec command k) as [-> | ?]
         end;
    try (cbv zeta; repeat split; (reflexivity || congruence)).
  - unfold parseLabelInstruction.
    destruct (String.eqb _ EmptyString); cbv zeta; cbn [fst snd];
      [repeat split; (reflexivity || congruence) |].
    split; [reflexivity |].
    destruct (append_pairs_orders instruction
                (parseKeyValuePairs (GetArgumentsAsString tokens))) as [H1 H2].
    split; [exact H1 |]. split; [exact H2 | congruence].
  - unfold parseEnvInstruction.
    destruct (String.eqb _ EmptyString); cbv zeta; cbn [fst snd];
      [repeat split; (reflexivity || congruence) |].
    split; [reflexivity |].
    destruct (append_pairs_orders instruction
                (parseKeyValuePairs (GetArgumentsAsString tokens))) as [H1 H2].
    split; [exact H1 |]. split; [exact H2 | congruence].
Qed.

(** C10, as the code has it. Two runs of [ParseInstruction] on the same
    input both fail with the same error, or both succeed with instructions
    that agree on every field but [Args]; the two [Args] hold the same
    elements, and are identical for every command other than LABEL and
    ENV. *)
Theorem ParseInstruction_two_runs (tokens : option InstructionTokens) (stage : StageRef) :
  match ParseInstruction json_Unmarshal order1 tokens stage,
        ParseInstruction json_Unmarshal order2 tokens stage with
  | Err e1, Err e2 => e1 = e2
  | Ok i1, Ok i2 =>
      set_Args i1 [] = set_Args i2 []
      ∧ ins_Args i1 ≡ₚ ins_Args i2
      ∧ (command_of tokens ≠ "LABEL" → command_of tokens ≠ "ENV" → i1 = i2)
  | _, _ => False
  end.
Proof.
  destruct tokens as [it |]; [| reflexivity].
  unfold ParseInstruction. cbn [command_of].
  pose proof (dispatch_orders (GetInstructionValue it) it (new_instruction it stage))
    as (Herr & Hrest & Hargs & Hsame).
  destruct (dispatch json_Unmarshal order1 _ it _) as [i1 [e1 |]],
           (dispatch json_Unmarshal order2 _ it _) as [i2 [e2 |]];
    cbn [fst snd] in *; try discriminate.
  - congruence.
  - split; [exact Hrest |]. split; [exact Hargs |].
    intros H1 H2. specialize (Hsame H1 H2). congruence.
Qed.

End TwoRuns.

(** Two runs need not give the same instruction: on [LABEL a=1 b=2],
    visiting the map of the two pairs in one order or in the other gives the
    arguments in one order or in the other. *)
Lemma ParseInstruction_depends_on_map_order :
  ¬ (∀ json_Unmarshal order1 order2 tokens stage,
       order_valid order1 → order_valid order2 →
       ParseInstruction json_Unmarshal order1 tokens stage
       = ParseInstruction json_Unmarshal order2 tokens stage).
Proof.
  intros H.
  specialize (H no_json map_to_list reverse_order (Some label_tokens) None
                map_to_list_valid reverse_order_valid).
  vm_compute in H. discriminate H.
Qed.

Lemma ParseInstruction_two_runs_label :
  order_valid map_to_list ∧ order_valid reverse_order
  ∧ match ParseInstruction no_json map_to_list (Some label_tokens) None,
          ParseInstruction no_json reverse_order (Some label_tokens) None with
    | Err e1, Err e2 => e1 = e2
    | Ok i1, Ok i2 =>
        set_Args i1 [] = set_Args i2 []
        ∧ ins_Args i1 ≡ₚ ins_Args i2
        ∧ (command_of (Some label_tokens) ≠ "LABEL"
           → command_of (Some label_tokens) ≠ "ENV" → i1 = i2)
    | _, _ => False
    end.
Proof.
  split; [exact map_to_list_valid |]. split; [exact reverse_order_valid |].
  exact (ParseInstruction_two_runs no_json map_to_list reverse_order
           map_to_list_valid reverse_order_valid (Some label_tokens) None).
Defined.

(** ** The lexer as a function of the token list *)

Lemma is_type_Token_EOF : is_type TOKEN_EOF Token_EOF = true.
Proof. reflexivity. Qed.

Lemma spaced_tail (r : ScanResult) (sc : list ScanResult) :
  spaced (r :: sc) = true → spaced sc = true.
Proof.
  destruct sc as [| r' sc]; [reflexivity |].
  change (spaced (r :: r' :: sc))
    with (negb (is_space_result r && is_space_result r') && spaced (r' :: sc)).
  rewrite andb_true_iff. tauto.
Qed.

Lemma spaced_head (r r' : ScanResult) (sc : list ScanResult) :
  spaced (r :: r' :: sc) = true → is_space_result r = true → is_space_result r' = false.
Proof.
  change (spaced (r :: r' :: sc))
    with (negb (is_space_result r && is_space_result r') && spaced (r' :: sc)).
  rewrite andb_true_iff. intros [H _] Hr. rewrite Hr in H.
  destruct (is_space_result r'); [discriminate | reflexivity].
Qed.

Lemma nextToken_accept_plain (l : Lexer) (sc : list ScanResult) (t : Token) :
  lx_inHeredoc l = false →
  is_type TOKEN_HEREDOC_START t = false →
  nextToken_accept l sc t
  = mkLexer sc (lx_currentToken l) t (lx_tokens l ++ [t]) (lx_errors l) false
            (lx_heredocID l) (lx_lineTokens l).
Proof. unfold nextToken_accept. intros -> ->. reflexivity. Qed.

(** One call of [nextToken] in a plain run: the peek token becomes the
    current one, and the next visible token of the scanner the peek token. *)
Lemma nextToken_plain (l : Lexer) :
  lx_inHeredoc l = false →
  plain_scanner (lx_scanner l) = true →
  lx_currentToken (nextToken l) = lx_peekToken l
  ∧ lx_inHeredoc (nextToken l) = false
  ∧ plain_scanner (lx_scanner (nextToken l)) = true
  ∧ lx_errors (nextToken l) = lx_errors l
  ∧ lx_lineTokens (nextToken l) = lx_lineTokens l
  ∧ match visible (lx_scanner l) with
    | [] => lx_peekToken (nextToken l) = Token_EOF
            ∧ lx_scanner (nextToken l) = []
            ∧ lx_tokens (nextToken l) = lx_tokens l
    | t :: ts => lx_peekToken (nextToken l) = t
                 ∧ visible (lx_scanner (nextToken l)) = ts
                 ∧ lx_tokens (nextToken l) = lx_tokens l ++ [t]
                 ∧ is_type TOKEN_EOF t = false
    end.
Proof.
  destruct l as [sc cur peek toks errs inH hid lt]. cbn [lx_inHeredoc lx_scanner].
  intros -> Hplain. unfold plain_scanner in Hplain. apply andb_true_iff in Hplain as [Hall Hsp].
  unfold nextToken, Scan. cbn [lx_scanner lx_peekToken lx_tokens lx_errors lx_inHeredoc
                               lx_heredocID lx_lineTokens negb andb].
  destruct sc as [| [t | e] sc]; [cbn; auto 10 | | cbn in Hall; discriminate].
  cbn [forallb plain_token] in Hall.
  apply andb_true_iff in Hall as [Ht Hall]. apply andb_true_iff in Ht as [HtE HtH].
  apply negb_true_iff in HtE, HtH.
  destruct (is_type TOKEN_WHITESPACE t) eqn:Hws.
  - destruct sc as [| [t' | e'] sc]; [cbn; rewrite Hws; cbn; auto 10 | | cbn in Hall; discriminate].
    cbn [forallb plain_token] in Hall.
    apply andb_true_iff in Hall as [Ht' Hall]. apply andb_true_iff in Ht' as [HtE' HtH'].
    apply negb_true_iff in HtE', HtH'.
    pose proof (spaced_head _ _ _ Hsp Hws) as Hws'. cbn [is_space_result] in Hws'.
    apply spaced_tail, spaced_tail in Hsp.
    rewrite nextToken_accept_plain by (reflexivity || assumption).
    cbn [lx_currentToken lx_peekToken lx_inHeredoc lx_scanner lx_errors lx_lineTokens
         lx_tokens visible]. rewrite Hws, Hws'.
    unfold plain_scanner. rewrite Hall, Hsp.
    repeat split; try reflexivity; try assumption.
  - apply spaced_tail in Hsp.
    rewrite nextToken_accept_plain by (reflexivity || assumption).
    cbn [lx_currentToken lx_peekToken lx_inHeredoc lx_scanner lx_errors lx_lineTokens
         lx_tokens visible]. rewrite Hws.
    unfold plain_scanner. rewrite Hall, Hsp.
    repeat split; try reflexivity; try assumption.
Qed.

(** [NextToken] in a plain run hands out the tokens of [stream] one by one,
    and EOF after them. *)
Lemma NextToken_stream (l : Lexer) :
  plain_lexer l →
  plain_lexer (snd (NextToken l))
  ∧ lx_errors (snd (NextToken l)) = lx_errors l
  ∧ lx_lineTokens (snd (NextToken l)) = lx_lineTokens l
  ∧ match stream l with
    | [] => is_type TOKEN_EOF (fst (NextToken l)) = true ∧ stream (snd (NextToken l)) = []
    | t :: ts => fst (NextToken l) = t ∧ stream (snd (NextToken l)) = ts
                 ∧ is_type TOKEN_EOF t = false
    end.
Proof.
  intros (HinH & Hplain & Hpeek & Hcur).
  destruct (nextToken_plain l HinH Hplain) as (Hc & HinH' & Hplain' & Herr & Hlt & Hnext).
  cbn [NextToken fst snd]. unfold plain_lexer, stream. rewrite Hc.
  split; [| split; [exact Herr | split; [exact Hlt |]]].
  - split; [exact HinH' |]. split; [exact Hplain' |].
    destruct (visible (lx_scanner l)) as [| t ts] eqn:Hvis.
    + destruct Hnext as (Hp & Hs & _). rewrite Hp, Hs. auto.
    + destruct Hnext as (Hp & Hs & _ & HtE). rewrite Hp.
      split; [congruence |]. intros HE. specialize (Hpeek HE). rewrite Hpeek in Hvis.
      discriminate.
  - destruct (is_type TOKEN_EOF (lx_currentToken l)) eqn:HE.
    + specialize (Hcur eq_refl). rewrite Hcur. auto.
    + split; [reflexivity |]. split; [| assumption].
      destruct (is_type TOKEN_EOF (lx_peekToken l)) eqn:HPE; [reflexivity |].
      destruct (visible (lx_scanner l)) as [| t ts] eqn:Hvis.
      * destruct Hnext as (Hp & _). rewrite Hp. reflexivity.
      * destruct Hnext as (Hp & Hs & _ & HtE). rewrite Hp, HtE, Hs. reflexivity.
Qed.

(** [NewLexer] on a plain scanner run stands at the start of its visible
    tokens. *)
Lemma NewLexer_plain (sc : list ScanResult) :
  plain_scanner sc = true →
  plain_lexer (NewLexer sc) ∧ stream (NewLexer sc) = visible sc
  ∧ lx_errors (NewLexer sc) = [].
Proof.
  intros Hplain. unfold NewLexer.
  set (l0 := mkLexer sc Token_EOF Token_EOF [] [] false EmptyString []).
  destruct (nextToken_plain l0 eq_refl Hplain) as (Hc1 & HinH1 & Hplain1 & Herr1 & _ & Hnext1).
  destruct (nextToken_plain (nextToken l0) HinH1 Hplain1)
    as (Hc2 & HinH2 & Hplain2 & Herr2 & _ & Hnext2).
  cbn [l0 lx_scanner lx_tokens] in Hnext1.
  unfold plain_lexer, stream. rewrite Hc2.
  destruct (visible sc) as [| t ts] eqn:Hvis.
  - destruct Hnext1 as (Hp1 & Hs1 & _). rewrite Hs1 in Hnext2. cbn [visible] in Hnext2.
    destruct Hnext2 as (Hp2 & Hs2 & _). rewrite Hp1, Hp2, Hs2, Herr2, Herr1. cbn. auto 10.
  - destruct Hnext1 as (Hp1 & Hs1 & _ & HtE). rewrite Hp1, HtE, Herr2, Herr1.
    destruct (visible (lx_scanner (nextToken l0))) as [| t' ts'] eqn:Hvis'.
    + destruct Hnext2 as (Hp2 & Hs2 & _). rewrite Hp2, Hs2. cbn. subst ts. auto 10.
    + destruct Hnext2 as (Hp2 & Hs2 & _ & HtE'). rewrite Hp2, HtE', Hs2. subst ts.
      repeat split; auto; discriminate.
Qed.

Lemma nextToken_log (l : Lexer) :
  lx_inHeredoc l = false →
  plain_scanner (lx_scanner l) = true →
  lx_tokens (nextToken l) ++ visible (lx_scanner (nextToken l))
  = lx_tokens l ++ visible (lx_scanner l).
Proof.
  intros HinH Hplain.
  destruct (nextToken_plain l HinH Hplain) as (_ & _ & _ & _ & _ & Hnext).
  destruct (visible (lx_scanner l)) as [| t ts].
  - destruct Hnext as (_ & -> & ->). reflexivity.
  - destruct Hnext as (_ & -> & -> & _). by rewrite <- app_assoc.
Qed.

Lemma TokenizeAll_loop_plain (fuel : nat) (l : Lexer) :
  plain_lexer l →
  (remaining l < fuel)%nat →
  ∃ l', TokenizeAll_loop fuel l = Some l'
        ∧ lx_tokens l' = lx_tokens l ++ visible (lx_scanner l)
        ∧ lx_errors l' = lx_errors l.
Proof.
  revert l. induction fuel as [| fuel IH]; intros l Hl Hfuel; [lia |].
  cbn [TokenizeAll_loop].
  destruct (is_type TOKEN_EOF (lx_currentToken l)) eqn:HE.
  - destruct Hl as (_ & _ & Hpeek & Hcur). rewrite (Hpeek (Hcur HE)). cbn [visible].
    rewrite app_nil_r. eauto.
  - pose proof (nextToken_remaining l) as Hrem. rewrite (live_not_EOF _ HE) in Hrem.
    destruct (NextToken_stream l Hl) as (Hl' & Herr & _).
    destruct Hl as (HinH & Hplain & _).
    cbn [NextToken snd] in *.
    destruct (IH (nextToken l) Hl') as (l' & -> & Htok & Herr'); [lia |].
    eexists. split; [reflexivity |]. rewrite Htok, Herr', nextToken_log by assumption. auto.
Qed.

(** X1. On a scanner run without errors, [TokenizeAll] returns the tokens of
    the scanner in order, white space left out, and no error. *)
Theorem TokenizeAll_returns_visible_tokens (sc : list ScanResult) :
  plain_scanner sc = true →
  ∃ l', TokenizeAll (NewLexer sc) = Some (visible sc, [], l').
Proof.
  intros Hplain. unfold TokenizeAll.
  destruct (NewLexer_plain sc Hplain) as (Hl & _ & Herr).
  destruct (TokenizeAll_loop_plain (S (remaining (NewLexer sc))) (NewLexer sc) Hl)
    as (l' & -> & Htok & Herr'); [lia |].
  cbn [mbind option_bind]. eexists. rewrite Htok, Herr', Herr. f_equal. f_equal. f_equal.
  unfold NewLexer.
  set (l0 := mkLexer sc Token_EOF Token_EOF [] [] false EmptyString []).
  destruct (nextToken_plain l0 eq_refl Hplain) as (_ & HinH1 & Hplain1 & _).
  rewrite (nextToken_log (nextToken l0) HinH1 Hplain1), (nextToken_log l0 eq_refl Hplain).
  reflexivity.
Qed.

(** *** Logical lines *)

Lemma set_lineTokens_plain (l : Lexer) (ts : list Token) :
  plain_lexer l → plain_lexer (set_lineTokens l ts).
Proof. intros H. exact H. Qed.

(** The loop of [TokenizeLine] cuts the stream as [logical_line] does. *)
Lemma TokenizeLine_loop_line (fuel : nat) (l : Lexer) (cm : bool) :
  plain_lexer l →
  (remaining l < fuel)%nat →
  ∃ l', TokenizeLine_loop fuel l cm = Some l'
        ∧ plain_lexer l'
        ∧ lx_lineTokens l' = lx_lineTokens l ++ fst (logical_line (stream l) cm)
        ∧ stream l' = snd (logical_line (stream l) cm)
        ∧ lx_errors l' = lx_errors l.
Proof.
  revert l cm. induction fuel as [| fuel IH]; intros l cm Hl Hfuel; [lia |].
  cbn [TokenizeLine_loop].
  destruct (NextToken_stream l Hl) as (Hl' & Herr & Hlt & Hnext).
  pose proof (nextToken_remaining l) as Hrem.
  destruct (NextToken l) as [tok l1] eqn:HN. cbn [fst snd] in *.
  assert (l1 = nextToken l) as Hl1 by (unfold NextToken in HN; congruence).
  assert (tok = lx_currentToken l) as Htok by (unfold NextToken in HN; congruence).
  destruct (stream l) as [| t ts] eqn:Hstream.
  - destruct Hnext as [HE Hs]. rewrite HE. cbn [logical_line fst snd].
    eexists. split; [reflexivity |]. rewrite app_nil_r. auto.
  - destruct Hnext as (-> & Hs & HE). rewrite HE.
    rewrite <- Htok, (live_not_EOF _ HE) in Hrem. subst l1.
    set (l2 := set_lineTokens (nextToken l) (lx_lineTokens (nextToken l) ++ [t])).
    assert (∀ cm', ∃ l', TokenizeLine_loop fuel l2 cm' = Some l'
              ∧ plain_lexer l'
              ∧ lx_lineTokens l' = lx_lineTokens l ++ t :: fst (logical_line ts cm')
              ∧ stream l' = snd (logical_line ts cm')
              ∧ lx_errors l' = lx_errors l) as Hrec.
    { intros cm'. destruct (IH l2 cm') as (l' & -> & Hpl & Hline & Hst & Herr');
        [exact Hl' | change (remaining l2) with (remaining (nextToken l)); lia |].
      eexists. split; [reflexivity |]. split; [exact Hpl |].
      change (stream l2) with (stream (nextToken l)) in *. rewrite Hs in *.
      split; [| split; [exact Hst |]].
      - rewrite Hline. cbn [l2 set_lineTokens lx_lineTokens]. rewrite Hlt, <- app_assoc.
        reflexivity.
      - rewrite Herr'. exact Herr. }
    cbn [logical_line].
    destruct (is_type TOKEN_CONTINUATION t).
    { destruct (Hrec true) as (l' & -> & ? & ? & ? & ?).
      destruct (logical_line ts true). eauto 10. }
    destruct (is_type TOKEN_NEWLINE t).
    + destruct (negb cm).
      * eexists. split; [reflexivity |]. cbn [fst snd l2 set_lineTokens lx_lineTokens].
        rewrite Hlt. change (stream l2) with (stream (nextToken l)). auto.
      * destruct (Hrec false) as (l' & -> & ? & ? & ? & ?).
        destruct (logical_line ts false). eauto 10.
    + destruct (Hrec cm) as (l' & -> & ? & ? & ? & ?).
      destruct (logical_line ts cm). eauto 10.
Qed.

(** [TokenizeLine] returns the first logical line of the stream and leaves
    the lexer at the start of the rest. *)
Lemma TokenizeLine_line (l : Lexer) :
  plain_lexer l →
  ∃ l', TokenizeLine l = Some (fst (logical_line (stream l) false), l')
        ∧ plain_lexer l'
        ∧ stream l' = snd (logical_line (stream l) false)
        ∧ lx_errors l' = lx_errors l.
Proof.
  intros Hl. unfold TokenizeLine.
  destruct (TokenizeLine_loop_line (S (remaining l)) (set_lineTokens l []) false Hl)
    as (l' & -> & Hpl & Hline & Hst & Herr); [cbn; lia |].
  cbn [mbind option_bind]. rewrite Hline. eauto.
Qed.

Lemma logical_line_inner (body : list Token) (n : Token) (rest : list Token) (cm : bool) :
  forallb inner_token body = true →
  is_type TOKEN_NEWLINE n = true →
  is_type TOKEN_CONTINUATION n = false →
  logical_line (body ++ n :: rest) cm
  = if cm then let '(line, after) := logical_line rest false in (body ++ n :: line, after)
    else (body ++ [n], rest).
Proof.
  intros Hbody Hn Hc. induction body as [| t body IH].
  - cbn [app logical_line]. rewrite Hc, Hn. destruct cm; reflexivity.
  - cbn [forallb] in Hbody. apply andb_true_iff in Hbody as [Ht Hbody].
    unfold inner_token in Ht. rewrite !andb_true_iff, !negb_true_iff in Ht.
    destruct Ht as [[HtN HtC] _].
    cbn [app logical_line]. rewrite HtC, HtN, (IH Hbody).
    destruct cm; [destruct (logical_line rest false) |]; reflexivity.
Qed.

Lemma newline_not_continuation (t : Token) :
  is_type TOKEN_NEWLINE t = true → is_type TOKEN_CONTINUATION t = false.
Proof.
  unfold is_type, TokenType_eqb. intros H. apply Z.eqb_eq in H. rewrite H. reflexivity.
Qed.

Lemma continuation_not_newline (t : Token) :
  is_type TOKEN_CONTINUATION t = true → is_type TOKEN_NEWLINE t = false.
Proof.
  unfold is_type, TokenType_eqb. intros H. apply Z.eqb_eq in H. rewrite H. reflexivity.
Qed.

(** A physical line that ends with a continuation and a newline is joined
    with the next one. *)
Lemma logical_line_continued (body1 body2 : list Token) (c n1 n2 : Token) (rest : list Token) :
  forallb inner_token body1 = true →
  forallb inner_token body2 = true →
  is_type TOKEN_CONTINUATION c = true →
  is_type TOKEN_NEWLINE n1 = true →
  is_type TOKEN_NEWLINE n2 = true →
  logical_line (body1 ++ c :: n1 :: body2 ++ n2 :: rest) false
  = (body1 ++ c :: n1 :: body2 ++ [n2], rest).
Proof.
  intros Hb1 Hb2 Hc Hn1 Hn2.
  assert (∀ cm, logical_line (body1 ++ c :: n1 :: body2 ++ n2 :: rest) cm
                = (body1 ++ c :: n1 :: body2 ++ [n2], rest)) as H; [| apply H].
  induction body1 as [| t body1 IH]; intros cm.
  - cbn [app logical_line]. rewrite Hc, (newline_not_continuation _ Hn1), Hn1.
    cbn [negb]. rewrite (logical_line_inner body2 n2 rest false Hb2 Hn2
                           (newline_not_continuation _ Hn2)). reflexivity.
  - cbn [forallb] in Hb1. apply andb_true_iff in Hb1 as [Ht Hb1].
    unfold inner_token in Ht. rewrite !andb_true_iff, !negb_true_iff in Ht.
    destruct Ht as [[HtN HtC] _].
    cbn [app logical_line]. rewrite HtC, HtN, (IH Hb1). reflexivity.
Qed.

Lemma IsInstruction_type (t : Token) :
  IsInstruction t = true →
  is_type TOKEN_COMMENT t = false ∧ is_type TOKEN_NEWLINE t = false
  ∧ is_type TOKEN_CONTINUATION t = false ∧ is_type TOKEN_EOF t = false.
Proof.
  unfold IsInstruction, is_type, TokenType_eqb.
  rewrite andb_true_iff, !Z.leb_le. cbn. intros [H1 H2].
  repeat split; apply Z.eqb_neq; lia.
Qed.

Lemma inner_filters (body1 body2 : list Token) (c n1 n2 : Token) :
  is_type TOKEN_CONTINUATION c = true →
  is_type TOKEN_NEWLINE n1 = true →
  is_type TOKEN_NEWLINE n2 = true →
  line_arguments (body1 ++ c :: n1 :: body2 ++ [n2])
  = line_arguments (body1 ++ body2).
Proof.
  intros Hc Hn1 Hn2. unfold line_arguments.
  rewrite !List.filter_app. cbn [List.filter]. rewrite List.filter_app. cbn [List.filter].
  rewrite Hc, Hn1, Hn2. cbn [negb andb]. rewrite !andb_false_r, app_nil_r. reflexivity.
Qed.

Lemma not_comment (t : Token) :
  is_type TOKEN_NEWLINE t = true ∨ is_type TOKEN_CONTINUATION t = true →
  is_type TOKEN_COMMENT t = false.
Proof.
  unfold is_type, TokenType_eqb. intros [H | H]; apply Z.eqb_eq in H; rewrite H; reflexivity.
Qed.

Lemma line_arguments_inner (body : list Token) :
  forallb inner_token body = true →
  line_arguments body = List.filter (fun t => negb (is_type TOKEN_COMMENT t)) body.
Proof.
  unfold line_arguments. induction body as [| t body IH]; intros Hall; [reflexivity |].
  cbn [forallb] in Hall. apply andb_true_iff in Hall as [Ht Hall].
  unfold inner_token in Ht. apply andb_true_iff in Ht as [Ht _].
  apply andb_true_iff in Ht as [Hn Hc].
  cbn [List.filter]. rewrite Hn, Hc, !andb_true_r, IH by exact Hall. reflexivity.
Qed.

Lemma line_comments_joined (body1 body2 : list Token) (c n1 n2 : Token) :
  is_type TOKEN_CONTINUATION c = true →
  is_type TOKEN_NEWLINE n1 = true →
  is_type TOKEN_NEWLINE n2 = true →
  line_comments (body1 ++ c :: n1 :: body2 ++ [n2])
  = List.filter (is_type TOKEN_COMMENT) (body1 ++ body2).
Proof.
  intros Hc Hn1 Hn2. unfold line_comments.
  rewrite !List.filter_app. cbn [List.filter]. rewrite List.filter_app. cbn [List.filter].
  rewrite (not_comment c), (not_comment n1), (not_comment n2) by auto.
  by rewrite app_nil_r.
Qed.

(** X2. A scanner run [keyword body1 \ newline body2 newline ...] gives one
    logical line: [ProcessInstructionLine] returns one instruction whose raw
    tokens are those of both physical lines, whose arguments are the tokens
    of both bodies other than comments, in order, whose comments are the
    comment tokens of both bodies, and the lexer is left at the start of
    the line after. *)
Theorem continuation_joins_two_lines (sc : list ScanResult) (keyword : Token)
    (body1 body2 : list Token) (c n1 n2 : Token) (rest : list Token) :
  plain_scanner sc = true →
  visible sc = keyword :: body1 ++ c :: n1 :: body2 ++ n2 :: rest →
  IsInstruction keyword = true →
  forallb inner_token body1 = true →
  forallb inner_token body2 = true →
  is_type TOKEN_CONTINUATION c = true →
  is_type TOKEN_NEWLINE n1 = true →
  is_type TOKEN_NEWLINE n2 = true →
  ∃ it l',
    ProcessInstructionLine (NewLexer sc) = Some (Ok (Some it), l')
    ∧ it_Instruction it = keyword
    ∧ it_Raw it = keyword :: body1 ++ c :: n1 :: body2 ++ [n2]
    ∧ it_Arguments it
      = List.filter (fun t => negb (is_type TOKEN_COMMENT t)) (body1 ++ body2)
    ∧ it_Comments it = List.filter (is_type TOKEN_COMMENT) (body1 ++ body2)
    ∧ stream l' = rest
    ∧ lx_errors l' = [].
Proof.
  intros Hplain Hvis Hkey Hb1 Hb2 Hc Hn1 Hn2.
  destruct (NewLexer_plain sc Hplain) as (Hl & Hstream & Herr).
  destruct (TokenizeLine_line (NewLexer sc) Hl) as (l' & HT & _ & Hst & Herr').
  destruct (IsInstruction_type keyword Hkey) as (HkC & HkN & HkCo & _).
  assert (logical_line (stream (NewLexer sc)) false
          = (keyword :: body1 ++ c :: n1 :: body2 ++ [n2], rest)) as Hline.
  { rewrite Hstream, Hvis. cbn [logical_line]. rewrite HkCo, HkN.
    rewrite (logical_line_continued body1 body2 c n1 n2 rest) by assumption. reflexivity. }
  rewrite Hline in HT, Hst. cbn [fst snd] in HT, Hst.
  unfold ProcessInstructionLine. rewrite HT. cbn [mbind option_bind].
  unfold instruction_of_line. rewrite HkC, Hkey. cbn [negb].
  eexists _, _. split; [reflexivity |].
  cbn [it_Instruction it_Raw it_Arguments it_Comments].
  split; [reflexivity |]. split; [reflexivity |].
  split.
  { rewrite inner_filters by assumption. apply line_arguments_inner.
    rewrite forallb_app, Hb1, Hb2. reflexivity. }
  split; [by apply line_comments_joined |]. split; [exact Hst | congruence].
Qed.

(** *** A file of well-formed lines *)

Lemma comment_type (t : Token) :
  is_type TOKEN_COMMENT t = true →
  is_type TOKEN_NEWLINE t = false ∧ is_type TOKEN_CONTINUATION t = false.
Proof.
  unfold is_type, TokenType_eqb. intros H. apply Z.eqb_eq in H. rewrite H. split; reflexivity.
Qed.

Lemma source_line_cut (line rest : list Token) :
  source_line line →
  logical_line (line ++ rest) false = (line, rest)
  ∧ instruction_of_line line = Ok (instruction_of line)
  ∧ line ≠ [].
Proof.
  intros [(k & body & n & -> & Hk & Hbody & Hn) | (k & body & n & -> & Hk & Hbody & Hn)].
  - destruct (IsInstruction_type k Hk) as (HkC & HkN & HkCo & _).
    split; [| split; [| discriminate]].
    + cbn [app logical_line]. rewrite HkCo, HkN, <- app_assoc. cbn [app].
      rewrite (logical_line_inner body n rest false Hbody Hn (newline_not_continuation _ Hn)).
      reflexivity.
    + unfold instruction_of, instruction_of_line. cbn [app]. rewrite HkC, Hk. reflexivity.
  - destruct (comment_type k Hk) as (HkN & HkCo).
    split; [| split; [| discriminate]].
    + cbn [app logical_line]. rewrite HkCo, HkN, <- app_assoc. cbn [app].
      rewrite (logical_line_inner body n rest false Hbody Hn (newline_not_continuation _ Hn)).
      reflexivity.
    + unfold instruction_of, instruction_of_line. cbn [app]. rewrite Hk. reflexivity.
Qed.

Lemma stream_nil_EOF (l : Lexer) : stream l = [] → is_type TOKEN_EOF (lx_currentToken l) = true.
Proof. unfold stream. destruct (is_type TOKEN_EOF (lx_currentToken l)); [auto | discriminate]. Qed.

Lemma stream_cons_not_EOF (l : Lexer) (t : Token) (ts : list Token) :
  stream l = t :: ts → is_type TOKEN_EOF (lx_currentToken l) = false.
Proof. unfold stream. destruct (is_type TOKEN_EOF (lx_currentToken l)); [discriminate | auto]. Qed.

Lemma ProcessAllInstructions_loop_lines (lines : list (list Token)) :
  ∀ (fuel : nat) (l : Lexer) (acc : list InstructionTokens),
    plain_lexer l →
    stream l = concat lines →
    Forall source_line lines →
    (remaining l < fuel)%nat →
    ∃ l', ProcessAllInstructions_loop fuel l acc = Some (acc ++ omap instruction_of lines, l')
          ∧ lx_errors l' = lx_errors l.
Proof.
  induction lines as [| line lines IH]; intros fuel l acc Hl Hstream Hlines Hfuel;
    (destruct fuel as [| fuel]; [lia |]); cbn [ProcessAllInstructions_loop].
  - rewrite (stream_nil_EOF l Hstream). cbn [omap list_omap]. rewrite app_nil_r. eauto.
  - apply Forall_cons in Hlines as [Hline Hlines].
    destruct (source_line_cut line (concat lines) Hline) as (Hcut & Hinst & Hne).
    cbn [concat] in Hstream.
    destruct line as [| t line]; [done |].
    rewrite (stream_cons_not_EOF l _ _ Hstream).
    destruct (ProcessInstructionLine_total l) as (r & l1 & HP & Hrem).
    rewrite (live_not_EOF _ (stream_cons_not_EOF l _ _ Hstream)) in Hrem.
    destruct (TokenizeLine_line l Hl) as (l' & HT & Hl' & Hst & Herr).
    rewrite Hstream, Hcut in HT, Hst. cbn [fst snd] in HT, Hst.
    unfold ProcessInstructionLine in HP. rewrite HT in HP. cbn [mbind option_bind] in HP.
    injection HP as <- <-.
    unfold ProcessInstructionLine. rewrite HT. cbn [mbind option_bind]. rewrite Hinst.
    cbn [omap list_omap]. destruct (instruction_of (t :: line)) as [it |].
    + destruct (IH fuel l' (acc ++ [it]) Hl' Hst Hlines) as (l2 & -> & Herr2); [lia |].
      eexists. rewrite <- app_assoc. split; [reflexivity | congruence].
    + destruct (IH fuel l' acc Hl' Hst Hlines) as (l2 & -> & Herr2); [lia |].
      eexists. split; [reflexivity | congruence].
Qed.

Lemma instruction_of_instruction_line (line : list Token) :
  instruction_line line → ∃ it, instruction_of line = Some it ∧ it_Raw it = line.
Proof.
  intros (k & body & n & -> & Hk & Hbody & Hn).
  destruct (IsInstruction_type k Hk) as (HkC & _).
  unfold instruction_of, instruction_of_line. rewrite HkC, Hk. cbn. eauto.
Qed.

Lemma instruction_of_comment_line (line : list Token) :
  comment_line line → instruction_of line = None.
Proof.
  intros (k & body & n & -> & Hk & Hbody & Hn).
  unfold instruction_of, instruction_of_line. rewrite Hk. reflexivity.
Qed.

(** X3. On a file of well-formed lines (each an instruction line or a
    comment line, ended by its newline), [ProcessAllInstructions] reports no
    error and returns one [InstructionTokens] for each instruction line, in
    source order, with the tokens of the line as its raw tokens; comment
    lines give nothing. *)
Theorem ProcessAllInstructions_well_formed_file (sc : list ScanResult)
    (lines : list (list Token)) :
  plain_scanner sc = true →
  visible sc = concat lines →
  Forall source_line lines →
  ∃ instructions l',
    ProcessAllInstructions (NewLexer sc) = Some (instructions, [], l')
    ∧ instructions = omap instruction_of lines
    ∧ List.map it_Raw instructions
      = List.filter (fun line => match line with
                                 | t :: _ => IsInstruction t
                                 | [] => false
                                 end) lines.
Proof.
  intros Hplain Hvis Hlines.
  destruct (NewLexer_plain sc Hplain) as (Hl & Hstream & Herr).
  unfold ProcessAllInstructions.
  destruct (ProcessAllInstructions_loop_lines lines (S (remaining (NewLexer sc)))
              (NewLexer sc) [] Hl) as (l' & -> & Herr'); [congruence | assumption | lia |].
  cbn [mbind option_bind app]. eexists _, _. rewrite Herr', Herr.
  split; [reflexivity |]. split; [reflexivity |].
  clear -Hlines. induction Hlines as [| line lines Hline _ IH]; [reflexivity |].
  cbn [omap list_omap List.filter].
  destruct Hline as [Hi | Hc].
  - destruct (instruction_of_instruction_line line Hi) as (it & -> & Hraw).
    destruct Hi as (k & body & n & -> & Hk & _). cbn [app]. rewrite Hk.
    cbn [List.map]. rewrite IH. cbn [app] in Hraw. rewrite Hraw. reflexivity.
  - rewrite (instruction_of_comment_line line Hc).
    destruct Hc as (k & body & n & -> & Hk & _). cbn [app].
    assert (IsInstruction k = false) as ->; [| exact IH].
    destruct (IsInstruction k) eqn:HI; [| reflexivity].
    destruct (IsInstruction_type k HI) as (HkC & _). congruence.
Qed.

(** *** What the lexer returns on any input *)

Lemma nextToken_accept_errors (l : Lexer) (sc : list ScanResult) (t : Token) :
  lx_errors (nextToken_accept l sc t) = lx_errors l.
Proof.
  unfold nextToken_accept.
  destruct (is_type TOKEN_HEREDOC_START t); [reflexivity |].
  destruct (lx_inHeredoc l && is_type TOKEN_HEREDOC_END t
            && String.eqb (tok_Value t) (lx_heredocID l)); reflexivity.
Qed.

Lemma nextToken_fail_errors (l : Lexer) (sc : list ScanResult) (e : error) :
  lx_errors l `prefix_of` lx_errors (nextToken_fail l sc e).
Proof.
  unfold nextToken_fail. cbn [lx_errors].
  destruct (is_io_EOF e); [reflexivity | apply prefix_app_r; reflexivity].
Qed.

Lemma nextToken_errors (l : Lexer) : lx_errors l `prefix_of` lx_errors (nextToken l).
Proof.
  unfold nextToken, Scan.
  set (l1 := mkLexer _ _ _ _ _ _ _ _).
  change (lx_errors l) with (lx_errors l1).
  destruct (lx_scanner l1) as [| [t | e] sc].
  - apply nextToken_fail_errors.
  - destruct (negb (lx_inHeredoc l1) && is_type TOKEN_WHITESPACE t).
    + destruct sc as [| [t' | e'] sc].
      * apply nextToken_fail_errors.
      * rewrite nextToken_accept_errors. reflexivity.
      * apply nextToken_fail_errors.
    + rewrite nextToken_accept_errors. reflexivity.
  - apply nextToken_fail_errors.
Qed.

Lemma TokenizeLine_loop_errors (fuel : nat) (l l' : Lexer) (cm : bool) :
  TokenizeLine_loop fuel l cm = Some l' → lx_errors l `prefix_of` lx_errors l'.
Proof.
  revert l cm. induction fuel as [| fuel IH]; intros l cm; [discriminate |].
  cbn [TokenizeLine_loop NextToken].
  pose proof (nextToken_errors l) as Hstep.
  destruct (is_type TOKEN_EOF (lx_currentToken l)); [intros [= <-]; exact Hstep |].
  set (l1 := set_lineTokens (nextToken l) _).
  assert (∀ cm', TokenizeLine_loop fuel l1 cm' = Some l' → lx_errors l `prefix_of` lx_errors l')
    as Hrec.
  { intros cm' H. apply IH in H. etrans; [exact Hstep | exact H]. }
  destruct (is_type TOKEN_CONTINUATION (lx_currentToken l)); [apply Hrec |].
  destruct (is_type TOKEN_NEWLINE (lx_currentToken l)); [| apply Hrec].
  destruct (negb cm); [| apply Hrec]. intros [= <-]. exact Hstep.
Qed.

Lemma skip_line_errors (fuel : nat) (l l' : Lexer) :
  skip_line fuel l = Some l' → lx_errors l `prefix_of` lx_errors l'.
Proof.
  revert l. induction fuel as [| fuel IH]; intros l; [discriminate |].
  cbn [skip_line NextToken snd].
  destruct (negb (is_type TOKEN_EOF (lx_currentToken l))
            && negb (is_type TOKEN_NEWLINE (lx_currentToken l))).
  - intros H. apply IH in H. etrans; [apply nextToken_errors | exact H].
  - intros [= <-]. reflexivity.
Qed.

Lemma instruction_of_line_grouped (tokens : list Token) (it : InstructionTokens) :
  instruction_of_line tokens = Ok (Some it) → grouped it.
Proof.
  destruct tokens as [| first rest]; cbn [instruction_of_line]; [discriminate |].
  destruct (is_type TOKEN_COMMENT first); [discriminate |].
  destruct (IsInstruction first) eqn:HI; cbn [negb]; [| discriminate].
  intros [= <-]. unfold grouped. cbn [it_Instruction it_JSONForm it_Raw it_Arguments it_Comments].
  split; [exact HI |]. split; [reflexivity |]. split; [reflexivity |]. split.
  - unfold line_arguments. apply List.Forall_forall. intros t Ht.
    apply List.filter_In in Ht as [_ Ht]. rewrite !andb_true_iff, !negb_true_iff in Ht. tauto.
  - unfold line_comments. apply List.Forall_forall. intros t Ht.
    apply List.filter_In in Ht as [_ Ht]. exact Ht.
Qed.

Lemma ProcessAllInstructions_loop_output (fuel : nat) (l l' : Lexer)
    (acc instructions : list InstructionTokens) :
  ProcessAllInstructions_loop fuel l acc = Some (instructions, l') →
  Forall grouped acc →
  Forall grouped instructions ∧ lx_errors l `prefix_of` lx_errors l'.
Proof.
  revert l acc. induction fuel as [| fuel IH]; intros l acc; [discriminate |].
  cbn [ProcessAllInstructions_loop].
  destruct (is_type TOKEN_EOF (lx_currentToken l)); [intros [= <- <-]; auto |].
  unfold ProcessInstructionLine, TokenizeLine.
  destruct (TokenizeLine_loop (S (remaining l)) (set_lineTokens l []) false) as [l1 |] eqn:HT;
    cbn [mbind option_bind]; [| discriminate].
  apply TokenizeLine_loop_errors in HT. cbn [set_lineTokens lx_errors] in HT.
  destruct (instruction_of_line (lx_lineTokens l1)) as [[it |] | e] eqn:Hline.
  - intros H Hacc. apply IH in H as [H1 H2].
    + split; [exact H1 | etrans; eassumption].
    + apply Forall_app. split; [exact Hacc |]. constructor; [| constructor].
      exact (instruction_of_line_grouped _ _ Hline).
  - intros H Hacc. apply IH in H as [H1 H2]; [| exact Hacc].
    split; [exact H1 | etrans; eassumption].
  - destruct (skip_line (S (remaining (add_error l1 e))) (add_error l1 e)) as [l2 |] eqn:HS;
      cbn [mbind option_bind]; [| discriminate].
    apply skip_line_errors in HS. cbn [add_error lx_errors] in HS.
    intros H Hacc. apply IH in H as [H1 H2]; [| exact Hacc].
    split; [exact H1 |]. etrans; [exact HT |]. etrans; [| exact H2].
    etrans; [| exact HS]. apply prefix_app_r. reflexivity.
Qed.

(** X4. For every scanner run and every lexer state, [ProcessAllInstructions]
    returns, leaves the lexer on EOF, keeps the errors recorded before as
    the beginning of the errors it returns, and every [InstructionTokens] it
    returns starts with an instruction keyword, has [JSONForm] false, no
    newline, continuation or comment among its arguments, and comments only
    among its comments. *)
Theorem ProcessAllInstructions_output (l : Lexer) :
  ∃ instructions errors l',
    ProcessAllInstructions l = Some (instructions, errors, l')
    ∧ is_type TOKEN_EOF (lx_currentToken l') = true
    ∧ lx_errors l `prefix_of` errors
    ∧ Forall grouped instructions.
Proof.
  destruct (ProcessAllInstructions_total l) as (instructions & l' & HP & HE).
  eexists _, _, _. split; [exact HP |]. split; [exact HE |].
  unfold ProcessAllInstructions in HP.
  destruct (ProcessAllInstructions_loop (S (remaining l)) l []) as [[insts l1] |] eqn:HL;
    cbn [mbind option_bind] in HP; [| discriminate].
  injection HP as <- _ <-.
  destruct (ProcessAllInstructions_loop_output _ _ _ _ _ HL) as [H1 H2]; [constructor |].
  auto.
Qed.

(** *** Blank lines *)

Lemma newline_type (t : Token) :
  is_type TOKEN_NEWLINE t = true →
  is_type TOKEN_COMMENT t = false ∧ IsInstruction t = false.
Proof.
  unfold is_type, IsInstruction, TokenType_eqb. intros H. apply Z.eqb_eq in H. rewrite H.
  split; reflexivity.
Qed.

Lemma ProcessAllInstructions_loop_prefix (lines : list (list Token)) (tail : list Token) :
  ∀ (fuel : nat) (l : Lexer) (acc : list InstructionTokens),
    plain_lexer l →
    stream l = concat lines ++ tail →
    Forall source_line lines →
    (remaining l < fuel)%nat →
    ∃ fuel1 l1,
      ProcessAllInstructions_loop fuel l acc
      = ProcessAllInstructions_loop fuel1 l1 (acc ++ omap instruction_of lines)
      ∧ plain_lexer l1 ∧ stream l1 = tail ∧ lx_errors l1 = lx_errors l
      ∧ (remaining l1 < fuel1)%nat.
Proof.
  induction lines as [| line lines IH]; intros fuel l acc Hl Hstream Hlines Hfuel.
  - exists fuel, l. cbn [omap list_omap]. rewrite app_nil_r. auto.
  - destruct fuel as [| fuel]; [lia |]. cbn [ProcessAllInstructions_loop].
    apply Forall_cons in Hlines as [Hline Hlines].
    destruct (source_line_cut line (concat lines ++ tail) Hline) as (Hcut & Hinst & Hne).
    cbn [concat] in Hstream. rewrite <- app_assoc in Hstream.
    destruct line as [| t line]; [done |].
    rewrite (stream_cons_not_EOF l _ _ Hstream).
    destruct (ProcessInstructionLine_total l) as (r & l1 & HP & Hrem).
    rewrite (live_not_EOF _ (stream_cons_not_EOF l _ _ Hstream)) in Hrem.
    destruct (TokenizeLine_line l Hl) as (l' & HT & Hl' & Hst & Herr).
    rewrite Hstream, Hcut in HT, Hst. cbn [fst snd] in HT, Hst.
    unfold ProcessInstructionLine in HP. rewrite HT in HP. cbn [mbind option_bind] in HP.
    injection HP as <- <-.
    unfold ProcessInstructionLine. rewrite HT. cbn [mbind option_bind]. rewrite Hinst.
    cbn [omap list_omap]. destruct (instruction_of (t :: line)) as [it |].
    + destruct (IH fuel l' (acc ++ [it]) Hl' Hst Hlines)
        as (fuel1 & l2 & -> & Hl2 & Hst2 & Herr2 & Hrem2); [lia |].
      exists fuel1, l2. rewrite <- app_assoc. split; [reflexivity |].
      split; [exact Hl2 | split; [exact Hst2 | split; [congruence | exact Hrem2]]].
    + destruct (IH fuel l' acc Hl' Hst Hlines)
        as (fuel1 & l2 & -> & Hl2 & Hst2 & Herr2 & Hrem2); [lia |].
      exists fuel1, l2. split; [reflexivity |].
      split; [exact Hl2 | split; [exact Hst2 | split; [congruence | exact Hrem2]]].
Qed.

(** X5. A blank line is an error for the lexer: on a file that starts with
    well-formed lines followed by a line that holds a newline only,
    [DetectStages] fails, and the error it returns is the one of that
    newline, "Line must start with an instruction". *)
Theorem DetectStages_rejects_blank_line (sc : list ScanResult) (lines : list (list Token))
    (n : Token) (rest : list Token) :
  plain_scanner sc = true →
  visible sc = concat lines ++ n :: rest →
  Forall source_line lines →
  is_type TOKEN_NEWLINE n = true →
  ∃ l', DetectStages (NewLexer sc) = Some (Err (line_error n), l').
Proof.
  intros Hplain Hvis Hlines Hn.
  destruct (NewLexer_plain sc Hplain) as (Hl & Hstream & Herr).
  destruct (ProcessAllInstructions_loop_prefix lines (n :: rest) (S (remaining (NewLexer sc)))
              (NewLexer sc) [] Hl) as (fuel1 & l1 & Hloop & Hl1 & Hst1 & Herr1 & Hrem1);
    [congruence | assumption | lia |].
  unfold DetectStages, ProcessAllInstructions. rewrite Hloop. clear Hloop.
  destruct fuel1 as [| fuel1]; [lia |].
  cbn [ProcessAllInstructions_loop].
  rewrite (stream_cons_not_EOF l1 _ _ Hst1).
  destruct (ProcessInstructionLine_total l1) as (r & l2 & HP & Hrem2).
  rewrite (live_not_EOF _ (stream_cons_not_EOF l1 _ _ Hst1)) in Hrem2.
  destruct (TokenizeLine_line l1 Hl1) as (l2' & HT & Hl2 & Hst2 & Herr2).
  rewrite Hst1 in HT. cbn [logical_line] in HT.
  rewrite (newline_not_continuation _ Hn), Hn in HT. cbn [negb fst] in HT.
  unfold ProcessInstructionLine in HP. rewrite HT in HP. cbn [mbind option_bind] in HP.
  injection HP as <- <-.
  unfold ProcessInstructionLine. rewrite HT. cbn [mbind option_bind].
  destruct (newline_type n Hn) as (HnC & HnI).
  unfold instruction_of_line. rewrite HnC, HnI. cbn [negb].
  destruct (skip_line_total (S (remaining (add_error l2' (line_error n))))
              (add_error l2' (line_error n))) as (l3 & HS & Hrem3); [lia |].
  rewrite HS. cbn [mbind option_bind].
  destruct (ProcessAllInstructions_loop_total fuel1 l3 ([] ++ omap instruction_of lines))
    as (insts & l4 & HL & _); [rewrite add_error_remaining in Hrem3; lia |].
  rewrite HL.
  destruct (ProcessAllInstructions_loop_output _ _ _ _ _ HL) as [_ Hpre].
  { clear. induction lines as [| line lines IH]; cbn [omap list_omap app]; [constructor |].
    destruct (instruction_of line) as [it |] eqn:E; [| exact IH].
    constructor; [| exact IH]. unfold instruction_of in E.
    destruct (instruction_of_line line) as [[it' |] | ] eqn:E'; try discriminate.
    injection E as <-. exact (instruction_of_line_grouped _ _ E'). }
  apply skip_line_errors in HS. cbn [add_error lx_errors] in HS.
  rewrite Herr2, Herr1, Herr in HS. cbn [app] in HS.
  assert ([line_error n] `prefix_of` lx_errors l4) as [tl Htl] by (etrans; eassumption).
  cbn [mbind option_bind]. rewrite Htl. cbn [app]. eauto.
Qed.

(** ** Stages in full *)

Lemma stages_from_snoc (p : list InstructionTokens) (g : InstructionTokens) :
  ∀ (k : nat) (X : Z),
    p ≠ [] →
    stages_from (p ++ [g]) k X
    = stages_from p k (int_sub (tok_Line (it_Instruction g)) 1)
      ++ [mkStageInfo (Z.of_nat (k + length p)) (stage_name_of (it_Arguments g))
            (base_image_of (it_Arguments g)) (tok_Line (it_Instruction g)) X].
Proof.
  induction p as [| f p IH]; intros k X Hne; [done |].
  destruct p as [| f' p].
  - cbn [app stages_from length]. replace (k + 1)%nat with (S k) by lia. reflexivity.
  - change ((f :: f' :: p) ++ [g]) with (f :: (f' :: p) ++ [g]).
    cbn [stages_from]. rewrite IH by discriminate.
    cbn [app length]. replace (S k + S (length p))%nat with (k + S (S (length p)))%nat by lia.
    reflexivity.
Qed.

Lemma DetectStages_step_scan_state (st : StageScan) (p : list InstructionTokens)
    (g : InstructionTokens) :
  scan_state st p →
  is_FROM g = true →
  0 < tok_Line (it_Instruction g) →
  Z.of_nat (length p) + 1 < 2 ^ 63 →
  scan_state (DetectStages_step st g) (p ++ [g]).
Proof.
  intros [Hidx Hst] HF Hline Hlen. rewrite (DetectStages_step_FROM st g HF).
  split.
  - cbn [ss_stageIndex]. rewrite Hidx, length_app. cbn [length]. unfold int_add.
    rewrite wrap64_small; lia.
  - destruct p as [| f p].
    + subst st. cbn. split; [exact Hline | reflexivity].
    + destruct Hst as [Hpos Hclosed]. apply Z.ltb_lt in Hpos as Hpos'.
      change ((f :: p) ++ [g]) with (f :: p ++ [g]).
      cbn [ss_currentStage ss_stages stage_StartLine]. rewrite Hpos'.
      split; [exact Hline |]. intros X.
      rewrite Hclosed. change (f :: p ++ [g]) with ((f :: p) ++ [g]).
      rewrite stages_from_snoc by discriminate. rewrite Hidx. reflexivity.
Qed.

Lemma DetectStages_loop_scan_state (instructions : list InstructionTokens) :
  ∀ (st : StageScan) (p : list InstructionTokens),
    scan_state st p →
    Forall (fun z => 0 < z) (FROM_lines instructions) →
    Z.of_nat (length p + length instructions) < 2 ^ 63 →
    scan_state (fold_left DetectStages_step instructions st)
               (p ++ List.filter is_FROM instructions).
Proof.
  induction instructions as [| inst instructions IH]; intros st p Hst Hpos Hlen.
  - cbn. by rewrite app_nil_r.
  - cbn [fold_left List.filter]. unfold FROM_lines in *. cbn [List.filter] in Hpos.
    cbn [length] in Hlen.
    destruct (is_FROM inst) eqn:HF.
    + cbn [List.map] in Hpos. apply Forall_cons in Hpos as [Hline Hpos].
      replace (p ++ inst :: List.filter is_FROM instructions)
        with ((p ++ [inst]) ++ List.filter is_FROM instructions)
        by (rewrite <- app_assoc; reflexivity).
      apply IH; [| exact Hpos | rewrite length_app; cbn [length]; lia].
      apply DetectStages_step_scan_state; auto. lia.
    + rewrite (DetectStages_step_other st inst HF). apply IH; auto. lia.
Qed.

Lemma filter_nonempty_last (instructions : list InstructionTokens) (f : InstructionTokens)
    (p : list InstructionTokens) :
  List.filter is_FROM instructions = f :: p → ∃ inst, list.last instructions = Some inst.
Proof.
  destruct instructions as [| i instructions]; [discriminate |]. intros _.
  destruct (list.last (i :: instructions)) as [inst |] eqn:E; [eauto |].
  apply last_None in E. discriminate.
Qed.

(** The stages of an instruction list, in closed form. *)
Lemma stages_of_stages_from (instructions : list InstructionTokens) :
  Forall (fun z => 0 < z) (FROM_lines instructions) →
  Z.of_nat (length instructions) < 2 ^ 63 →
  stages_of instructions
  = stages_from (List.filter is_FROM instructions) 0 (last_line instructions).
Proof.
  intros Hpos Hlen. unfold stages_of.
  pose proof (DetectStages_loop_scan_state instructions StageScan_init []) as H.
  cbn [app length] in H. specialize (H (conj eq_refl eq_refl) Hpos Hlen).
  destruct H as [_ H]. unfold DetectStages_finish, last_line.
  destruct (List.filter is_FROM instructions) as [| f p] eqn:HF.
  - rewrite H. reflexivity.
  - destruct H as [Hstart Hclosed]. apply Z.ltb_lt in Hstart. rewrite Hstart.
    destruct (filter_nonempty_last instructions f p HF) as [inst ->].
    apply Hclosed.
Qed.

(** X6. When [DetectStages] returns stages, they are, in source order, one
    stage for each FROM instruction: stage number k starts at the line of the
    k-th FROM, has the value of the first argument of that FROM as its base
    image and the value after its first AS token as its name, and ends on the
    line before the next FROM, the last stage on the line of the last
    instruction. *)
Theorem DetectStages_stages (l l' : Lexer) (instructions : list InstructionTokens)
    (errors : list error) (stages : list StageInfo) :
  ProcessAllInstructions l = Some (instructions, errors, l') →
  DetectStages l = Some (Ok stages, l') →
  Forall (fun z => 0 < z) (FROM_lines instructions) →
  Z.of_nat (length instructions) < 2 ^ 63 →
  stages = stages_from (List.filter is_FROM instructions) 0 (last_line instructions).
Proof.
  intros HP HD Hpos Hlen. unfold DetectStages in HD. rewrite HP in HD.
  cbn [mbind option_bind] in HD. destruct errors; [| discriminate].
  injection HD as <-. apply stages_of_stages_from; assumption.
Qed.

(** ** The rules of the parser *)

Section Rules.

Variable json_Unmarshal : string → list string + string.
Variable range_order : gmap string string → list (string * string).

Lemma instruction_error_rule (tokens : InstructionTokens) (message : string) (pos : Position) :
  rule_error tokens (instruction_error message pos).
Proof. left. reflexivity. Qed.

Lemma parseJSONArrayForm_sound (tokens : InstructionTokens) (i : Instruction) :
  it_JSONForm tokens = true →
  frame (fst (parseJSONArrayForm json_Unmarshal tokens i)) = frame i
  ∧ rule_error tokens (snd (parseJSONArrayForm json_Unmarshal tokens i)).
Proof.
  intros HJ. unfold parseJSONArrayForm.
  destruct (String.eqb _ EmptyString); [split; [reflexivity | apply instruction_error_rule] |].
  destruct (json_Unmarshal _); (split; [reflexivity |]); cbn; auto.
Qed.

Lemma parseFromInstruction_sound : rule_sound parseFromInstruction.
Proof.
  intros tokens i. unfold parseFromInstruction.
  destruct (it_Arguments tokens) as [| a args];
    [split; [reflexivity | split; [apply instruction_error_rule | reflexivity]] |].
  destruct (find_as (a :: args)), (List.find is_platform_flag (a :: args)),
    (List.find is_base_image (a :: args)); repeat split; exact I.
Qed.

Lemma parseRunInstruction_sound : rule_sound (parseRunInstruction json_Unmarshal).
Proof.
  intros tokens i. unfold parseRunInstruction.
  destruct (it_JSONForm tokens) eqn:HJ.
  - destruct (parseJSONArrayForm_sound tokens i HJ). repeat split; auto. discriminate.
  - destruct (String.eqb _ EmptyString);
      [split; [reflexivity | split; [apply instruction_error_rule | reflexivity]] |].
    destruct (heredoc_of (it_Raw tokens)); repeat split; exact I.
Qed.

Lemma parseCmdInstruction_sound : rule_sound (parseCmdInstruction json_Unmarshal).
Proof.
  intros tokens i. unfold parseCmdInstruction.
  destruct (it_JSONForm tokens) eqn:HJ.
  - destruct (parseJSONArrayForm_sound tokens i HJ). repeat split; auto. discriminate.
  - destruct (String.eqb _ EmptyString);
      [split; [reflexivity | split; [apply instruction_error_rule | reflexivity]] |].
    repeat split; exact I.
Qed.

Lemma parseLabelInstruction_sound : rule_sound (parseLabelInstruction range_order).
Proof.
  intros tokens i. unfold parseLabelInstruction.
  destruct (String.eqb _ EmptyString);
    [split; [reflexivity | split; [apply instruction_error_rule | reflexivity]] |].
  repeat split; exact I.
Qed.

Lemma parseEnvInstruction_sound : rule_sound (parseEnvInstruction range_order).
Proof.
  intros tokens i. unfold parseEnvInstruction.
  destruct (String.eqb _ EmptyString);
    [split; [reflexivity | split; [apply instruction_error_rule | reflexivity]] |].
  repeat split; exact I.
Qed.

Lemma check_port_rule (tokens : InstructionTokens) (t : Token) :
  rule_error tokens (check_port t).
Proof.
  unfold check_port.
  destruct (_ && _ && _); [apply instruction_error_rule |].
  destruct (Atoi _); [exact I | apply instruction_error_rule].
Qed.

Lemma expose_loop_sound (tokens : InstructionTokens) (args : list Token) (i : Instruction) :
  frame (fst (expose_loop args i)) = frame i
  ∧ rule_error tokens (snd (expose_loop args i))
  ∧ ins_JSONForm (fst (expose_loop args i)) = ins_JSONForm i.
Proof.
  revert i. induction args as [| t args IH]; intros i; cbn [expose_loop].
  - repeat split; exact I.
  - destruct (not_whitespace t); [| apply IH].
    pose proof (check_port_rule tokens t) as Hp.
    destruct (check_port t); [repeat split; exact Hp |].
    destruct (IH (set_Args i (ins_Args i ++ [tok_Value t]))) as (H1 & H2 & H3).
    rewrite H1, H3. repeat split; exact H2.
Qed.

Lemma parseExposeInstruction_sound : rule_sound parseExposeInstruction.
Proof.
  intros tokens i. unfold parseExposeInstruction.
  destruct (it_Arguments tokens) as [| a args];
    [split; [reflexivity | split; [apply instruction_error_rule | reflexivity]] |].
  destruct (expose_loop_sound tokens (a :: args) i) as (H1 & H2 & H3). auto.
Qed.

Lemma addcopy_step_frame (st : Instruction * list string * bool) (t : Token) :
  frame (fst (fst (addcopy_step st t))) = frame (fst (fst st))
  ∧ ins_JSONForm (fst (fst (addcopy_step st t))) = ins_JSONForm (fst (fst st)).
Proof.
  destruct st as [[i args] hasFrom]. unfold addcopy_step.
  destruct (_ && HasPrefix (tok_Value t) "--");
    [| destruct (not_whitespace t); split; reflexivity].
  destruct (HasPrefix (tok_Value t) "--chown="); [split; reflexivity |].
  destruct (HasPrefix (tok_Value t) "--from="); [split; reflexivity |].
  destruct (HasPrefix (tok_Value t) "--chmod="); split; reflexivity.
Qed.

Lemma addcopy_fold_frame (args : list Token) (st : Instruction * list string * bool) :
  frame (fst (fst (fold_left addcopy_step args st))) = frame (fst (fst st))
  ∧ ins_JSONForm (fst (fst (fold_left addcopy_step args st))) = ins_JSONForm (fst (fst st)).
Proof.
  revert st. induction args as [| t args IH]; intros st; [split; reflexivity |].
  cbn [fold_left]. destruct (IH (addcopy_step st t)) as [H1 H2].
  destruct (addcopy_step_frame st t) as [H3 H4]. split; congruence.
Qed.

Lemma parseAddCopyInstruction_sound : rule_sound parseAddCopyInstruction.
Proof.
  intros tokens i. unfold parseAddCopyInstruction.
  pose proof (addcopy_fold_frame (it_Arguments tokens) (i, [], false)) as [H1 H2].
  destruct (fold_left addcopy_step (it_Arguments tokens) (i, [], false)) as [[i' args] hasFrom].
  cbn [fst] in H1, H2.
  destruct (length args <? 2)%nat;
    [split; [exact H1 | split; [apply instruction_error_rule | intros _; exact H2]] |].
  destruct (_ && hasFrom);
    (split; [exact H1 | split; [try apply instruction_error_rule; exact I | intros _; exact H2]]).
Qed.

Lemma parseVolumeInstruction_sound : rule_sound (parseVolumeInstruction json_Unmarshal).
Proof.
  intros tokens i. unfold parseVolumeInstruction.
  destruct (it_JSONForm tokens) eqn:HJ.
  - destruct (parseJSONArrayForm_sound tokens i HJ). repeat split; auto. discriminate.
  - cbn [ins_Args set_Args].
    destruct (ins_Args i ++ _);
      (split; [reflexivity | split; [try apply instruction_error_rule; exact I | reflexivity]]).
Qed.

Lemma parse_raw_argument_sound (message : string) : rule_sound (parse_raw_argument message).
Proof.
  intros tokens i. unfold parse_raw_argument.
  destruct (String.eqb _ EmptyString);
    [split; [reflexivity | split; [apply instruction_error_rule | reflexivity]] |].
  repeat split; exact I.
Qed.

Lemma parseArgInstruction_sound : rule_sound parseArgInstruction.
Proof.
  intros tokens i. unfold parseArgInstruction.
  destruct (String.eqb _ EmptyString);
    [split; [reflexivity | split; [apply instruction_error_rule | reflexivity]] |].
  destruct (SplitN2 _ _) as [| ? [| ? ?]]; repeat split; exact I.
Qed.

Lemma parseOnbuildInstruction_sound : rule_sound parseOnbuildInstruction.
Proof.
  intros tokens i. unfold parseOnbuildInstruction.
  destruct (String.eqb _ EmptyString);
    [split; [reflexivity | split; [apply instruction_error_rule | reflexivity]] |].
  destruct (String.eqb _ "ONBUILD");
    [split; [reflexivity | split; [apply instruction_error_rule | reflexivity]] |].
  destruct (String.eqb _ "FROM");
    [split; [reflexivity | split; [apply instruction_error_rule | reflexivity]] |].
  repeat split; exact I.
Qed.

Lemma parseStopsignalInstruction_sound : rule_sound parseStopsignalInstruction.
Proof.
  intros tokens i. unfold parseStopsignalInstruction.
  destruct (String.eqb _ EmptyString);
    [split; [reflexivity | split; [apply instruction_error_rule | reflexivity]] |].
  destruct (Atoi _); [repeat split; exact I |].
  destruct (negb _);
    [split; [reflexivity | split; [apply instruction_error_rule | reflexivity]] |].
  repeat split; exact I.
Qed.

Lemma parseHealthcheckInstruction_sound : rule_sound parseHealthcheckInstruction.
Proof.
  intros tokens i. unfold parseHealthcheckInstruction.
  destruct (String.eqb _ "NONE"); [repeat split; exact I |].
  destruct (healthcheck_loop _ _ _) as [[flags args] cmdFound].
  destruct (negb cmdFound && _);
    (split; [reflexivity | split; [try apply instruction_error_rule; exact I | reflexivity]]).
Qed.

Lemma parseShellInstruction_sound : rule_sound (parseShellInstruction json_Unmarshal).
Proof.
  intros tokens i. unfold parseShellInstruction.
  destruct (it_JSONForm tokens) eqn:HJ; cbn [negb].
  - destruct (parseJSONArrayForm_sound tokens i HJ). repeat split; auto. discriminate.
  - split; [reflexivity | split; [apply instruction_error_rule | reflexivity]].
Qed.

(** The dispatch on the command: a known command runs its rule. *)
Lemma dispatch_sound (command : string) :
  command ∈ known_commands →
  rule_sound (dispatch json_Unmarshal range_order command).
Proof.
  intros Hin tokens i. unfold dispatch.
  repeat match goal with
         | |- context [String.eqb command ?k] =>
             destruct (String.eqb_spec command k) as [-> | ?]
         end;
    first [ apply parseFromInstruction_sound | apply parseRunInstruction_sound
          | apply parseCmdInstruction_sound | apply parseLabelInstruction_sound
          | apply parseExposeInstruction_sound | apply parseEnvInstruction_sound
          | apply parseAddCopyInstruction_sound | apply parseVolumeInstruction_sound
          | apply parse_raw_argument_sound | apply parseArgInstruction_sound
          | apply parseOnbuildInstruction_sound | apply parseStopsignalInstruction_sound
          | apply parseHealthcheckInstruction_sound | apply parseShellInstruction_sound
          | idtac ].
  exfalso. unfold known_commands in Hin.
  repeat (apply elem_of_cons in Hin as [-> | Hin]; [congruence |]).
  by apply elem_of_nil in Hin.
Qed.

Lemma dispatch_unknown (command : string) (tokens : InstructionTokens) (i : Instruction) :
  command ∉ known_commands →
  dispatch json_Unmarshal range_order command tokens i
  = (i, Some (Errorf ("unknown instruction: " +:+ command))).
Proof.
  intros Hnot. unfold dispatch.
  repeat match goal with
         | |- context [String.eqb command ?k] =>
             destruct (String.eqb_spec command k) as [-> | ?]
         end;
    try reflexivity; exfalso; apply Hnot; unfold known_commands;
    repeat (first [apply list_elem_of_here | apply list_elem_of_further]).
Qed.

End Rules.

Section ParseInstructionFacts.

Variable json_Unmarshal : string → list string + string.
Variable range_order : gmap string string → list (string * string).

Local Abbreviation ParseInstruction' := (ParseInstruction json_Unmarshal range_order).

Lemma comment_text_nil : comment_text [] = EmptyString.
Proof. reflexivity. Qed.

Lemma new_instruction_frame (it : InstructionTokens) (stage : StageRef) :
  ins_Command (new_instruction it stage) = GetInstructionValue it
  ∧ ins_Raw (new_instruction it stage) = GetArgumentsAsString it
  ∧ ins_Stage (new_instruction it stage) = stage
  ∧ ins_Comment (new_instruction it stage) = comment_text (it_Comments it)
  ∧ range_Start (ins_Range (new_instruction it stage))
    = Position_at (tok_Line (it_Instruction it)) (tok_Column (it_Instruction it))
  ∧ ins_JSONForm (new_instruction it stage) = it_JSONForm it.
Proof.
  unfold new_instruction.
  destruct (it_Comments it) as [| c cs], (list.last (it_Raw it)); repeat split.
Qed.

(** The rules leave alone what [ParseInstruction] sets before the dispatch. *)
Lemma ParseInstruction_frame_fields (it : InstructionTokens) (stage : StageRef)
    (i : Instruction) :
  ParseInstruction' (Some it) stage = Ok i →
  ins_Command i = GetInstructionValue it
  ∧ ins_Raw i = GetArgumentsAsString it
  ∧ ins_Stage i = stage
  ∧ ins_Comment i = comment_text (it_Comments it)
  ∧ range_Start (ins_Range i)
    = Position_at (tok_Line (it_Instruction it)) (tok_Column (it_Instruction it)).
Proof.
  unfold ParseInstruction.
  destruct (decide (GetInstructionValue it ∈ known_commands)) as [Hin | Hnot].
  - destruct (dispatch_sound json_Unmarshal range_order _ Hin it (new_instruction it stage))
      as (Hframe & _ & _).
    destruct (dispatch _ _ _ it _) as [i' [e |]]; [discriminate |].
    intros [= <-]. cbn [fst] in Hframe. unfold frame in Hframe.
    injection Hframe as H1 H2 H3 H4 H5.
    destruct (new_instruction_frame it stage) as (F1 & F2 & F3 & F4 & F5 & _).
    repeat split; congruence.
  - rewrite dispatch_unknown by exact Hnot. discriminate.
Qed.

Lemma ParseInstruction_error_cases (tokens : option InstructionTokens) (stage : StageRef)
    (e : error) :
  ParseInstruction' tokens stage = Err e →
  match tokens with
  | None => e = ErrInvalidInstruction
  | Some it =>
      ((GetInstructionValue it ∉ known_commands)
       ∧ e = Errorf ("unknown instruction: " +:+ GetInstructionValue it))
      ∨ (GetInstructionValue it ∈ known_commands
         ∧ ∃ d, e = EDockerfile d
                ∧ (err_Code d = CodeInstructionError
                   ∨ (err_Code d = CodeSyntaxError ∧ it_JSONForm it = true)))
  end.
Proof.
  unfold ParseInstruction. destruct tokens as [it |]; [| congruence].
  destruct (decide (GetInstructionValue it ∈ known_commands)) as [Hin | Hnot].
  - destruct (dispatch_sound json_Unmarshal range_order _ Hin it (new_instruction it stage))
      as (_ & Herr & _).
    destruct (dispatch _ _ _ it _) as [i' [e' |]]; [| discriminate].
    intros [= <-]. right. split; [exact Hin |]. cbn [snd rule_error] in Herr.
    destruct e' as [| d | |]; try contradiction. eauto.
  - rewrite dispatch_unknown by exact Hnot. intros [= <-]. left. auto.
Qed.

(** X8. The errors of [ParseInstruction]: the invalid instruction error for
    nil tokens, "unknown instruction" for a command without a rule, and
    otherwise a [DockerfileError] whose code is [CodeInstructionError], or
    [CodeSyntaxError] when the tokens are in JSON form. *)
Theorem ParseInstruction_errors (tokens : option InstructionTokens) (stage : StageRef)
    (e : error) :
  ParseInstruction' tokens stage = Err e →
  match tokens with
  | None => e = ErrInvalidInstruction
  | Some it =>
      ((GetInstructionValue it ∉ known_commands)
       ∧ e = Errorf ("unknown instruction: " +:+ GetInstructionValue it))
      ∨ (GetInstructionValue it ∈ known_commands
         ∧ ∃ d, e = EDockerfile d
                ∧ (err_Code d = CodeInstructionError
                   ∨ (err_Code d = CodeSyntaxError ∧ it_JSONForm it = true)))
  end.
Proof. apply ParseInstruction_error_cases. Qed.

(** X9. What the parser makes of a line grouped by the lexer, which never
    has [JSONForm]: on success the instruction is not in JSON form, an error
    is never a [CodeSyntaxError], and a SHELL line is always refused. *)
Theorem lexer_line_never_JSON (tokens : list Token) (it : InstructionTokens)
    (stage : StageRef) :
  instruction_of_line tokens = Ok (Some it) →
  match ParseInstruction' (Some it) stage with
  | Ok i => ins_JSONForm i = false ∧ GetInstructionValue it ≠ "SHELL"
  | Err e => error_code e ≠ Some CodeSyntaxError
  end.
Proof.
  intros Hline. pose proof (line_never_JSONForm _ _ Hline) as HJ.
  destruct (ParseInstruction' (Some it) stage) as [i | e] eqn:HP.
  - unfold ParseInstruction in HP.
    destruct (decide (GetInstructionValue it ∈ known_commands)) as [Hin | Hnot].
    + destruct (dispatch_sound json_Unmarshal range_order _ Hin it (new_instruction it stage))
        as (_ & _ & HJF).
      split.
      * destruct (dispatch _ _ _ it _) as [i' [e |]]; [discriminate |].
        injection HP as <-. cbn [fst] in HJF. rewrite (HJF HJ).
        destruct (new_instruction_frame it stage) as (_ & _ & _ & _ & _ & ->). exact HJ.
      * intros HS. rewrite HS in HP. cbn [dispatch String.eqb Ascii.eqb Bool.eqb] in HP.
        unfold parseShellInstruction in HP. rewrite HJ in HP. discriminate.
    + rewrite dispatch_unknown in HP by exact Hnot. discriminate.
  - pose proof (ParseInstruction_error_cases (Some it) stage e HP) as [[_ ->] | (_ & d & -> & Hd)].
    + discriminate.
    + cbn. destruct Hd as [-> | [_ HJ']]; [discriminate | congruence].
Qed.

Lemma Keywords_checked :
  forallb (fun kv : string * TokenType =>
             Bool.eqb (bool_decide (fst kv ∈ known_commands))
                      (IsInstruction (mkToken (snd kv) EmptyString 0 0 0 EmptyString)
                       && negb (String.eqb (fst kv) "MAINTAINER")))
          (map_to_list Keywords) = true.
Proof. vm_compute. reflexivity. Qed.

Lemma IsInstruction_by_type (t : Token) :
  IsInstruction t = IsInstruction (mkToken (tok_Type t) EmptyString 0 0 0 EmptyString).
Proof. reflexivity. Qed.

Lemma keyword_known (name : string) (ty : TokenType) :
  Keywords !! name = Some ty →
  name ∈ known_commands
  ↔ IsInstruction (mkToken ty EmptyString 0 0 0 EmptyString) = true ∧ name ≠ "MAINTAINER".
Proof.
  intros Hlookup. apply elem_of_map_to_list in Hlookup.
  pose proof Keywords_checked as Hall. revert Hlookup Hall.
  generalize (map_to_list Keywords). intros kvs Hlookup Hall.
  rewrite forallb_forall in Hall.
  apply list_elem_of_In in Hlookup. specialize (Hall _ Hlookup). cbn [fst snd] in Hall.
  apply Bool.eqb_prop in Hall.
  split.
  - intros Hin. rewrite bool_decide_eq_true_2 in Hall by exact Hin.
    symmetry in Hall. apply andb_true_iff in Hall as [H1 H2].
    split; [exact H1 |]. apply negb_true_iff in H2. intros ->. discriminate.
  - intros [H1 H2]. rewrite H1 in Hall. cbn [andb] in Hall.
    destruct (String.eqb_spec name "MAINTAINER") as [? | _]; [done |].
    cbn [negb] in Hall. apply bool_decide_eq_true in Hall. exact Hall.
Qed.

(** X10. Of the instruction keywords of the table [Keywords], MAINTAINER is
    the one the parser has no rule for: a line whose keyword token comes
    from the table and counts as an instruction for the lexer is refused by
    [ParseInstruction] as an unknown instruction exactly when the keyword
    is MAINTAINER. *)
Theorem keyword_without_rule (it : InstructionTokens) (stage : StageRef) (ty : TokenType) :
  Keywords !! GetInstructionValue it = Some ty →
  tok_Type (it_Instruction it) = ty →
  IsInstruction (it_Instruction it) = true →
  ParseInstruction' (Some it) stage
  = Err (Errorf ("unknown instruction: " +:+ GetInstructionValue it))
  ↔ GetInstructionValue it = "MAINTAINER".
Proof.
  intros Hkey Hty HI. rewrite IsInstruction_by_type, Hty in HI.
  pose proof (keyword_known _ _ Hkey) as Hknown.
  split.
  - intros HP.
    destruct (ParseInstruction_error_cases (Some it) stage _ HP) as [[Hnot _] | (_ & d & Hd & _)];
      [| discriminate Hd].
    destruct (String.eqb_spec (GetInstructionValue it) "MAINTAINER") as [? | Hne]; [done |].
    exfalso. apply Hnot, Hknown. auto.
  - intros HM. unfold ParseInstruction. rewrite dispatch_unknown; [reflexivity |].
    intros Hin. apply Hknown in Hin as [_ Hne]. contradiction.
Qed.

(** *** ADD and COPY *)

Lemma prefix_split (p s : string) : String.prefix p s = true → ∃ r, s = p +:+ r.
Proof.
  revert s. induction p as [| c p IH]; intros s.
  - exists s. reflexivity.
  - destruct s as [| d s]; [discriminate |]. cbn [String.prefix].
    destruct (Ascii.ascii_dec c d) as [-> | _]; [| discriminate].
    intros H. destruct (IH s H) as [r ->]. exists r. reflexivity.
Qed.

Lemma from_flag_prefixes (v : string) :
  HasPrefix v "--from=" = true →
  HasPrefix v "--" = true ∧ HasPrefix v "--chown=" = false.
Proof.
  unfold HasPrefix. intros H. destruct (prefix_split _ _ H) as [r ->]. split; reflexivity.
Qed.

Lemma addcopy_fold (args : list Token) :
  ∀ (i : Instruction) (pos : list string) (hasFrom : bool),
    ∃ i', fold_left addcopy_step args (i, pos, hasFrom)
          = (i', pos ++ positional args, hasFrom || existsb is_from_flag args)
          ∧ ins_Dependencies i' = ins_Dependencies i ++ from_values args
          ∧ ins_Args i' = ins_Args i.
Proof.
  induction args as [| t args IH]; intros i pos hasFrom.
  - exists i. cbn. rewrite !app_nil_r, orb_false_r. auto.
  - cbn [fold_left]. unfold positional, from_values, is_from_flag, is_flag in *.
    cbn [existsb List.filter]. unfold addcopy_step at 2.
    destruct (is_type TOKEN_STRING t) eqn:HS; cbn [andb negb].
    + destruct (HasPrefix (tok_Value t) "--from=") eqn:HF.
      * destruct (from_flag_prefixes _ HF) as [-> ->]. cbn [negb andb].
        destruct (IH (set_Dependencies
                        (set_Flag i "from" (TrimPrefix (tok_Value t) "--from="))
                        (ins_Dependencies (set_Flag i "from" (TrimPrefix (tok_Value t) "--from="))
                         ++ [default EmptyString
                               (ins_Flags (set_Flag i "from"
                                             (TrimPrefix (tok_Value t) "--from=")) !! "from")]))
                    pos true) as (i' & -> & Hdeps & Hargs).
        exists i'. rewrite orb_true_r. split; [reflexivity |]. split; [| exact Hargs].
        rewrite Hdeps. cbn [set_Dependencies set_Flag ins_Dependencies ins_Flags List.map].
        rewrite lookup_insert_eq. cbn [default]. rewrite <- app_assoc. reflexivity.
      * cbn [orb]. destruct (HasPrefix (tok_Value t) "--") eqn:HP; cbn [negb andb].
        -- destruct (HasPrefix (tok_Value t) "--chown=");
             [| destruct (HasPrefix (tok_Value t) "--chmod=")];
             (edestruct IH as (i' & -> & Hdeps & Hargs); exists i';
              split; [reflexivity | split; [exact Hdeps | exact Hargs]]).
        -- destruct (not_whitespace t).
           ++ destruct (IH i (pos ++ [tok_Value t]) hasFrom) as (i' & -> & Hdeps & Hargs).
              exists i'. cbn [List.map]. rewrite <- app_assoc. auto.
           ++ apply IH.
    + cbn [orb]. destruct (not_whitespace t).
      * destruct (IH i (pos ++ [tok_Value t]) hasFrom) as (i' & -> & Hdeps & Hargs).
        exists i'. cbn [List.map]. rewrite <- app_assoc. auto.
      * apply IH.
Qed.

Lemma addcopy_fold_command (it : InstructionTokens) (stage : StageRef) :
  ∃ i', fold_left addcopy_step (it_Arguments it) (new_instruction it stage, [], false)
        = (i', positional (it_Arguments it), existsb is_from_flag (it_Arguments it))
        ∧ ins_Command i' = GetInstructionValue it
        ∧ ins_Dependencies i' = from_values (it_Arguments it).
Proof.
  pose proof (addcopy_fold_frame (it_Arguments it) (new_instruction it stage, [], false))
    as [Hframe _].
  destruct (addcopy_fold (it_Arguments it) (new_instruction it stage) [] false)
    as (i' & E & Hdeps & _).
  rewrite E in Hframe. cbn [fst] in Hframe. unfold frame in Hframe.
  injection Hframe as H1 _ _ _ _.
  destruct (new_instruction_frame it stage) as (F1 & _).
  exists i'. split; [exact E |]. split; [congruence |].
  rewrite Hdeps. unfold new_instruction.
  destruct (it_Comments it), (list.last (it_Raw it)); reflexivity.
Qed.

(** X11. ADD never succeeds with a [--from=] flag: whatever the other
    arguments, the result is a [CodeInstructionError]. *)
Theorem add_with_from_always_fails (it : InstructionTokens) (stage : StageRef) :
  GetInstructionValue it = "ADD" →
  existsb is_from_flag (it_Arguments it) = true →
  ∃ d, ParseInstruction' (Some it) stage = Err (EDockerfile d)
       ∧ err_Code d = CodeInstructionError.
Proof.
  intros Hcmd Hfrom. unfold ParseInstruction. rewrite Hcmd.
  cbn [dispatch String.eqb Ascii.eqb Bool.eqb]. unfold parseAddCopyInstruction.
  destruct (addcopy_fold_command it stage) as (i' & -> & Hc & _).
  rewrite Hfrom.
  destruct (length (positional (it_Arguments it)) <? 2)%nat; [eexists; split; reflexivity |].
  cbn [set_Args ins_Command]. rewrite Hc, Hcmd. cbn. eexists. split; reflexivity.
Qed.

(** X12. COPY succeeds exactly when it has two positional arguments or
    more (tokens that are neither white space nor [--] flags). The
    instruction then has these as [Args], in order, and the values of all
    its [--from=] flags as [Dependencies], in order; flags other than
    [--chown=], [--from=] and [--chmod=] are dropped without an error. *)
Theorem copy_arguments_and_dependencies (it : InstructionTokens) (stage : StageRef) :
  GetInstructionValue it = "COPY" →
  match ParseInstruction' (Some it) stage with
  | Ok i => (2 <= length (positional (it_Arguments it)))%nat
            ∧ ins_Args i = positional (it_Arguments it)
            ∧ ins_Dependencies i = from_values (it_Arguments it)
  | Err e => (length (positional (it_Arguments it)) < 2)%nat
             ∧ error_code e = Some CodeInstructionError
  end.
Proof.
  intros Hcmd. unfold ParseInstruction. rewrite Hcmd.
  cbn [dispatch String.eqb Ascii.eqb Bool.eqb]. unfold parseAddCopyInstruction.
  destruct (addcopy_fold_command it stage) as (i' & -> & Hc & Hdeps).
  destruct (Nat.ltb_spec (length (positional (it_Arguments it))) 2) as [Hlt | Hge].
  - split; [exact Hlt | reflexivity].
  - cbn [set_Args ins_Command]. rewrite Hc, Hcmd. cbn [String.eqb Ascii.eqb Bool.eqb andb].
    split; [exact Hge |]. split; [reflexivity | exact Hdeps].
Qed.

End ParseInstructionFacts.

(** ** Key-value pairs *)

Lemma string_app_cons (x : ascii) (a b : string) : String x a +:+ b = String x (a +:+ b).
Proof. reflexivity. Qed.

Lemma string_app_nil_l (b : string) : EmptyString +:+ b = b.
Proof. reflexivity. Qed.

Lemma list_ascii_of_string_app (a b : string) :
  list_ascii_of_string (a +:+ b) = list_ascii_of_string a ++ list_ascii_of_string b.
Proof.
  induction a as [| c a IH]; [reflexivity |].
  rewrite string_app_cons. cbn [list_ascii_of_string app]. by rewrite IH.
Qed.

Lemma string_app_assoc (a b c : string) : (a +:+ b) +:+ c = a +:+ (b +:+ c).
Proof.
  induction a as [| x a IH]; [reflexivity |]. rewrite !string_app_cons. by rewrite IH.
Qed.

Lemma string_app_nil_r (a : string) : a +:+ EmptyString = a.
Proof. induction a as [| x a IH]; [reflexivity |]. rewrite string_app_cons. by rewrite IH. Qed.

Lemma WriteRune_app (a : string) (c : ascii) (s : string) :
  WriteRune a c +:+ s = a +:+ String c s.
Proof. unfold WriteRune. rewrite string_app_assoc. reflexivity. Qed.

Lemma kv_step_key_char (r : gmap string string) (key : string) (qc c : ascii) :
  key_char c = true →
  kv_step (kv_in_key r key qc) c = kv_in_key r (WriteRune key c) qc.
Proof.
  unfold key_char, value_char. rewrite !andb_true_iff, !negb_true_iff.
  intros [[[[[Hb Hd] Hs] Hsp] Ht] He].
  unfold kv_step, kv_in_key. cbn [kv_escaped kv_inQuote kv_isKey].
  rewrite Hb, Hd, Hs, He, Hsp, Ht. reflexivity.
Qed.

Lemma kv_step_value_char (r : gmap string string) (key value : string) (qc c : ascii) :
  value_char c = true →
  kv_step (kv_in_value r key value qc) c = kv_in_value r key (WriteRune value c) qc.
Proof.
  unfold value_char. rewrite !andb_true_iff, !negb_true_iff.
  intros [[[[Hb Hd] Hs] Hsp] Ht].
  unfold kv_step, kv_in_value. cbn [kv_escaped kv_inQuote kv_isKey].
  rewrite Hb, Hd, Hs, Hsp, Ht. cbn [orb negb andb].
  destruct (Ascii.eqb c "="); reflexivity.
Qed.

Lemma kv_key_run (cs : list ascii) :
  ∀ (r : gmap string string) (key : string) (qc : ascii),
    forallb key_char cs = true →
    fold_left kv_step cs (kv_in_key r key qc)
    = kv_in_key r (key +:+ string_of_list_ascii cs) qc.
Proof.
  induction cs as [| c cs IH]; intros r key qc Hcs; cbn [fold_left string_of_list_ascii].
  - by rewrite string_app_nil_r.
  - cbn [forallb] in Hcs. apply andb_true_iff in Hcs as [Hc Hcs].
    rewrite kv_step_key_char, IH, WriteRune_app by assumption. reflexivity.
Qed.

Lemma kv_value_run (cs : list ascii) :
  ∀ (r : gmap string string) (key value : string) (qc : ascii),
    forallb value_char cs = true →
    fold_left kv_step cs (kv_in_value r key value qc)
    = kv_in_value r key (value +:+ string_of_list_ascii cs) qc.
Proof.
  induction cs as [| c cs IH]; intros r key value qc Hcs; cbn [fold_left string_of_list_ascii].
  - by rewrite string_app_nil_r.
  - cbn [forallb] in Hcs. apply andb_true_iff in Hcs as [Hc Hcs].
    rewrite kv_step_value_char, IH, WriteRune_app by assumption. reflexivity.
Qed.

(** The scan of one pair [k=v], from the start of a key to the end of the
    value. *)
Lemma kv_pair_run (r : gmap string string) (qc : ascii) (kv : string * string) :
  plain_pair kv →
  fold_left kv_step (list_ascii_of_string (pair_text kv)) (kv_in_key r EmptyString qc)
  = kv_in_value r (fst kv) (snd kv) qc.
Proof.
  destruct kv as [k v]. intros [[_ Hk] [_ Hv]]. cbn [fst snd] in *.
  unfold pair_text. cbn [fst snd].
  rewrite !list_ascii_of_string_app, !fold_left_app.
  rewrite kv_key_run by exact Hk. rewrite string_app_nil_l.
  rewrite string_of_list_ascii_of_string.
  change (list_ascii_of_string "=") with ["="%char]. cbn [fold_left].
  assert (kv_step (kv_in_key r k qc) "=" = kv_in_value r k EmptyString qc) as -> by reflexivity.
  rewrite kv_value_run by exact Hv. rewrite string_app_nil_l.
  rewrite string_of_list_ascii_of_string. reflexivity.
Qed.

Lemma kv_space_after_value (r : gmap string string) (key value : string) (qc : ascii) :
  value ≠ EmptyString →
  kv_step (kv_in_value r key value qc) " " = kv_in_key (<[key := value]> r) EmptyString qc.
Proof.
  intros Hv. unfold kv_step, kv_in_value. cbn.
  destruct (String.eqb_spec value EmptyString) as [? | _]; [done | reflexivity].
Qed.

Lemma concat_cons_cons (sep a b : string) (l : list string) :
  String.concat sep (a :: b :: l) = a +:+ sep +:+ String.concat sep (b :: l).
Proof. reflexivity. Qed.

Lemma pairs_scan (pairs : list (string * string)) :
  ∀ (kv : string * string) (r : gmap string string) (qc : ascii),
    Forall plain_pair (kv :: pairs) →
    kv_finish (fold_left kv_step (list_ascii_of_string (pairs_text (kv :: pairs)))
                         (kv_in_key r EmptyString qc))
    = fold_left (fun m p => <[fst p := snd p]> m) (kv :: pairs) r.
Proof.
  induction pairs as [| kv' pairs IH]; intros kv r qc Hall;
    apply Forall_cons in Hall as [Hkv Hall].
  - unfold pairs_text, Join. cbn [List.map String.concat].
    rewrite kv_pair_run by exact Hkv. unfold kv_finish, kv_in_value. cbn.
    destruct Hkv as [[Hk _] _].
    destruct (String.eqb_spec (fst kv) EmptyString) as [? | _]; [done | reflexivity].
  - unfold pairs_text, Join in *. cbn [List.map] in *. rewrite concat_cons_cons.
    rewrite !list_ascii_of_string_app, !fold_left_app.
    rewrite kv_pair_run by exact Hkv.
    change (list_ascii_of_string " ") with [" "%char]. cbn [fold_left].
    destruct Hkv as [_ [Hv _]].
    rewrite kv_space_after_value by exact Hv.
    rewrite (IH kv' _ qc Hall). reflexivity.
Qed.

Lemma fold_insert_list_to_map (pairs : list (string * string)) :
  fold_left (fun (m : gmap string string) p => <[fst p := snd p]> m) pairs ∅
  = list_to_map (reverse pairs).
Proof.
  unfold list_to_map. generalize (∅ : gmap string string).
  induction pairs as [| p pairs IH]; intros m; [reflexivity |].
  cbn [fold_left]. rewrite IH, reverse_cons, fold_right_app. reflexivity.
Qed.

Lemma parseKeyValuePairs_pairs (pairs : list (string * string)) :
  Forall plain_pair pairs →
  parseKeyValuePairs (pairs_text pairs) = list_to_map (reverse pairs).
Proof.
  intros Hall. rewrite <- fold_insert_list_to_map.
  destruct pairs as [| kv pairs]; [reflexivity |].
  exact (pairs_scan pairs kv ∅ " "%char Hall).
Qed.

(** X13. On an ASCII text of pairs [k=v] written with single spaces between
    them, keys and values free of quotes, escapes and white space (a value
    may hold [=]), [parseKeyValuePairs] returns the map of the pairs; when a
    key comes twice, its last value stays. *)
Theorem parseKeyValuePairs_plain_pairs (pairs : list (string * string)) :
  is_ascii (pairs_text pairs) = true →
  Forall plain_pair pairs →
  parseKeyValuePairs (pairs_text pairs) = list_to_map (reverse pairs).
Proof. intros _. apply parseKeyValuePairs_pairs. Qed.

Lemma pairs_text_not_empty (kv : string * string) (pairs : list (string * string)) :
  plain_pair kv → String.eqb (pairs_text (kv :: pairs)) EmptyString = false.
Proof.
  destruct kv as [k v]. intros [[Hk _] _]. cbn [fst] in Hk.
  destruct k as [| c k]; [done |].
  unfold pairs_text, Join, pair_text. cbn [List.map fst snd].
  destruct pairs; cbn [String.concat]; rewrite !string_app_cons; reflexivity.
Qed.

Section Pairs.

Variable json_Unmarshal : string → list string + string.
Variable range_order : gmap string string → list (string * string).
Hypothesis range_order_valid : order_valid range_order.

(** X14. LABEL and ENV with ASCII arguments that are pairs [k=v] separated
    by single spaces, keys and values plain and the keys all different: the
    instruction parses, and its [Args] are the pairs as written, each once,
    in an order that depends on the iteration order of the map. *)
Theorem label_env_pairs (it : InstructionTokens) (stage : StageRef)
    (pairs : list (string * string)) :
  GetInstructionValue it = "LABEL" ∨ GetInstructionValue it = "ENV" →
  is_ascii (GetArgumentsAsString it) = true →
  GetArgumentsAsString it = pairs_text pairs →
  pairs ≠ [] →
  Forall plain_pair pairs →
  NoDup (List.map fst pairs) →
  ∃ i, ParseInstruction json_Unmarshal range_order (Some it) stage = Ok i
       ∧ ins_Args i ≡ₚ List.map pair_text pairs.
Proof.
  intros Hcmd _ Hargs Hne Hall Hnodup.
  assert (String.eqb (pairs_text pairs) EmptyString = false) as Hnonempty.
  { destruct pairs as [| kv pairs]; [done |]. apply Forall_cons in Hall as [Hkv _].
    apply pairs_text_not_empty. exact Hkv. }
  assert (range_order (parseKeyValuePairs (pairs_text pairs)) ≡ₚ pairs) as Hperm.
  { rewrite (range_order_valid _), parseKeyValuePairs_pairs by exact Hall.
    rewrite map_to_list_to_map.
    - apply reverse_Permutation.
    - rewrite fmap_reverse, reverse_Permutation. exact Hnodup. }
  assert (ins_Args (new_instruction it stage) = []) as Hnil.
  { unfold new_instruction. destruct (it_Comments it), (list.last (it_Raw it)); reflexivity. }
  unfold ParseInstruction.
  destruct Hcmd as [-> | ->]; cbn [dispatch String.eqb Ascii.eqb Bool.eqb];
    unfold parseLabelInstruction, parseEnvInstruction; rewrite Hargs, Hnonempty;
    (eexists; split; [reflexivity |]);
    unfold append_pairs; cbn [set_Args ins_Args]; rewrite Hnil; cbn [app];
    apply Permutation_map; exact Hperm.
Qed.

End Pairs.

(** ** ARG *)

Lemma splitN2_go_found (sep : ascii) (k v : string) :
  ∀ cur, ¬ In sep (list_ascii_of_string k) →
         splitN2_go sep (k +:+ String sep v) cur
         = Some (string_of_list_ascii (rev cur ++ list_ascii_of_string k), v).
Proof.
  induction k as [| c k IH]; intros cur Hnot.
  - rewrite string_app_nil_l. cbn [splitN2_go]. rewrite Ascii.eqb_refl.
    cbn. by rewrite app_nil_r.
  - rewrite string_app_cons. cbn [splitN2_go list_ascii_of_string]. cbn in Hnot.
    destruct (Ascii.eqb_spec c sep) as [-> | _]; [tauto |].
    rewrite IH by tauto. cbn [rev]. by rewrite <- app_assoc.
Qed.

Lemma splitN2_go_none (sep : ascii) (s : string) :
  ∀ cur, ¬ In sep (list_ascii_of_string s) → splitN2_go sep s cur = None.
Proof.
  induction s as [| c s IH]; intros cur Hnot; cbn [splitN2_go]; [reflexivity |].
  cbn in Hnot. destruct (Ascii.eqb_spec c sep) as [-> | _]; [tauto |].
  apply IH. tauto.
Qed.

Lemma SplitN2_found (sep : ascii) (k v : string) :
  ¬ In sep (list_ascii_of_string k) → SplitN2 (k +:+ String sep v) sep = [k; v].
Proof.
  intros Hnot. unfold SplitN2. rewrite splitN2_go_found by exact Hnot.
  cbn [rev app]. by rewrite string_of_list_ascii_of_string.
Qed.

Lemma SplitN2_none (sep : ascii) (s : string) :
  ¬ In sep (list_ascii_of_string s) → SplitN2 s sep = [s].
Proof. intros Hnot. unfold SplitN2. by rewrite splitN2_go_none. Qed.

(** X15. ARG splits its argument text, when ASCII, at the first [=]: the
    name is the text before it, trimmed, and the text after it, whatever it
    holds, is the [default] flag; without [=] the whole text is the name and
    there is no [default] flag. *)
Theorem arg_name_and_default (json_Unmarshal : string → list string + string)
    (range_order : gmap string string → list (string * string))
    (it : InstructionTokens) (stage : StageRef) :
  GetInstructionValue it = "ARG" →
  is_ascii (GetArgumentsAsString it) = true →
  GetArgumentsAsString it ≠ EmptyString →
  ∃ i, ParseInstruction json_Unmarshal range_order (Some it) stage = Ok i
       ∧ (∀ name value,
            GetArgumentsAsString it = name +:+ "=" +:+ value →
            ¬ In "="%char (list_ascii_of_string name) →
            ins_Args i = [TrimSpace name] ∧ ins_Flags i !! "default" = Some value)
       ∧ (¬ In "="%char (list_ascii_of_string (GetArgumentsAsString it)) →
          ins_Args i = [TrimSpace (GetArgumentsAsString it)]
          ∧ ins_Flags i !! "default" = None).
Proof.
  intros Hcmd _ Hne. unfold ParseInstruction. rewrite Hcmd.
  cbn [dispatch String.eqb Ascii.eqb Bool.eqb]. unfold parseArgInstruction.
  destruct (String.eqb_spec (GetArgumentsAsString it) EmptyString) as [? | _]; [done |].
  assert (ins_Flags (new_instruction it stage) = ∅) as Hflags.
  { unfold new_instruction. destruct (it_Comments it), (list.last (it_Raw it)); reflexivity. }
  destruct (SplitN2 (GetArgumentsAsString it) "=") as [| a [| b rest]] eqn:Hsplit.
  - eexists. split; [reflexivity |]. split.
    + intros name value Htext Hname. rewrite Htext in Hsplit.
      change (name +:+ "=" +:+ value) with (name +:+ String "=" value) in Hsplit.
      rewrite SplitN2_found in Hsplit by exact Hname. discriminate.
    + intros Hnot. rewrite SplitN2_none in Hsplit by exact Hnot. discriminate.
  - eexists. split; [reflexivity |]. split.
    + intros name value Htext Hname. rewrite Htext in Hsplit.
      change (name +:+ "=" +:+ value) with (name +:+ String "=" value) in Hsplit.
      rewrite SplitN2_found in Hsplit by exact Hname. discriminate.
    + intros Hnot. rewrite SplitN2_none in Hsplit by exact Hnot. injection Hsplit as <-.
      cbn [nth set_Args ins_Args ins_Flags]. rewrite Hflags. split; reflexivity.
  - eexists. split; [reflexivity |]. split.
    + intros name value Htext Hname. rewrite Htext in Hsplit.
      change (name +:+ "=" +:+ value) with (name +:+ String "=" value) in Hsplit.
      rewrite SplitN2_found in Hsplit by exact Hname. injection Hsplit as <- <- <-.
      cbn [nth set_Flag set_Args ins_Args ins_Flags]. rewrite lookup_insert_eq.
      split; reflexivity.
    + intros Hnot. rewrite SplitN2_none in Hsplit by exact Hnot. discriminate.
Qed.

(** ** The RUN combiner *)

Lemma flush_app (result : list optimizer.Instruction) (runCommands : list string) :
  optimizer.flush result runCommands = result ++ optimizer.flush [] runCommands.
Proof. destruct runCommands; cbn; [by rewrite app_nil_r | reflexivity]. Qed.

Lemma combine_fold_from (instructions : list optimizer.Instruction) :
  ∀ result runCommands,
    (let '(result', runCommands') :=
       fold_left optimizer.combine_step instructions (result, runCommands) in
     optimizer.flush result' runCommands')
    = result ++ optimizer.combine_from instructions runCommands.
Proof.
  induction instructions as [| inst rest IH]; intros result runCommands.
  - cbn [fold_left optimizer.combine_from]. apply flush_app.
  - cbn [fold_left optimizer.combine_from optimizer.combine_step].
    destruct (optimizer.is_RUN inst).
    + apply IH.
    + rewrite IH, (flush_app result), <- !app_assoc. reflexivity.
Qed.

Lemma combineRunCommands_from (instructions : list optimizer.Instruction) :
  optimizer.combineRunCommands instructions = optimizer.combine_from instructions [].
Proof. unfold optimizer.combineRunCommands. apply (combine_fold_from instructions [] []). Qed.

Lemma merged_is_RUN (runCommands : list string) :
  optimizer.is_RUN (optimizer.merged runCommands) = true.
Proof. reflexivity. Qed.

Lemma combine_from_combined (instructions : list optimizer.Instruction) :
  ∀ runCommands,
    optimizer.combined (optimizer.combine_from instructions runCommands) = true
    ∧ (runCommands = [] →
       match instructions with
       | inst :: _ =>
           optimizer.is_RUN inst = false →
           ∃ rest, optimizer.combine_from instructions runCommands = inst :: rest
       | [] => True
       end).
Proof.
  induction instructions as [| inst rest IH]; intros runCommands.
  - split; [| auto]. destruct runCommands; reflexivity.
  - cbn [optimizer.combine_from]. destruct (optimizer.is_RUN inst) eqn:HR.
    + split; [apply IH | intros _; discriminate].
    + destruct (IH []) as [Hc _]. split.
      * destruct runCommands as [| c cs]; cbn [optimizer.flush app optimizer.combined].
        -- rewrite HR, Hc. reflexivity.
        -- rewrite merged_is_RUN, HR, Hc. reflexivity.
      * intros ->. intros _. cbn. eauto.
Qed.

Lemma Join_single (a sep : string) : Join [a] sep = a.
Proof. reflexivity. Qed.

Lemma combined_fixed (instructions : list optimizer.Instruction) :
  optimizer.combined instructions = true →
  optimizer.combine_from instructions [] = instructions.
Proof.
  induction instructions as [| inst rest IH]; [reflexivity |].
  cbn [optimizer.combined optimizer.combine_from]. intros H.
  apply andb_true_iff in H as [Hhead Hrest]. specialize (IH Hrest).
  destruct (optimizer.is_RUN inst) eqn:HR.
  - destruct inst as [command args]. unfold optimizer.is_RUN in HR.
    cbn [optimizer.Command optimizer.Args app] in HR, Hhead |- *.
    apply String.eqb_eq in HR as ->.
    destruct args as [| a [| ? ?]]; try discriminate.
    change (Join [a] " ") with a.
    destruct rest as [| next rest]; [reflexivity |].
    cbn [andb] in Hhead. apply negb_true_iff in Hhead.
    cbn [optimizer.combine_from] in IH |- *. rewrite Hhead in IH |- *.
    cbn [optimizer.flush app] in IH |- *. unfold optimizer.merged.
    change (Join [a] " && ") with a.
    rewrite IH. reflexivity.
  - cbn [optimizer.flush app]. rewrite IH. reflexivity.
Qed.

(** X16. [combineRunCommands] leaves no two RUN instructions next to each
    other, every RUN it returns has one argument, and combining a second
    time changes nothing. *)
Theorem combineRunCommands_idempotent (instructions : list optimizer.Instruction) :
  optimizer.combined (optimizer.combineRunCommands instructions) = true
  ∧ optimizer.combineRunCommands (optimizer.combineRunCommands instructions)
    = optimizer.combineRunCommands instructions.
Proof.
  rewrite !combineRunCommands_from.
  destruct (combine_from_combined instructions []) as [Hc _].
  split; [exact Hc | apply combined_fixed, Hc].
Qed.

Lemma combine_from_others (instructions : list optimizer.Instruction) :
  ∀ runCommands,
    List.filter (fun inst => negb (optimizer.is_RUN inst))
                (optimizer.combine_from instructions runCommands)
    = List.filter (fun inst => negb (optimizer.is_RUN inst)) instructions
    ∧ (length (optimizer.combine_from instructions runCommands)
       <= length instructions + (if runCommands is [] then 0 else 1))%nat.
Proof.
  induction instructions as [| inst rest IH]; intros runCommands.
  - destruct runCommands; cbn; split; (reflexivity || lia).
  - cbn [optimizer.combine_from List.filter length]. destruct (optimizer.is_RUN inst) eqn:HR.
    + destruct (IH (runCommands ++ [Join (optimizer.Args inst) " "])) as [H1 H2].
      cbn [negb]. split; [exact H1 |].
      destruct (runCommands ++ [Join (optimizer.Args inst) " "]) eqn:E;
        [by destruct runCommands |].
      destruct runCommands; lia.
    + destruct (IH []) as [H1 H2]. cbn [negb].
      destruct runCommands as [| c cs]; cbn [optimizer.flush app List.filter length].
      * rewrite HR. cbn [negb]. rewrite H1. split; [reflexivity | lia].
      * rewrite merged_is_RUN, HR. cbn [negb]. rewrite H1. split; [reflexivity | lia].
Qed.

(** X17. [combineRunCommands] keeps the instructions other than RUN, all of
    them and in their order, and never returns more instructions than it
    was given. *)
Theorem combineRunCommands_keeps_others (instructions : list optimizer.Instruction) :
  List.filter (fun inst => negb (optimizer.is_RUN inst))
              (optimizer.combineRunCommands instructions)
  = List.filter (fun inst => negb (optimizer.is_RUN inst)) instructions
  ∧ (length (optimizer.combineRunCommands instructions) <= length instructions)%nat.
Proof.
  rewrite combineRunCommands_from.
  destruct (combine_from_others instructions []) as [H1 H2]. split; [exact H1 | lia].
Qed.

Lemma combine_from_runs (runs : list optimizer.Instruction) :
  ∀ runCommands,
    forallb optimizer.is_RUN runs = true →
    optimizer.combine_from runs runCommands
    = optimizer.flush []
        (runCommands ++ List.map (fun inst => Join (optimizer.Args inst) " ") runs).
Proof.
  induction runs as [| inst rest IH]; intros runCommands Hall.
  - cbn. by rewrite app_nil_r.
  - cbn [forallb] in Hall. apply andb_true_iff in Hall as [HR Hall].
    cbn [optimizer.combine_from List.map]. rewrite HR, IH by exact Hall.
    rewrite <- app_assoc. reflexivity.
Qed.

Lemma combine_from_app_other (runs : list optimizer.Instruction) (other : optimizer.Instruction)
    (rest : list optimizer.Instruction) (runCommands : list string) :
  forallb optimizer.is_RUN runs = true →
  optimizer.is_RUN other = false →
  optimizer.combine_from (runs ++ other :: rest) runCommands
  = optimizer.flush []
      (runCommands ++ List.map (fun inst => Join (optimizer.Args inst) " ") runs)
    ++ other :: optimizer.combine_from rest [].
Proof.
  revert runCommands. induction runs as [| inst runs IH]; intros runCommands Hall Hother.
  - cbn [app optimizer.combine_from List.map]. rewrite Hother, app_nil_r. reflexivity.
  - cbn [forallb] in Hall. apply andb_true_iff in Hall as [HR Hall].
    cbn [app optimizer.combine_from List.map]. rewrite HR, IH by assumption.
    rewrite <- app_assoc. reflexivity.
Qed.

(** X18. A block of RUN instructions between two other instructions (or at
    the start or the end of the file) becomes one RUN whose argument is the
    commands of the block, each the arguments of its RUN joined by spaces,
    joined by [ && ]. *)
Theorem combineRunCommands_block (runs after : list optimizer.Instruction)
    (other : optimizer.Instruction) :
  forallb optimizer.is_RUN runs = true →
  runs ≠ [] →
  optimizer.is_RUN other = false →
  optimizer.combineRunCommands (runs ++ other :: after)
  = optimizer.mkInstruction "RUN"
      [Join (List.map (fun inst => Join (optimizer.Args inst) " ") runs) " && "]
    :: other :: optimizer.combineRunCommands after
  ∧ optimizer.combineRunCommands runs
    = [optimizer.mkInstruction "RUN"
         [Join (List.map (fun inst => Join (optimizer.Args inst) " ") runs) " && "]].
Proof.
  intros Hall Hne Hother. rewrite !combineRunCommands_from.
  rewrite (combine_from_app_other runs other after [] Hall Hother).
  rewrite (combine_from_runs runs [] Hall).
  cbn [app]. destruct runs as [| r runs]; [done |]. split; reflexivity.
Qed.

(** ** Words, fields and lines *)

Lemma fields_go_word (w s : string) (cur : list ascii) :
  forallb (fun c => negb (isSpace c)) (list_ascii_of_string w) = true →
  fields_go (w +:+ s) cur = fields_go s (rev (list_ascii_of_string w) ++ cur).
Proof.
  revert cur. induction w as [| c w IH]; intros cur Hw; [reflexivity |].
  cbn [list_ascii_of_string forallb] in Hw. apply andb_true_iff in Hw as [Hc Hw].
  apply negb_true_iff in Hc.
  rewrite string_app_cons. cbn [fields_go list_ascii_of_string rev]. rewrite Hc.
  rewrite IH by exact Hw. rewrite <- app_assoc. reflexivity.
Qed.

Lemma fields_go_end (cur : list ascii) :
  cur ≠ [] → fields_go EmptyString cur = [string_of_list_ascii (rev cur)].
Proof. destruct cur; [done | reflexivity]. Qed.

Lemma fields_go_space (c : ascii) (s : string) (cur : list ascii) :
  isSpace c = true → cur ≠ [] →
  fields_go (String c s) cur = string_of_list_ascii (rev cur) :: fields_go s [].
Proof. intros Hc Hcur. cbn [fields_go]. rewrite Hc. destruct cur; [done | reflexivity]. Qed.

Lemma is_word_parts (w : string) :
  optimizer.is_word w = true →
  (∃ c r, w = String c r ∧ isSpace c = false)
  ∧ forallb (fun c => negb (isSpace c)) (list_ascii_of_string w) = true.
Proof.
  unfold optimizer.is_word. intros H. apply andb_true_iff in H as [Hne Hall].
  split; [| exact Hall]. destruct w as [| c r]; [discriminate |].
  cbn [list_ascii_of_string forallb] in Hall. apply andb_true_iff in Hall as [Hc _].
  apply negb_true_iff in Hc. eauto.
Qed.

Lemma rev_chars_not_nil (w : string) (cur : list ascii) :
  w ≠ EmptyString → rev (list_ascii_of_string w) ++ cur ≠ [].
Proof.
  destruct w as [| c r]; [done |]. intros _ H.
  apply (f_equal (@length ascii)) in H.
  cbn [list_ascii_of_string rev] in H. rewrite !length_app in H. cbn in H. lia.
Qed.

Lemma word_field (w : string) :
  string_of_list_ascii (rev (rev (list_ascii_of_string w) ++ [])) = w.
Proof. rewrite app_nil_r, rev_involutive. apply string_of_list_ascii_of_string. Qed.

Lemma Fields_Join (ws : list string) :
  forallb optimizer.is_word ws = true → Fields (Join ws " ") = ws.
Proof.
  unfold Fields, Join. induction ws as [| w ws IH]; intros Hall; [reflexivity |].
  cbn [forallb] in Hall. apply andb_true_iff in Hall as [Hw Hall].
  destruct (is_word_parts w Hw) as [(c & r & Hcr & Hc) Hchars].
  assert (Hne : w ≠ EmptyString) by (rewrite Hcr; discriminate).
  destruct ws as [| w' ws].
  - cbn [String.concat]. rewrite <- (string_app_nil_r w) at 1.
    rewrite fields_go_word by exact Hchars.
    rewrite fields_go_end by (apply rev_chars_not_nil, Hne).
    rewrite word_field. reflexivity.
  - rewrite concat_cons_cons. rewrite fields_go_word by exact Hchars.
    rewrite string_app_cons, string_app_nil_l.
    rewrite fields_go_space by (reflexivity || apply rev_chars_not_nil, Hne).
    rewrite word_field, IH by exact Hall. reflexivity.
Qed.

Lemma forallb_rev {A} (f : A → bool) (l : list A) :
  forallb f (rev l) = forallb f l.
Proof.
  induction l as [| x l IH]; [reflexivity |].
  cbn [rev forallb]. rewrite forallb_app, IH. cbn. rewrite andb_true_r. apply andb_comm.
Qed.

Lemma is_word_of_chars (cur : list ascii) :
  cur ≠ [] →
  forallb (fun c => negb (isSpace c)) cur = true →
  optimizer.is_word (string_of_list_ascii (rev cur)) = true.
Proof.
  intros Hne Hall. unfold optimizer.is_word.
  rewrite list_ascii_of_string_of_list_ascii, forallb_rev, Hall, andb_true_r.
  destruct (rev cur) as [| x l] eqn:E; [| reflexivity].
  apply (f_equal (@rev ascii)) in E. rewrite rev_involutive in E. done.
Qed.

Lemma fields_go_words (s : string) :
  ∀ cur, forallb (fun c => negb (isSpace c)) cur = true →
         forallb optimizer.is_word (fields_go s cur) = true.
Proof.
  induction s as [| c s IH]; intros cur Hcur.
  - destruct cur as [| x cur]; [reflexivity |].
    cbn [fields_go forallb]. rewrite (is_word_of_chars (x :: cur)) by done. reflexivity.
  - cbn [fields_go]. destruct (isSpace c) eqn:Hc.
    + destruct cur as [| x cur]; [by apply IH |].
      cbn [forallb]. rewrite (is_word_of_chars (x :: cur)) by done. by apply IH.
    + apply IH. cbn [forallb]. rewrite Hc, Hcur. reflexivity.
Qed.

Lemma Fields_words (s : string) : forallb optimizer.is_word (Fields s) = true.
Proof. by apply fields_go_words. Qed.

Lemma fields_go_head (s : string) :
  ∀ cur c, ∃ f fs, fields_go s (cur ++ [c]) = String c f :: fs.
Proof.
  induction s as [| d s IH]; intros cur c.
  - rewrite fields_go_end by (by destruct cur). rewrite rev_app_distr. cbn. eauto.
  - cbn [fields_go]. destruct (isSpace d).
    + destruct (cur ++ [c]) as [| x l] eqn:E; [by destruct cur |].
      rewrite <- E, rev_app_distr. cbn. eauto.
    + apply (IH (d :: cur) c).
Qed.

Lemma Fields_head (c : ascii) (s : string) :
  isSpace c = false → ∃ f fs, Fields (String c s) = String c f :: fs.
Proof. intros Hc. unfold Fields. cbn [fields_go]. rewrite Hc. apply (fields_go_head s [] c). Qed.

(** ** TrimSpace *)

Lemma trimLeft_head (s : string) :
  trimLeft s = EmptyString ∨ ∃ c r, trimLeft s = String c r ∧ isSpace c = false.
Proof.
  induction s as [| c s IH]; [by left |].
  cbn [trimLeft]. destruct (isSpace c) eqn:Hc; [exact IH | right; eauto].
Qed.

Lemma trimLeft_suffix (s : string) :
  ∃ sp, list_ascii_of_string s = sp ++ list_ascii_of_string (trimLeft s).
Proof.
  induction s as [| c s [sp IH]]; [by exists [] |].
  cbn [trimLeft]. destruct (isSpace c).
  - exists (c :: sp). cbn. by rewrite IH.
  - by exists [].
Qed.

Lemma trimLeft_fixed (c : ascii) (s : string) :
  isSpace c = false → trimLeft (String c s) = String c s.
Proof. intros Hc. cbn [trimLeft]. by rewrite Hc. Qed.

Lemma string_rev_chars (s : string) :
  list_ascii_of_string (string_rev s) = rev (list_ascii_of_string s).
Proof. unfold string_rev. apply list_ascii_of_string_of_list_ascii. Qed.

Lemma string_rev_involutive (s : string) : string_rev (string_rev s) = s.
Proof.
  unfold string_rev at 1. rewrite string_rev_chars, rev_involutive.
  apply string_of_list_ascii_of_string.
Qed.

Lemma TrimSpace_head (s : string) :
  TrimSpace s = EmptyString ∨ ∃ c r, TrimSpace s = String c r ∧ isSpace c = false.
Proof.
  unfold TrimSpace.
  destruct (trimLeft_suffix (string_rev (trimLeft s))) as [sp Hsp].
  set (u := trimLeft (string_rev (trimLeft s))) in *.
  destruct (string_rev u) as [| c r] eqn:Hu; [by left |]. right. exists c, r. split; [done |].
  rewrite string_rev_chars in Hsp.
  apply (f_equal (@rev ascii)) in Hsp. rewrite rev_involutive, rev_app_distr in Hsp.
  rewrite <- string_rev_chars, Hu in Hsp. cbn [list_ascii_of_string app] in Hsp.
  destruct (trimLeft_head s) as [He | (c' & r' & He & Hc')]; rewrite He in Hsp.
  - discriminate Hsp.
  - cbn [list_ascii_of_string] in Hsp. by injection Hsp as -> _.
Qed.

Lemma TrimSpace_fixed (s : string) (c d : ascii) (m m' : list ascii) :
  list_ascii_of_string s = c :: m →
  list_ascii_of_string s = m' ++ [d] →
  isSpace c = false → isSpace d = false →
  TrimSpace s = s.
Proof.
  intros Hfirst Hlast Hc Hd. unfold TrimSpace.
  assert (Hs : trimLeft s = s).
  { destruct s as [| x s]; [reflexivity |]. injection Hfirst as -> _. by apply trimLeft_fixed. }
  rewrite Hs.
  assert (Hr : ∃ r, string_rev s = String d r).
  { unfold string_rev. rewrite Hlast, rev_app_distr. cbn. eauto. }
  destruct Hr as [r Hr]. rewrite Hr, trimLeft_fixed by exact Hd.
  rewrite <- Hr. apply string_rev_involutive.
Qed.

(** ** Lines of words *)

Lemma Join_words_chars (ws : list string) :
  forallb optimizer.is_word ws = true →
  ∀ c, In c (list_ascii_of_string (Join ws " ")) → isSpace c = false ∨ c = " "%char.
Proof.
  unfold Join. induction ws as [| w ws IH]; intros Hall c Hin; [destruct Hin |].
  cbn [forallb] in Hall. apply andb_true_iff in Hall as [Hw Hall].
  destruct (is_word_parts w Hw) as [_ Hchars].
  assert (Hword : ∀ c, In c (list_ascii_of_string w) → isSpace c = false).
  { intros x Hx. apply negb_true_iff. revert x Hx. by apply forallb_forall. }
  destruct ws as [| w' ws]; [left; by apply Hword |].
  rewrite concat_cons_cons, !list_ascii_of_string_app in Hin.
  apply in_app_or in Hin as [Hin | Hin]; [left; by apply Hword |].
  apply in_app_or in Hin as [Hin | Hin]; [| by apply IH].
  cbn in Hin. right. destruct Hin as [<- | []]. reflexivity.
Qed.

Lemma Join_words_no_newline (ws : list string) :
  forallb optimizer.is_word ws = true →
  ¬ In newline (list_ascii_of_string (Join ws " ")).
Proof.
  intros Hall Hin. destruct (Join_words_chars ws Hall _ Hin) as [H | H]; discriminate H.
Qed.

Lemma Join_words_last (ws : list string) :
  forallb optimizer.is_word ws = true → ws ≠ [] →
  ∃ m d, list_ascii_of_string (Join ws " ") = m ++ [d] ∧ isSpace d = false.
Proof.
  unfold Join. induction ws as [| w ws IH]; intros Hall Hne; [done |].
  cbn [forallb] in Hall. apply andb_true_iff in Hall as [Hw Hall].
  destruct ws as [| w' ws].
  - cbn [String.concat]. destruct (is_word_parts w Hw) as [(c & r & -> & Hc) Hchars].
    destruct (exists_last (l := list_ascii_of_string (String c r))) as (m & d & E); [done |].
    exists m, d. split; [exact E |].
    apply negb_true_iff.
    apply (proj1 (forallb_forall (fun c => negb (isSpace c)) _) Hchars d).
    rewrite E. apply in_or_app. right. by left.
  - destruct (IH Hall) as (m & d & E & Hd); [done |].
    rewrite concat_cons_cons, !list_ascii_of_string_app, E.
    exists (list_ascii_of_string w ++ list_ascii_of_string " " ++ m), d.
    split; [by rewrite <- !app_assoc | exact Hd].
Qed.

Lemma prefix_hash (c : ascii) (r r' : string) :
  HasPrefix (String c r) "#" = HasPrefix (String c r') "#".
Proof.
  unfold HasPrefix. cbn [String.prefix].
  destruct (ascii_dec "#" c); [by destruct r, r' | reflexivity].
Qed.

Lemma parse_text_line_words (command : string) (ws : list string) :
  optimizer.is_word command = true →
  HasPrefix command "#" = false →
  forallb optimizer.is_word ws = true →
  optimizer.parse_text_line (Join (command :: ws) " ")
  = Some (optimizer.mkInstruction command ws).
Proof.
  intros Hcommand Hhash Hws.
  assert (Hall : forallb optimizer.is_word (command :: ws) = true)
    by (cbn [forallb]; by rewrite Hcommand, Hws).
  destruct (is_word_parts command Hcommand) as [(c & r & -> & Hc) _].
  destruct (Join_words_last (String c r :: ws) Hall) as (m & d & Hlast & Hd); [done |].
  assert (Hfirst : ∃ r', Join (String c r :: ws) " " = String c r').
  { unfold Join. destruct ws as [| w ws]; [by eexists |].
    rewrite concat_cons_cons, string_app_cons. by eexists. }
  destruct Hfirst as [r' Hfirst].
  unfold optimizer.parse_text_line.
  rewrite (TrimSpace_fixed _ c d (list_ascii_of_string r') m); try done;
    [| by rewrite Hfirst].
  rewrite Fields_Join by exact Hall.
  rewrite Hfirst, (prefix_hash c r' r), Hhash. reflexivity.
Qed.

Lemma parse_text_line_wordy (line : string) (inst : optimizer.Instruction) :
  optimizer.parse_text_line line = Some inst → optimizer.wordy inst = true.
Proof.
  unfold optimizer.parse_text_line.
  destruct (TrimSpace_head line) as [-> | (c & r & -> & Hc)]; [discriminate |].
  cbn [String.eqb orb]. destruct (HasPrefix (String c r) "#") eqn:Hhash; [discriminate |].
  pose proof (Fields_words (String c r)) as Hwords.
  destruct (Fields_head c r Hc) as (f & fs & E). rewrite E in Hwords |- *.
  intros [= <-]. unfold optimizer.wordy. cbn [optimizer.Command optimizer.Args].
  cbn [forallb] in Hwords. apply andb_true_iff in Hwords as [-> ->].
  rewrite (prefix_hash c f r), Hhash. reflexivity.
Qed.

Lemma ParseDockerfile_wordy (content : string) :
  forallb optimizer.wordy (optimizer.Instructions (optimizer.ParseDockerfile content)) = true.
Proof.
  apply forallb_forall. intros inst Hin. cbn [optimizer.ParseDockerfile optimizer.Instructions] in Hin.
  apply list_elem_of_In, list_elem_of_omap in Hin as (line & _ & Hline).
  by apply (parse_text_line_wordy line).
Qed.

(** X19. [ParseDockerfile] never returns an instruction with an empty
    command, a command that starts a comment, or a command or argument
    that is empty or holds white space. *)
Theorem ParseDockerfile_words (content : string) :
  forallb optimizer.wordy (optimizer.Instructions (optimizer.ParseDockerfile content)) = true.
Proof. apply ParseDockerfile_wordy. Qed.

(** ** Formatting and parsing again *)

Lemma formatDockerfile_cons (inst : optimizer.Instruction)
    (rest : list optimizer.Instruction) :
  optimizer.formatDockerfile (inst :: rest)
  = optimizer.format_line inst +:+ optimizer.formatDockerfile rest.
Proof.
  unfold optimizer.formatDockerfile. cbn [List.map].
  destruct rest as [| next rest].
  - cbn [List.map String.concat]. by rewrite string_app_nil_r.
  - cbn [List.map]. rewrite concat_cons_cons, string_app_nil_l. reflexivity.
Qed.

Lemma omap_cons_Some {A B} (f : A → option B) (x : A) (y : B) (l : list A) :
  f x = Some y → omap f (x :: l) = y :: omap f l.
Proof. intros H. cbn. by rewrite H. Qed.

Lemma split_go_line (sep : ascii) (line rest : string) (cur : list ascii) :
  ¬ In sep (list_ascii_of_string line) →
  split_go sep (line +:+ String sep rest) cur
  = string_of_list_ascii (rev cur ++ list_ascii_of_string line) :: split_go sep rest [].
Proof.
  revert cur. induction line as [| c line IH]; intros cur Hnot.
  - rewrite string_app_nil_l. cbn [split_go]. rewrite Ascii.eqb_refl.
    cbn [list_ascii_of_string]. by rewrite app_nil_r.
  - rewrite string_app_cons. cbn [split_go list_ascii_of_string] in *.
    destruct (Ascii.eqb_spec c sep) as [-> | Hne]; [cbn in Hnot; tauto |].
    rewrite IH by (cbn in Hnot; tauto). cbn [rev]. by rewrite <- app_assoc.
Qed.

Lemma Split_line (line rest : string) :
  ¬ In newline (list_ascii_of_string line) →
  Split (line +:+ nl +:+ rest) newline = line :: Split rest newline.
Proof.
  intros Hnot. unfold Split, nl. rewrite string_app_cons, string_app_nil_l.
  rewrite split_go_line by exact Hnot. cbn [rev app].
  by rewrite string_of_list_ascii_of_string.
Qed.

Lemma is_phrase_words (p : string) :
  optimizer.is_phrase p = true ↔
  ∃ ws, ws ≠ [] ∧ forallb optimizer.is_word ws = true ∧ p = Join ws " ".
Proof.
  unfold optimizer.is_phrase. split.
  - pose proof (Fields_words p) as Hwords.
    destruct (Fields p) as [| w ws] eqn:E; [discriminate |].
    intros H. apply String.eqb_eq in H. exists (w :: ws). done.
  - intros (ws & Hne & Hwords & ->). rewrite Fields_Join by exact Hwords.
    destruct ws; [done | apply String.eqb_refl].
Qed.

Lemma is_phrase_Fields (p : string) :
  optimizer.is_phrase p = true → Join (Fields p) " " = p ∧ Fields p ≠ [].
Proof.
  unfold optimizer.is_phrase. destruct (Fields p) as [| w ws]; [discriminate |].
  intros H. apply String.eqb_eq in H. done.
Qed.

Lemma words_phrase (ws : list string) :
  forallb optimizer.is_word ws = true → ws ≠ [] →
  optimizer.is_phrase (Join ws " ") = true.
Proof. intros Hwords Hne. apply is_phrase_words. eauto. Qed.

(** The line of an instruction whose arguments, joined, are a phrase. *)
Lemma format_line_phrase (inst : optimizer.Instruction) :
  optimizer.Args inst = [] ∨ optimizer.is_phrase (Join (optimizer.Args inst) " ") = true →
  optimizer.format_line inst
  = Join (optimizer.Command inst :: Fields (Join (optimizer.Args inst) " ")) " " +:+ nl.
Proof.
  unfold optimizer.format_line. intros [-> | Hp].
  - cbn [Join String.concat]. unfold Fields. cbn [fields_go String.concat].
    by rewrite string_app_nil_l.
  - destruct (is_phrase_Fields _ Hp) as [Hjoin Hne].
    destruct (optimizer.Args inst) as [| a args] eqn:Hargs.
    { cbn in Hp. discriminate Hp. }
    destruct (Fields (Join (a :: args) " ")) as [| w ws] eqn:E; [done |].
    unfold Join in *. rewrite concat_cons_cons, Hjoin, !string_app_assoc. reflexivity.
Qed.

Lemma settled_line (inst : optimizer.Instruction) :
  optimizer.settled inst = true →
  optimizer.is_word (optimizer.Command inst) = true
  ∧ HasPrefix (optimizer.Command inst) "#" = false
  ∧ (optimizer.Args inst = [] ∨ optimizer.is_phrase (Join (optimizer.Args inst) " ") = true).
Proof.
  unfold optimizer.settled. destruct (optimizer.is_RUN inst) eqn:HR.
  - destruct inst as [command args]. unfold optimizer.is_RUN in HR.
    cbn [optimizer.Command optimizer.Args] in *. apply String.eqb_eq in HR as ->.
    destruct args as [| p [| ? ?]]; try discriminate. intros Hp.
    split; [reflexivity |]. split; [reflexivity |]. right. exact Hp.
  - unfold optimizer.wordy. intros H.
    apply andb_true_iff in H as [H Hargs]. apply andb_true_iff in H as [Hcommand Hhash].
    apply negb_true_iff in Hhash. split; [exact Hcommand |]. split; [exact Hhash |].
    destruct (optimizer.Args inst) as [| a args]; [by left |].
    right. by apply words_phrase.
Qed.

Lemma parse_format_line (inst : optimizer.Instruction) :
  optimizer.settled inst = true →
  ∃ line, optimizer.format_line inst = line +:+ nl
          ∧ ¬ In newline (list_ascii_of_string line)
          ∧ optimizer.parse_text_line line = Some (optimizer.spread inst).
Proof.
  intros Hs. destruct (settled_line inst Hs) as (Hcommand & Hhash & Hargs).
  exists (Join (optimizer.Command inst :: Fields (Join (optimizer.Args inst) " ")) " ").
  assert (Hwords : forallb optimizer.is_word
                     (optimizer.Command inst :: Fields (Join (optimizer.Args inst) " ")) = true).
  { cbn [forallb]. by rewrite Hcommand, Fields_words. }
  split; [by apply format_line_phrase |].
  split; [by apply Join_words_no_newline |].
  apply parse_text_line_words; [exact Hcommand | exact Hhash | apply Fields_words].
Qed.

Lemma Split_formatDockerfile (instructions : list optimizer.Instruction) :
  forallb optimizer.settled instructions = true →
  omap optimizer.parse_text_line (Split (optimizer.formatDockerfile instructions) newline)
  = List.map optimizer.spread instructions.
Proof.
  induction instructions as [| inst rest IH]; intros Hall; [reflexivity |].
  cbn [forallb] in Hall. apply andb_true_iff in Hall as [Hs Hall].
  destruct (parse_format_line inst Hs) as (line & Hline & Hnl & Hparse).
  rewrite formatDockerfile_cons, Hline, string_app_assoc, Split_line by exact Hnl.
  rewrite (omap_cons_Some _ _ _ _ Hparse), IH by exact Hall. reflexivity.
Qed.

Lemma spread_wordy (inst : optimizer.Instruction) :
  optimizer.wordy inst = true → optimizer.spread inst = inst.
Proof.
  unfold optimizer.wordy, optimizer.spread. intros H.
  apply andb_true_iff in H as [_ Hargs]. rewrite Fields_Join by exact Hargs.
  by destruct inst.
Qed.

Lemma wordy_settled (inst : optimizer.Instruction) :
  optimizer.wordy inst = true → optimizer.has_command inst = true →
  optimizer.is_RUN inst = false → optimizer.settled inst = true.
Proof. unfold optimizer.settled. by intros ? ? ->. Qed.

(** X20. Formatting instructions whose command and arguments are ASCII
    words (not empty, no white space, the command not starting with [#])
    and parsing the text again gives the instructions back. *)
Theorem ParseDockerfile_formatDockerfile (instructions : list optimizer.Instruction) :
  is_ascii (optimizer.formatDockerfile instructions) = true →
  forallb optimizer.wordy instructions = true →
  optimizer.ParseDockerfile (optimizer.formatDockerfile instructions)
  = optimizer.mkDockerfile instructions.
Proof.
  intros _ Hall. unfold optimizer.ParseDockerfile. f_equal.
  induction instructions as [| inst rest IH]; [reflexivity |].
  cbn [forallb] in Hall. apply andb_true_iff in Hall as [Hw Hall].
  unfold optimizer.wordy in Hw.
  apply andb_true_iff in Hw as [Hw Hargs]. apply andb_true_iff in Hw as [Hcommand Hhash].
  apply negb_true_iff in Hhash.
  assert (Hwords : forallb optimizer.is_word (optimizer.Command inst :: optimizer.Args inst)
                   = true) by (cbn [forallb]; by rewrite Hcommand, Hargs).
  assert (Hline : optimizer.format_line inst
                  = Join (optimizer.Command inst :: optimizer.Args inst) " " +:+ nl).
  { rewrite format_line_phrase.
    - by rewrite Fields_Join.
    - destruct (optimizer.Args inst) as [| a args] eqn:E; [by left |].
      right. by apply words_phrase. }
  rewrite formatDockerfile_cons, Hline, string_app_assoc.
  rewrite Split_line by (by apply Join_words_no_newline).
  rewrite (omap_cons_Some _ _ _ _ (parse_text_line_words _ _ Hcommand Hhash Hargs)).
  rewrite IH by exact Hall. by destruct inst.
Qed.

(** ** Optimizing twice *)

Lemma Join_app_words (a b : list string) (sep : string) :
  a ≠ [] → b ≠ [] → Join (a ++ b) sep = Join a sep +:+ sep +:+ Join b sep.
Proof.
  unfold Join. intros Ha Hb. induction a as [| x a IH]; [done |].
  destruct a as [| y a].
  - destruct b as [| z b]; [done |]. cbn [app]. by rewrite concat_cons_cons.
  - cbn [app] in *. rewrite !concat_cons_cons, IH by done.
    by rewrite !string_app_assoc.
Qed.

Lemma phrases_join (ps : list string) :
  ps ≠ [] → forallb optimizer.is_phrase ps = true →
  optimizer.is_phrase (Join ps " && ") = true.
Proof.
  induction ps as [| p ps IH]; intros Hne Hall; [done |].
  cbn [forallb] in Hall. apply andb_true_iff in Hall as [Hp Hall].
  destruct ps as [| q ps]; [exact Hp |].
  specialize (IH ltac:(done) Hall).
  apply is_phrase_words in Hp as (wp & Hwp & Hwords_p & ->).
  apply is_phrase_words in IH as (wq & Hwq & Hwords_q & Hq).
  apply is_phrase_words. exists (wp ++ "&&" :: wq).
  split; [by destruct wp |]. split.
  - rewrite forallb_app. cbn [forallb]. by rewrite Hwords_p, Hwords_q.
  - unfold Join in *. rewrite concat_cons_cons, Hq.
    fold (Join (wp ++ "&&" :: wq) " ").
    rewrite (Join_app_words wp ("&&" :: wq)) by done.
    unfold Join. destruct wq as [| w wq]; [done |].
    rewrite concat_cons_cons. reflexivity.
Qed.

Lemma combine_from_settled (instructions : list optimizer.Instruction) :
  ∀ runCommands,
    forallb optimizer.wordy instructions = true →
    forallb optimizer.has_command instructions = true →
    forallb optimizer.is_phrase runCommands = true →
    forallb optimizer.settled (optimizer.combine_from instructions runCommands) = true.
Proof.
  assert (Hflush : ∀ runCommands,
             forallb optimizer.is_phrase runCommands = true →
             forallb optimizer.settled (optimizer.flush [] runCommands) = true).
  { intros [| p ps] Hps; [reflexivity |].
    cbn [optimizer.flush app forallb]. rewrite andb_true_r.
    unfold optimizer.settled. rewrite merged_is_RUN.
    cbn [optimizer.merged optimizer.Args]. by apply phrases_join. }
  induction instructions as [| inst rest IH]; intros runCommands Hwordy Hcommand Hphrases.
  - by apply Hflush.
  - cbn [forallb] in Hwordy, Hcommand.
    apply andb_true_iff in Hwordy as [Hw Hwordy].
    apply andb_true_iff in Hcommand as [Hc Hcommand].
    cbn [optimizer.combine_from]. destruct (optimizer.is_RUN inst) eqn:HR.
    + apply IH; [done | done |]. rewrite forallb_app, Hphrases. cbn [forallb andb].
      rewrite andb_true_r. unfold optimizer.has_command in Hc. rewrite HR in Hc.
      unfold optimizer.wordy in Hw. apply andb_true_iff in Hw as [_ Hargs].
      apply words_phrase; [exact Hargs |]. by destruct (optimizer.Args inst).
    + rewrite forallb_app. cbn [forallb]. rewrite Hflush by exact Hphrases.
      rewrite (wordy_settled inst) by assumption. by apply IH.
Qed.

Lemma is_RUN_spread (inst : optimizer.Instruction) :
  optimizer.is_RUN (optimizer.spread inst) = optimizer.is_RUN inst.
Proof. reflexivity. Qed.

Lemma combine_from_spread (instructions : list optimizer.Instruction) :
  optimizer.combined instructions = true →
  forallb optimizer.settled instructions = true →
  optimizer.combine_from (List.map optimizer.spread instructions) [] = instructions.
Proof.
  induction instructions as [| inst rest IH]; [reflexivity |].
  cbn [optimizer.combined forallb List.map optimizer.combine_from]. intros H Hall.
  apply andb_true_iff in H as [Hhead Hrest]. apply andb_true_iff in Hall as [Hs Hall].
  specialize (IH Hrest Hall). rewrite is_RUN_spread.
  unfold optimizer.settled in Hs.
  destruct (optimizer.is_RUN inst) eqn:HR.
  - destruct inst as [command args]. unfold optimizer.is_RUN in HR.
    cbn [optimizer.Command optimizer.Args optimizer.spread app] in HR, Hhead, Hs |- *.
    apply String.eqb_eq in HR as ->.
    destruct args as [| p [| ? ?]]; try discriminate.
    change (Join [p] " ") with p.
    destruct (is_phrase_Fields p Hs) as [-> _].
    destruct rest as [| next rest]; [reflexivity |].
    cbn [andb] in Hhead. apply negb_true_iff in Hhead.
    cbn [List.map optimizer.combine_from] in IH |- *.
    rewrite is_RUN_spread, Hhead in IH |- *.
    cbn [optimizer.flush app] in IH |- *. unfold optimizer.merged.
    change (Join [p] " && ") with p.
    rewrite IH. reflexivity.
  - cbn [optimizer.flush app]. rewrite IH, spread_wordy by exact Hs. reflexivity.
Qed.

(** X21. Optimizing the optimizer's own output changes nothing: when the
    Dockerfile is ASCII and none of its RUN lines is without arguments, the
    text [Optimize] returns, parsed and optimized again, is that same
    text. *)
Theorem Optimize_twice (content : string) :
  is_ascii content = true →
  forallb optimizer.has_command
    (optimizer.Instructions (optimizer.ParseDockerfile content)) = true →
  optimizer.Optimize
    (optimizer.ParseDockerfile (optimizer.Optimize (optimizer.ParseDockerfile content)))
  = optimizer.Optimize (optimizer.ParseDockerfile content).
Proof.
  intros _ Hcommand. pose proof (ParseDockerfile_wordy content) as Hwordy.
  set (doc := optimizer.ParseDockerfile content) in *.
  unfold optimizer.Optimize. rewrite !combineRunCommands_from.
  pose proof (combine_from_settled (optimizer.Instructions doc) [] Hwordy Hcommand eq_refl)
    as Hsettled.
  destruct (combine_from_combined (optimizer.Instructions doc) []) as [Hcombined _].
  unfold optimizer.ParseDockerfile at 1. cbn [optimizer.Instructions].
  rewrite Split_formatDockerfile by exact Hsettled.
  rewrite combine_from_spread by assumption. reflexivity.
Qed.

(** ** The JSON array scanner *)



Lemma string_length_app (a b : string) :
  String.length (a +:+ b) = (String.length a + String.length b)%nat.
Proof.
  induction a as [| c a IH]; [reflexivity |].
  rewrite string_app_cons. cbn [String.length]. by rewrite IH.
Qed.








(** ** The hints of a syntax error *)

Lemma hint_fold (errMsg : string) (entries : list (string * string)) :
  ∀ hints, fold_left (hint_step errMsg) entries hints
           = hints ++ matching_hints errMsg entries.
Proof.
  unfold matching_hints.
  induction entries as [| [pattern hint] entries IH]; intros hints.
  - by rewrite app_nil_r.
  - cbn [fold_left hint_step List.filter fst].
    destruct (Contains (ToLower errMsg) pattern).
    + rewrite IH, <- app_assoc. reflexivity.
    + apply IH.
Qed.

Lemma Permutation_List_filter {A} (f : A → bool) (l l' : list A) :
  l ≡ₚ l' → List.filter f l ≡ₚ List.filter f l'.
Proof.
  induction 1 as [| x l l' _ IH | x y l | l l' l'' _ IH1 _ IH2].
  - reflexivity.
  - cbn. destruct (f x); [by constructor | exact IH].
  - cbn. destruct (f x), (f y); try reflexivity. apply perm_swap.
  - by etrans.
Qed.

Lemma matching_hints_order (errMsg : string)
    (range_order : gmap string string → list (string * string)) :
  order_valid range_order →
  matching_hints errMsg (range_order commonErrors)
  ≡ₚ matching_hints errMsg (map_to_list commonErrors).
Proof.
  intros Hvalid. unfold matching_hints.
  apply Permutation_map, Permutation_List_filter, Hvalid.
Qed.

Lemma getSyntaxErrorHints_matching (errMsg : string)
    (range_order : gmap string string → list (string * string)) :
  getSyntaxErrorHints range_order errMsg
  = match matching_hints errMsg (range_order commonErrors) with
    | [] => [general_hint]
    | _ => matching_hints errMsg (range_order commonErrors)
    end.
Proof. unfold getSyntaxErrorHints. rewrite hint_fold. reflexivity. Qed.

Lemma hints_or_general (got expected : list string) :
  got ≡ₚ expected →
  match got with [] => [general_hint] | _ => got end ≠ []
  ∧ (expected = [] → match got with [] => [general_hint] | _ => got end = [general_hint])
  ∧ (expected ≠ [] → match got with [] => [general_hint] | _ => got end ≡ₚ expected).
Proof.
  intros Hperm. destruct got as [| h hints].
  - split; [discriminate |]. split; [reflexivity |]. intros Hne.
    apply Permutation_nil_l in Hperm. congruence.
  - split; [discriminate |]. split; [| intros _; exact Hperm]. intros Hnil.
    rewrite Hnil in Hperm. by apply Permutation_nil_r in Hperm.
Qed.

(** X23. [getSyntaxErrorHints] never returns an empty list. On an ASCII
    message it returns the hints of the patterns found in the message put
    to lower case, in the order in which the map of patterns is walked, and
    the one general hint when no pattern is found. *)
Theorem getSyntaxErrorHints_not_empty (errMsg : string)
    (range_order : gmap string string → list (string * string)) :
  order_valid range_order →
  getSyntaxErrorHints range_order errMsg ≠ []
  ∧ (is_ascii errMsg = true →
     (matching_hints errMsg (map_to_list commonErrors) = [] →
      getSyntaxErrorHints range_order errMsg = [general_hint])
     ∧ (matching_hints errMsg (map_to_list commonErrors) ≠ [] →
        getSyntaxErrorHints range_order errMsg
        ≡ₚ matching_hints errMsg (map_to_list commonErrors))).
Proof.
  intros Hvalid. rewrite getSyntaxErrorHints_matching.
  destruct (hints_or_general _ _ (matching_hints_order errMsg range_order Hvalid))
    as (H1 & H2 & H3).
  split; [exact H1 |]. intros _. split; [exact H2 | exact H3].
Qed.

Lemma prefix_chars (p s : string) :
  String.prefix p s = true →
  ∀ c, In c (list_ascii_of_string p) → In c (list_ascii_of_string s).
Proof.
  revert s. induction p as [| a p IH]; intros s Hp c Hin; [destruct Hin |].
  destruct s as [| b s]; [discriminate Hp |]. cbn [String.prefix] in Hp.
  destruct (ascii_dec a b) as [-> | ?]; [| discriminate Hp].
  cbn [list_ascii_of_string] in *. destruct Hin as [-> | Hin]; [by left |].
  right. by apply (IH s).
Qed.

Lemma Contains_chars (s sub : string) :
  Contains s sub = true →
  ∀ c, In c (list_ascii_of_string sub) → In c (list_ascii_of_string s).
Proof.
  induction s as [| a s IH]; cbn [Contains]; intros H c Hin.
  - destruct (String.prefix sub EmptyString) eqn:Hp; [| discriminate H].
    by apply (prefix_chars sub EmptyString).
  - destruct (String.prefix sub (String a s)) eqn:Hp.
    + by apply (prefix_chars sub (String a s)).
    + cbn [list_ascii_of_string]. right. by apply IH.
Qed.

Lemma lower_not_upper (c : ascii) :
  let n := Ascii.nat_of_ascii (lower c) in ¬ (65 <= n <= 90)%nat.
Proof.
  cbv zeta. unfold lower.
  destruct ((65 <=? Ascii.nat_of_ascii c) && (Ascii.nat_of_ascii c <=? 90))%nat eqn:E.
  - apply andb_true_iff in E as [E1 E2].
    apply Nat.leb_le in E1. apply Nat.leb_le in E2.
    rewrite Ascii.nat_ascii_embedding by lia. lia.
  - intros [H1 H2]. apply Nat.leb_le in H1. apply Nat.leb_le in H2.
    by rewrite H1, H2 in E.
Qed.

Lemma ToLower_no_upper (s : string) (c : ascii) :
  In c (list_ascii_of_string (ToLower s)) →
  ¬ (65 <= Ascii.nat_of_ascii c <= 90)%nat.
Proof.
  induction s as [| a s IH]; cbn [ToLower list_ascii_of_string]; [intros [] |].
  intros [<- | Hin]; [apply lower_not_upper | by apply IH].
Qed.

Lemma upper_pattern_never_found (errMsg pattern : string) (c : ascii) :
  In c (list_ascii_of_string pattern) →
  (65 <= Ascii.nat_of_ascii c <= 90)%nat →
  Contains (ToLower errMsg) pattern = false.
Proof.
  intros Hin Hupper. destruct (Contains (ToLower errMsg) pattern) eqn:E; [| reflexivity].
  destruct (ToLower_no_upper errMsg c); [| exact Hupper].
  by apply (Contains_chars _ pattern).
Qed.

Lemma matching_hints_In (errMsg : string) (entries : list (string * string)) (h : string) :
  In h (matching_hints errMsg entries) →
  ∃ p, In (p, h) entries ∧ Contains (ToLower errMsg) p = true.
Proof.
  unfold matching_hints. intros Hin. apply in_map_iff in Hin as ([p h'] & <- & Hin).
  apply filter_In in Hin as [Hin Hc]. eauto.
Qed.

Lemma commonErrors_entries (p h : string) :
  In (p, h) (map_to_list commonErrors) →
  In (p, h)
     [("unknown instruction",
       "Instruction ka naam uppercase mein likhein (jaise FROM, RUN, COPY)");
      ("missing separator",
       "Instruction aur uske arguments ke beech space daalna zaroori hai");
      ("unexpected EOF",
       "Kisi instruction ya quote ko close karna bhool gaye hain");
      ("empty continuation",
       "Line continuation (" +:+ String backslash ") ke baad kuch content hona chahiye");
      ("invalid reference format",
       "Base image ya stage ka reference format sahi nahi hai");
      ("invalid port",
       "Port number valid range (1-65535) mein hona chahiye");
      ("invalid syntax",
       "Dockerfile syntax check karein aur documentation follow karein")].
Proof.
  intros Hin. apply list_elem_of_In, elem_of_map_to_list in Hin.
  unfold commonErrors in Hin. apply elem_of_list_to_map_2 in Hin.
  by apply list_elem_of_In.
Qed.

(** X24. The hint for [unexpected EOF] is never given: the message is put to
    lower case before the patterns are looked for, and this pattern has
    upper-case letters. *)
Theorem unexpected_EOF_hint_never_given (errMsg : string)
    (range_order : gmap string string → list (string * string)) :
  order_valid range_order →
  commonErrors !! "unexpected EOF"
  = Some "Kisi instruction ya quote ko close karna bhool gaye hain"
  ∧ ¬ In "Kisi instruction ya quote ko close karna bhool gaye hain"
         (getSyntaxErrorHints range_order errMsg).
Proof.
  intros Hvalid. split; [by vm_compute |].
  rewrite getSyntaxErrorHints_matching. intros Hin.
  assert (Hin' : In "Kisi instruction ya quote ko close karna bhool gaye hain"
                    (matching_hints errMsg (range_order commonErrors))).
  { destruct (matching_hints errMsg (range_order commonErrors)) as [| h hints];
      [| exact Hin].
    destruct Hin as [Hg | []]. discriminate Hg. }
  apply matching_hints_In in Hin' as (p & Hentry & Hfound).
  apply list_elem_of_In in Hentry. rewrite (Hvalid commonErrors) in Hentry.
  apply list_elem_of_In, commonErrors_entries in Hentry.
  assert (Hp : p = "unexpected EOF").
  { cbn [In] in Hentry.
    destruct Hentry as [H | [H | [H | [H | [H | [H | [H | []]]]]]]];
      apply pair_equal_spec in H as [H1 H2]; try discriminate H2; by symmetry. }
  subst p.
  rewrite (upper_pattern_never_found errMsg "unexpected EOF" "E") in Hfound;
    [discriminate Hfound | cbn; tauto |].
  change (Ascii.nat_of_ascii "E") with 69%nat. lia.
Qed.

(** ** The command line splitter *)

Lemma len_positive (s : string) : (0 <? len s) = negb (String.eqb s EmptyString).
Proof.
  destruct s as [| c s]; [reflexivity |]. unfold len.
  cbn [String.length String.eqb negb]. apply Z.ltb_lt. lia.
Qed.

Lemma WriteRune_not_empty (b : string) (c : ascii) : WriteRune b c ≠ EmptyString.
Proof. unfold WriteRune. destruct b; discriminate. Qed.

Lemma split_step_parts (st : SplitState) (char : ascii) :
  Forall (fun part => part ≠ EmptyString) (sp_parts st) →
  Forall (fun part => part ≠ EmptyString) (sp_parts (split_step st char)).
Proof.
  intros Hparts. unfold split_step.
  destruct (sp_escaped st); [exact Hparts |].
  destruct (Ascii.eqb char backslash); [exact Hparts |].
  destruct (Ascii.eqb char dquote); [exact Hparts |].
  destruct (Ascii.eqb char " " && negb (sp_inQuotes st)); [| exact Hparts].
  rewrite len_positive. destruct (sp_current st) as [| c s] eqn:E; [exact Hparts |].
  cbn [String.eqb negb sp_parts]. apply Forall_app. split; [exact Hparts |].
  by constructor.
Qed.

Lemma split_fold_parts (chars : list ascii) :
  ∀ st, Forall (fun part => part ≠ EmptyString) (sp_parts st) →
        Forall (fun part => part ≠ EmptyString)
               (sp_parts (fold_left split_step chars st)).
Proof.
  induction chars as [| c chars IH]; intros st Hparts; [exact Hparts |].
  cbn [fold_left]. by apply IH, split_step_parts.
Qed.

(** X25. [splitCommand] never returns an empty part: a pair of quotes with
    nothing between them, or spaces in a row, add nothing to the result. *)
Theorem splitCommand_no_empty_part (line : string) :
  Forall (fun part => part ≠ EmptyString) (splitCommand line).
Proof.
  unfold splitCommand, split_finish.
  pose proof (split_fold_parts (list_ascii_of_string line)
                (mkSplitState [] EmptyString false false) (List.Forall_nil _)) as Hparts.
  destruct (fold_left split_step (list_ascii_of_string line)
              (mkSplitState [] EmptyString false false)) as [parts current inQuotes escaped].
  cbn [sp_parts sp_current] in *. rewrite len_positive.
  destruct current as [| c s]; [exact Hparts |].
  cbn [String.eqb negb]. apply Forall_app. split; [exact Hparts |]. by constructor.
Qed.

Lemma split_items (items : list quoted_item) :
  ∀ parts current,
    forallb (item_ok dquote) items = true →
    fold_left split_step (list_ascii_of_string (items_text items))
              (mkSplitState parts current true false)
    = mkSplitState parts (current +:+ string_of_list_ascii (List.map item_value items))
                   true false.
Proof.
  induction items as [| i items IH]; intros parts current Hok.
  - cbn. by rewrite string_app_nil_r.
  - cbn [forallb] in Hok. apply andb_true_iff in Hok as [Hi Hok].
    cbn [items_text fold_right]. fold (items_text items).
    rewrite list_ascii_of_string_app, fold_left_app.
    destruct i as [c | c]; cbn [item_text item_ok item_value list_ascii_of_string
                                fold_left List.map string_of_list_ascii] in Hi |- *.
    + apply andb_true_iff in Hi as [Hq Hb].
      apply negb_true_iff in Hq. apply negb_true_iff in Hb.
      unfold split_step at 2. cbn [sp_escaped sp_parts sp_current sp_inQuotes].
      rewrite Hb, Hq. cbn [negb]. rewrite andb_false_r.
      rewrite IH by exact Hok. unfold WriteRune.
      by rewrite string_app_assoc, string_app_cons, string_app_nil_l.
    + unfold split_step at 3. cbn [sp_escaped sp_parts sp_current sp_inQuotes].
      unfold backslash at 1. rewrite Ascii.eqb_refl. fold backslash.
      unfold split_step at 2. cbn [sp_escaped sp_parts sp_current sp_inQuotes].
      rewrite IH by exact Hok. unfold WriteRune.
      by rewrite string_app_assoc, string_app_cons, string_app_nil_l.
Qed.

Lemma split_segment (seg : segment) (parts : list string) (current : string) :
  segment_ok seg = true →
  fold_left split_step (list_ascii_of_string (segment_text seg))
            (mkSplitState parts current false false)
  = mkSplitState parts (current +:+ segment_value seg) false false.
Proof.
  intros Hok. destruct seg as [c | c | items];
    cbn [segment_text segment_value segment_ok] in Hok |- *.
  - apply andb_true_iff in Hok as [Hok Hb]. apply andb_true_iff in Hok as [Hs Hq].
    apply negb_true_iff in Hs, Hq, Hb.
    cbn [list_ascii_of_string fold_left]. unfold split_step.
    cbn [sp_escaped sp_parts sp_current sp_inQuotes]. rewrite Hb, Hq, Hs. reflexivity.
  - cbn [list_ascii_of_string fold_left].
    unfold split_step at 2. cbn [sp_escaped sp_parts sp_current sp_inQuotes].
    unfold backslash at 1. rewrite Ascii.eqb_refl. fold backslash.
    unfold split_step. cbn [sp_escaped sp_parts sp_current sp_inQuotes]. reflexivity.
  - cbn [list_ascii_of_string fold_left]. rewrite list_ascii_of_string_app, fold_left_app.
    unfold split_step at 3. cbn [sp_escaped sp_parts sp_current sp_inQuotes].
    change (Ascii.eqb dquote backslash) with false. cbv iota.
    unfold dquote at 1. rewrite Ascii.eqb_refl. fold dquote. cbn [negb].
    rewrite split_items by exact Hok.
    cbn [list_ascii_of_string fold_left]. unfold split_step.
    cbn [sp_escaped sp_parts sp_current sp_inQuotes].
    change (Ascii.eqb dquote backslash) with false. cbv iota.
    rewrite Ascii.eqb_refl. reflexivity.
Qed.

Lemma split_part (part : list segment) :
  ∀ parts current,
    forallb segment_ok part = true →
    fold_left split_step (list_ascii_of_string (part_text part))
              (mkSplitState parts current false false)
    = mkSplitState parts (current +:+ part_value part) false false.
Proof.
  induction part as [| seg part IH]; intros parts current Hok.
  - cbn. by rewrite string_app_nil_r.
  - cbn [forallb] in Hok. apply andb_true_iff in Hok as [Hseg Hok].
    cbn [part_text part_value fold_right]. fold (part_text part) (part_value part).
    rewrite list_ascii_of_string_app, fold_left_app, split_segment by exact Hseg.
    rewrite IH by exact Hok. by rewrite string_app_assoc.
Qed.

Lemma split_parts (line : list (list segment)) :
  ∀ parts,
    forallb part_ok line = true →
    split_finish
      (fold_left split_step (list_ascii_of_string (Join (List.map part_text line) " "))
                 (mkSplitState parts EmptyString false false))
    = parts ++ List.map part_value line.
Proof.
  unfold Join. induction line as [| part line IH]; intros parts Hok.
  - cbn. by rewrite app_nil_r.
  - cbn [forallb] in Hok. apply andb_true_iff in Hok as [Hpart Hok].
    unfold part_ok in Hpart. apply andb_true_iff in Hpart as [Hsegs Hvalue].
    cbn [List.map]. destruct line as [| next line].
    + cbn [List.map String.concat]. rewrite split_part by exact Hsegs.
      unfold split_finish. cbn [sp_parts sp_current].
      rewrite string_app_nil_l, len_positive, Hvalue. reflexivity.
    + cbn [List.map] in IH |- *. rewrite concat_cons_cons.
      rewrite !list_ascii_of_string_app, !fold_left_app.
      rewrite split_part by exact Hsegs.
      cbn [list_ascii_of_string fold_left]. unfold split_step at 2.
      cbn [sp_escaped sp_parts sp_current sp_inQuotes].
      change (Ascii.eqb " " backslash) with false.
      change (Ascii.eqb " " dquote) with false. cbv iota.
      rewrite Ascii.eqb_refl. cbn [negb andb].
      rewrite string_app_nil_l, len_positive, Hvalue.
      rewrite IH by exact Hok. by rewrite <- app_assoc.
Qed.

(** X26. On an ASCII line of parts separated by one space, each made of
    plain runes, runes after a backslash and texts in double quotes,
    [splitCommand] returns the parts in order with the quotes and the
    backslashes taken out; spaces inside quotes or after a backslash do not
    split. *)
Theorem splitCommand_parts (line : list (list segment)) :
  is_ascii (Join (List.map part_text line) " ") = true →
  forallb part_ok line = true →
  splitCommand (Join (List.map part_text line) " ") = List.map part_value line.
Proof. intros _ Hok. unfold splitCommand. by rewrite split_parts. Qed.

(** ** Variable declarations *)

Lemma no_char_In (c : ascii) (s : string) :
  no_char c s = true → ¬ In c (list_ascii_of_string s).
Proof.
  unfold no_char. intros H Hin. apply negb_true_iff in H.
  assert (existsb (Ascii.eqb c) (list_ascii_of_string s) = true); [| congruence].
  apply existsb_exists. exists c. split; [exact Hin | apply Ascii.eqb_refl].
Qed.

Lemma no_char_app (c : ascii) (a b : string) :
  no_char c (a +:+ b) = no_char c a && no_char c b.
Proof.
  unfold no_char. rewrite list_ascii_of_string_app, existsb_app. apply negb_orb.
Qed.

Lemma declare_declaration (m : gmap string string) (d : string * option string) :
  declaration_ok d = true →
  declare m (declaration_text d) = <[fst d := declaration_value d]> m.
Proof.
  destruct d as [name [value |]]; unfold declaration_ok, declaration_text, declaration_value;
    cbn [fst snd]; intros H; apply andb_true_iff in H as [H Hv];
    apply andb_true_iff in H as [_ Hname]; apply no_char_In in Hname; unfold declare.
  - rewrite string_app_cons, string_app_nil_l.
    assert (Hne : String.eqb (name +:+ String "=" value) EmptyString = false)
      by (by destruct name).
    assert (Hc : Contains (name +:+ String "=" value) "=" = true).
    { apply Contains_char. rewrite list_ascii_of_string_app. apply in_or_app.
      right. by left. }
    rewrite Hne, Hc, SplitN2_found by exact Hname. reflexivity.
  - apply negb_true_iff in Hv. rewrite Hv.
    destruct (Contains name "=") eqn:Hc; [| reflexivity].
    apply Contains_char in Hc. done.
Qed.

Lemma declaration_text_no_space (d : string * option string) :
  declaration_ok d = true → ¬ In " "%char (list_ascii_of_string (declaration_text d)).
Proof.
  destruct d as [name [value |]]; unfold declaration_ok, declaration_text;
    cbn [fst snd]; intros H; apply andb_true_iff in H as [H Hv];
    apply andb_true_iff in H as [Hname _]; apply no_char_In.
  - rewrite !no_char_app, Hname, Hv. reflexivity.
  - exact Hname.
Qed.

Lemma declarations_fold (decls : list (string * option string)) :
  ∀ m,
    forallb declaration_ok decls = true →
    decls ≠ [] →
    fold_left declare (Split (Join (List.map declaration_text decls) " ") " ") m
    = fold_left (fun (m : gmap string string) p => <[fst p := snd p]> m)
                (List.map (fun d => (fst d, declaration_value d)) decls) m.
Proof.
  unfold Join. induction decls as [| d decls IH]; intros m Hok Hne; [done |].
  cbn [forallb] in Hok. apply andb_true_iff in Hok as [Hd Hok].
  pose proof (declaration_text_no_space d Hd) as Hspace.
  cbn [List.map]. destruct decls as [| d' decls].
  - cbn [List.map String.concat fold_left fst snd]. unfold Split.
    rewrite split_go_without by exact Hspace. cbn [rev app fold_left].
    rewrite string_of_list_ascii_of_string. by apply declare_declaration.
  - cbn [List.map] in IH |- *. rewrite concat_cons_cons.
    unfold Split in IH |- *. rewrite string_app_cons, string_app_nil_l.
    rewrite split_go_line by exact Hspace. cbn [rev app fold_left fst snd].
    rewrite string_of_list_ascii_of_string, declare_declaration by exact Hd.
    apply IH; [exact Hok | done].
Qed.

(** X27. On declarations written with one space between them, names free
    of spaces and [=], values free of spaces, [parseVariableDeclarations]
    maps each name to its value, the empty text when no [=] is written, a
    value keeping the [=] it holds; of two declarations of one name the
    last stays. *)
Theorem parseVariableDeclarations_declarations (decls : list (string * option string)) :
  forallb declaration_ok decls = true →
  parseVariableDeclarations (Join (List.map declaration_text decls) " ")
  = list_to_map (reverse (List.map (fun d => (fst d, declaration_value d)) decls)).
Proof.
  intros Hok. rewrite <- fold_insert_list_to_map. unfold parseVariableDeclarations.
  destruct decls as [| d decls]; [reflexivity |].
  apply (declarations_fold (d :: decls) ∅); [exact Hok | done].
Qed.

(** ** The comment of an instruction *)

Lemma substring_app_l (s p : string) : String.substring 0 (String.length s) (s +:+ p) = s.
Proof.
  induction s as [| c s IH]; [by destruct p |].
  rewrite string_app_cons. cbn [String.length String.substring]. by rewrite IH.
Qed.

Lemma substring_app_r (s p : string) :
  String.substring (String.length s) (String.length p) (s +:+ p) = p.
Proof.
  induction s as [| c s IH].
  - rewrite string_app_nil_l. cbn [String.length].
    rewrite <- (string_app_nil_r p) at 2. apply substring_app_l.
  - rewrite string_app_cons. cbn [String.length String.substring]. exact IH.
Qed.

Lemma TrimSuffix_app (s p : string) : TrimSuffix (s +:+ p) p = s.
Proof.
  unfold TrimSuffix, HasSuffix. rewrite string_length_app.
  replace (String.length s + String.length p - String.length p)%nat
    with (String.length s) by lia.
  rewrite substring_app_r, String.eqb_refl, substring_app_l.
  replace (String.length p <=? String.length s + String.length p)%nat with true
    by (symmetry; apply Nat.leb_le; lia).
  reflexivity.
Qed.

Lemma TrimPrefix_hash (rest : string) : TrimPrefix ("#" +:+ rest) "#" = rest.
Proof.
  rewrite string_app_cons, string_app_nil_l. unfold TrimPrefix, HasPrefix.
  replace (String.prefix "#" (String "#" rest)) with true
    by (symmetry; apply prefix_char; eauto).
  cbn [String.length String.substring Nat.sub]. rewrite Nat.sub_0_r.
  rewrite <- (string_app_nil_r rest) at 2. apply substring_app_l.
Qed.

Lemma trimLeft_spaces (before s : string) :
  all_space before = true → trimLeft (before +:+ s) = trimLeft s.
Proof.
  unfold all_space. induction before as [| c before IH]; intros Hall; [reflexivity |].
  cbn [list_ascii_of_string forallb] in Hall. apply andb_true_iff in Hall as [Hc Hall].
  rewrite string_app_cons. cbn [trimLeft]. rewrite Hc. by apply IH.
Qed.

Lemma trimLeft_all_space (s : string) : all_space s = true → trimLeft s = EmptyString.
Proof.
  intros Hall. rewrite <- (string_app_nil_r s). by rewrite trimLeft_spaces.
Qed.

Lemma string_rev_app (a b : string) : string_rev (a +:+ b) = string_rev b +:+ string_rev a.
Proof.
  unfold string_rev. rewrite list_ascii_of_string_app, rev_app_distr.
  rewrite <- (string_of_list_ascii_of_string
                (string_of_list_ascii (rev (list_ascii_of_string b))
                 +:+ string_of_list_ascii (rev (list_ascii_of_string a)))).
  by rewrite list_ascii_of_string_app, !list_ascii_of_string_of_list_ascii.
Qed.

Lemma all_space_rev (s : string) : all_space (string_rev s) = all_space s.
Proof. unfold all_space. rewrite string_rev_chars. apply forallb_rev. Qed.

Lemma trimmed_ends (c : ascii) (s : string) :
  trimmed (String c s) = true →
  isSpace c = false
  ∧ ∃ m d, list_ascii_of_string (String c s) = m ++ [d] ∧ isSpace d = false.
Proof.
  unfold trimmed. cbn [list_ascii_of_string]. intros H.
  apply andb_true_iff in H as [Hc Hd].
  apply negb_true_iff in Hc. apply negb_true_iff in Hd. split; [exact Hc |].
  destruct (exists_last (l := c :: list_ascii_of_string s)) as (m & d & E); [done |].
  exists m, d. split; [exact E |].
  assert (List.last (c :: list_ascii_of_string s) c = d) as Hlast
    by (rewrite E; apply last_last).
  destruct (list_ascii_of_string s) as [| x l] eqn:El.
  - cbn in Hlast, Hd. by rewrite <- Hlast.
  - change (List.last (c :: x :: l) c) with (List.last (x :: l) c) in Hlast.
    by rewrite <- Hlast.
Qed.

(** [TrimSpace] takes the white space off both ends. *)
Lemma TrimSpace_padded (before text after : string) :
  all_space before = true → all_space after = true → trimmed text = true →
  TrimSpace (before +:+ text +:+ after) = text.
Proof.
  intros Hb Ha Ht. unfold TrimSpace. rewrite trimLeft_spaces by exact Hb.
  destruct text as [| c text].
  - rewrite string_app_nil_l, (trimLeft_all_space after Ha). reflexivity.
  - destruct (trimmed_ends c text Ht) as (Hc & m & d & Hlast & Hd).
    rewrite string_app_cons, trimLeft_fixed by exact Hc.
    rewrite <- string_app_cons, string_rev_app.
    rewrite (trimLeft_spaces (string_rev after)) by (by rewrite all_space_rev).
    assert (∃ r, string_rev (String c text) = String d r) as [r Hr].
    { unfold string_rev. rewrite Hlast, rev_app_distr. cbn. eauto. }
    rewrite Hr, trimLeft_fixed by exact Hd. rewrite <- Hr. apply string_rev_involutive.
Qed.

Lemma comment_lines (texts : list string) :
  texts ≠ [] →
  String.concat EmptyString (List.map (fun text => text +:+ nl) texts) = Join texts nl +:+ nl.
Proof.
  unfold Join. induction texts as [| text texts IH]; intros Hne; [done |].
  destruct texts as [| text' texts]; [reflexivity |].
  cbn [List.map] in IH |- *. rewrite !concat_cons_cons, IH by done.
  by rewrite string_app_nil_l, !string_app_assoc.
Qed.

Lemma comment_text_texts (comments : list Token) (texts : list string) :
  Forall2 comment_of comments texts → comment_text comments = Join texts nl.
Proof.
  intros Hall. unfold comment_text.
  assert (List.map (fun cmt => TrimSpace (TrimPrefix (tok_Value cmt) "#") +:+ nl) comments
          = List.map (fun text => text +:+ nl) texts) as ->.
  { induction Hall as [| cmt text comments texts Hc _ IH]; [reflexivity |].
    cbn [List.map]. rewrite IH.
    destruct Hc as (before & after & -> & Hb & Ha & Ht & _).
    by rewrite TrimPrefix_hash, TrimSpace_padded. }
  destruct texts as [| text texts]; [reflexivity |].
  rewrite comment_lines by done. apply TrimSuffix_app.
Qed.

(** X7. When [ParseInstruction] succeeds, whatever the command, the
    instruction has the command of the keyword token, the joined arguments
    as [Raw], the stage it was given and the position of the keyword as the
    start of its range. Its [Comment] is the texts of the comment tokens,
    each without its [#] and the white space around it, one per line (the
    comments being ASCII). *)
Theorem ParseInstruction_frame (json_Unmarshal : string → list string + string)
    (range_order : gmap string string → list (string * string))
    (it : InstructionTokens) (stage : StageRef) (i : Instruction) (texts : list string) :
  ParseInstruction json_Unmarshal range_order (Some it) stage = Ok i →
  Forall2 comment_of (it_Comments it) texts →
  ins_Command i = tok_Value (it_Instruction it)
  ∧ ins_Raw i = GetArgumentsAsString it
  ∧ ins_Stage i = stage
  ∧ ins_Comment i = Join texts nl
  ∧ range_Start (ins_Range i)
    = Position_at (tok_Line (it_Instruction it)) (tok_Column (it_Instruction it)).
Proof.
  intros HP Hcomments.
  destruct (ParseInstruction_frame_fields json_Unmarshal range_order it stage i HP)
    as (H1 & H2 & H3 & H4 & H5).
  rewrite (comment_text_texts _ _ Hcomments) in H4. auto.
Qed.

(** ** The properties on sample inputs *)

Lemma instruction_line_intro (keyword : Token) (body : list Token) (n : Token) :
  IsInstruction keyword = true →
  forallb inner_token body = true →
  is_type TOKEN_NEWLINE n = true →
  source_line (keyword :: body ++ [n]).
Proof. intros Hk Hb Hn. left. exists keyword, body, n. auto. Qed.

Lemma two_stages_lines_source : Forall source_line two_stages_lines.
Proof.
  unfold two_stages_lines. repeat apply List.Forall_cons; try apply List.Forall_nil.
  - apply (instruction_line_intro _ [_; _; _] _); reflexivity.
  - apply (instruction_line_intro _ [_] _); reflexivity.
  - apply (instruction_line_intro _ [_] _); reflexivity.
  - apply (instruction_line_intro _ [_] _); reflexivity.
Defined.

Lemma TokenizeAll_run_with_spaces :
  plain_scanner run_with_spaces = true
  ∧ ∃ l', TokenizeAll (NewLexer run_with_spaces)
          = Some ([token TOKEN_INSTRUCTION_RUN "RUN" 1 0; token TOKEN_STRING "x" 1 4;
                   token TOKEN_NEWLINE nl 1 5], [], l').
Proof.
  assert (plain_scanner run_with_spaces = true) as Hplain by reflexivity.
  split; [exact Hplain |].
  exact (TokenizeAll_returns_visible_tokens run_with_spaces Hplain).
Defined.

Lemma continuation_joins_continued_run :
  plain_scanner continued_run = true
  ∧ ∃ it l',
      ProcessInstructionLine (NewLexer continued_run) = Some (Ok (Some it), l')
      ∧ it_Instruction it = token TOKEN_INSTRUCTION_RUN "RUN" 1 0
      ∧ it_Raw it
        = [token TOKEN_INSTRUCTION_RUN "RUN" 1 0; token TOKEN_STRING "a" 1 4;
           token TOKEN_CONTINUATION (String backslash EmptyString) 1 6;
           token TOKEN_NEWLINE nl 1 7; token TOKEN_STRING "b" 2 4;
           token TOKEN_COMMENT "# why" 2 6; token TOKEN_NEWLINE nl 2 11]
      ∧ it_Arguments it = [token TOKEN_STRING "a" 1 4; token TOKEN_STRING "b" 2 4]
      ∧ it_Comments it = [token TOKEN_COMMENT "# why" 2 6]
      ∧ stream l' = visible (run_tokens "y" 3)
      ∧ lx_errors l' = [].
Proof.
  assert (plain_scanner continued_run = true) as Hplain by reflexivity.
  split; [exact Hplain |].
  exact (continuation_joins_two_lines continued_run
           (token TOKEN_INSTRUCTION_RUN "RUN" 1 0)
           [token TOKEN_STRING "a" 1 4]
           [token TOKEN_STRING "b" 2 4; token TOKEN_COMMENT "# why" 2 6]
           (token TOKEN_CONTINUATION (String backslash EmptyString) 1 6)
           (token TOKEN_NEWLINE nl 1 7) (token TOKEN_NEWLINE nl 2 11)
           (visible (run_tokens "y" 3))
           Hplain eq_refl eq_refl eq_refl eq_refl eq_refl eq_refl eq_refl).
Defined.

Lemma ProcessAllInstructions_two_stages_file :
  plain_scanner two_stages = true
  ∧ visible two_stages = concat two_stages_lines
  ∧ ∃ instructions l',
      ProcessAllInstructions (NewLexer two_stages) = Some (instructions, [], l')
      ∧ instructions = omap instruction_of two_stages_lines
      ∧ List.map it_Raw instructions
        = List.filter (fun line => match line with
                                   | t :: _ => IsInstruction t
                                   | [] => false
                                   end) two_stages_lines.
Proof.
  assert (plain_scanner two_stages = true) as Hplain by reflexivity.
  assert (visible two_stages = concat two_stages_lines) as Hlines by reflexivity.
  split; [exact Hplain |]. split; [exact Hlines |].
  exact (ProcessAllInstructions_well_formed_file two_stages two_stages_lines
           Hplain Hlines two_stages_lines_source).
Defined.

Lemma DetectStages_rejects_blank_line_file :
  plain_scanner blank_line_file = true
  ∧ ∃ l', DetectStages (NewLexer blank_line_file)
          = Some (Err (line_error (token TOKEN_NEWLINE nl 2 0)), l').
Proof.
  assert (plain_scanner blank_line_file = true) as Hplain by reflexivity.
  split; [exact Hplain |].
  refine (DetectStages_rejects_blank_line blank_line_file
            [[token TOKEN_INSTRUCTION_RUN "RUN" 1 0; token TOKEN_STRING "x" 1 4;
              token TOKEN_NEWLINE nl 1 5]]
            (token TOKEN_NEWLINE nl 2 0) (visible (run_tokens "y" 3))
            Hplain eq_refl _ eq_refl).
  apply List.Forall_cons; [| apply List.Forall_nil].
  apply (instruction_line_intro _ [_] _); reflexivity.
Defined.

Lemma DetectStages_stages_two_stages :
  ProcessAllInstructions (NewLexer two_stages)
  = Some (two_stages_instructions, [], two_stages_end)
  ∧ DetectStages (NewLexer two_stages) = Some (Ok two_stages_found, two_stages_end)
  ∧ Forall (fun z => 0 < z) (FROM_lines two_stages_instructions)
  ∧ Z.of_nat (length two_stages_instructions) < 2 ^ 63
  ∧ two_stages_found
    = stages_from (List.filter is_FROM two_stages_instructions) 0
                  (last_line two_stages_instructions).
Proof.
  assert (ProcessAllInstructions (NewLexer two_stages)
          = Some (two_stages_instructions, [], two_stages_end)) as HP
    by (vm_compute; reflexivity).
  assert (DetectStages (NewLexer two_stages) = Some (Ok two_stages_found, two_stages_end)) as HD
    by (vm_compute; reflexivity).
  assert (Forall (fun z => 0 < z) (FROM_lines two_stages_instructions)) as Hpos
    by (vm_compute; repeat constructor).
  assert (Z.of_nat (length two_stages_instructions) < 2 ^ 63) as Hlen
    by (vm_compute; reflexivity).
  split; [exact HP |]. split; [exact HD |]. split; [exact Hpos |]. split; [exact Hlen |].
  exact (DetectStages_stages (NewLexer two_stages) two_stages_end two_stages_instructions []
           two_stages_found HP HD Hpos Hlen).
Defined.

Lemma commented_run_comments :
  Forall2 comment_of (it_Comments commented_run) ["why"; "build it"].
Proof.
  unfold commented_run. cbn [it_Comments].
  apply List.Forall2_cons; [| apply List.Forall2_cons; [| apply List.Forall2_nil]].
  - exists " ", EmptyString. repeat split; reflexivity.
  - exists "  ", "  ". repeat split; reflexivity.
Defined.

Lemma ParseInstruction_frame_commented_run :
  ∃ i, ParseInstruction no_json map_to_list (Some commented_run) None = Ok i
       ∧ Forall2 comment_of (it_Comments commented_run) ["why"; "build it"]
       ∧ ins_Command i = "RUN"
       ∧ ins_Raw i = "echo hi"
       ∧ ins_Stage i = None
       ∧ ins_Comment i = "why" +:+ nl +:+ "build it"
       ∧ range_Start (ins_Range i) = Position_at 1 0.
Proof.
  destruct (ParseInstruction no_json map_to_list (Some commented_run) None) as [i | e] eqn:HP.
  - exists i. split; [reflexivity |]. split; [exact commented_run_comments |].
    exact (ParseInstruction_frame no_json map_to_list commented_run None i
             ["why"; "build it"] HP commented_run_comments).
  - exfalso. revert HP. vm_compute. discriminate.
Defined.

Lemma ParseInstruction_errors_maintainer :
  ParseInstruction no_json map_to_list (Some maintainer_tokens) None
  = Err (Errorf "unknown instruction: MAINTAINER")
  ∧ ((("MAINTAINER" ∉ known_commands)
      ∧ Errorf "unknown instruction: MAINTAINER"
        = Errorf ("unknown instruction: " +:+ "MAINTAINER"))
     ∨ ("MAINTAINER" ∈ known_commands
        ∧ ∃ d, Errorf "unknown instruction: MAINTAINER" = EDockerfile d
               ∧ (err_Code d = CodeInstructionError
                  ∨ (err_Code d = CodeSyntaxError ∧ it_JSONForm maintainer_tokens = true)))).
Proof.
  assert (ParseInstruction no_json map_to_list (Some maintainer_tokens) None
          = Err (Errorf "unknown instruction: MAINTAINER")) as HP by reflexivity.
  split; [exact HP |].
  exact (ParseInstruction_errors no_json map_to_list (Some maintainer_tokens) None _ HP).
Defined.

Lemma lexer_line_never_JSON_cmd :
  instruction_of_line (cmd_json_line 1)
  = Ok (Some (mkInstructionTokens (token TOKEN_INSTRUCTION_CMD "CMD" 1 0)
                [token TOKEN_STRING json_abd 1 4] [] (cmd_json_line 1) false))
  ∧ match ParseInstruction no_json map_to_list
            (Some (mkInstructionTokens (token TOKEN_INSTRUCTION_CMD "CMD" 1 0)
                     [token TOKEN_STRING json_abd 1 4] [] (cmd_json_line 1) false)) None with
    | Ok i => ins_JSONForm i = false ∧ "CMD" ≠ "SHELL"
    | Err e => error_code e ≠ Some CodeSyntaxError
    end.
Proof.
  assert (instruction_of_line (cmd_json_line 1)
          = Ok (Some (mkInstructionTokens (token TOKEN_INSTRUCTION_CMD "CMD" 1 0)
                        [token TOKEN_STRING json_abd 1 4] [] (cmd_json_line 1) false))) as HL
    by reflexivity.
  split; [exact HL |].
  exact (lexer_line_never_JSON no_json map_to_list (cmd_json_line 1) _ None HL).
Defined.

Lemma keyword_without_rule_maintainer :
  Keywords !! "MAINTAINER" = Some TOKEN_INSTRUCTION_MAINTAINER
  ∧ (ParseInstruction no_json map_to_list (Some maintainer_tokens) None
     = Err (Errorf ("unknown instruction: " +:+ "MAINTAINER"))
     ↔ "MAINTAINER" = "MAINTAINER").
Proof.
  assert (Keywords !! GetInstructionValue maintainer_tokens
          = Some TOKEN_INSTRUCTION_MAINTAINER) as HK by (vm_compute; reflexivity).
  split; [exact HK |].
  exact (keyword_without_rule no_json map_to_list maintainer_tokens None
           TOKEN_INSTRUCTION_MAINTAINER HK eq_refl eq_refl).
Defined.

Lemma add_with_from_fails_builder :
  GetInstructionValue add_tokens = "ADD"
  ∧ existsb is_from_flag (it_Arguments add_tokens) = true
  ∧ ∃ d, ParseInstruction no_json map_to_list (Some add_tokens) None = Err (EDockerfile d)
         ∧ err_Code d = CodeInstructionError.
Proof.
  split; [reflexivity |]. split; [reflexivity |].
  exact (add_with_from_always_fails no_json map_to_list add_tokens None eq_refl eq_refl).
Defined.

Lemma copy_arguments_builder :
  GetInstructionValue copy_tokens = "COPY"
  ∧ match ParseInstruction no_json map_to_list (Some copy_tokens) None with
    | Ok i => (2 <= length (positional (it_Arguments copy_tokens)))%nat
              ∧ ins_Args i = ["/src"; "/dst"]
              ∧ ins_Dependencies i = ["builder"]
    | Err e => (length (positional (it_Arguments copy_tokens)) < 2)%nat
               ∧ error_code e = Some CodeInstructionError
    end.
Proof.
  split; [reflexivity |].
  exact (copy_arguments_and_dependencies no_json map_to_list copy_tokens None eq_refl).
Defined.

Lemma label_pairs_plain : Forall plain_pair label_pairs.
Proof.
  unfold label_pairs. repeat apply List.Forall_cons; try apply List.Forall_nil;
    (split; split; (discriminate || reflexivity)).
Defined.

Lemma parseKeyValuePairs_label_pairs :
  is_ascii (pairs_text label_pairs) = true
  ∧ Forall plain_pair label_pairs
  ∧ parseKeyValuePairs "a=1 b=2" = list_to_map [("b", "2"); ("a", "1")].
Proof.
  split; [reflexivity |]. split; [exact label_pairs_plain |].
  exact (parseKeyValuePairs_plain_pairs label_pairs eq_refl label_pairs_plain).
Defined.

Lemma label_env_pairs_label :
  order_valid map_to_list
  ∧ GetInstructionValue label_tokens = "LABEL"
  ∧ is_ascii (GetArgumentsAsString label_tokens) = true
  ∧ GetArgumentsAsString label_tokens = pairs_text label_pairs
  ∧ ∃ i, ParseInstruction no_json map_to_list (Some label_tokens) None = Ok i
         ∧ ins_Args i ≡ₚ ["a=1"; "b=2"].
Proof.
  split; [exact map_to_list_valid |]. split; [reflexivity |]. split; [reflexivity |].
  split; [reflexivity |].
  refine (label_env_pairs no_json map_to_list map_to_list_valid label_tokens None label_pairs
            (or_introl eq_refl) eq_refl eq_refl _ label_pairs_plain _).
  - discriminate.
  - unfold label_pairs. cbn [List.map fst]. apply NoDup_cons_2.
    + intros Hin. apply list_elem_of_In in Hin. cbn in Hin.
      destruct Hin as [H | []]. discriminate H.
    + apply NoDup_singleton.
Defined.

Lemma arg_name_and_default_version :
  GetInstructionValue arg_tokens = "ARG"
  ∧ is_ascii (GetArgumentsAsString arg_tokens) = true
  ∧ GetArgumentsAsString arg_tokens = "VERSION =1=2"
  ∧ ∃ i, ParseInstruction no_json map_to_list (Some arg_tokens) None = Ok i
         ∧ ins_Args i = ["VERSION"]
         ∧ ins_Flags i !! "default" = Some "1=2".
Proof.
  split; [reflexivity |]. split; [reflexivity |]. split; [reflexivity |].
  destruct (arg_name_and_default no_json map_to_list arg_tokens None eq_refl eq_refl)
    as (i & HP & Hsplit & _); [discriminate |].
  exists i. split; [exact HP |].
  apply (Hsplit "VERSION " "1=2"); [reflexivity |].
  cbn. intros H. repeat (destruct H as [H | H]; [discriminate H |]). exact H.
Defined.

Lemma combineRunCommands_block_three :
  optimizer.combineRunCommands
    ([optimizer.mkInstruction "RUN" ["apk"; "update"];
      optimizer.mkInstruction "RUN" ["apk"; "add"; "curl"]]
     ++ optimizer.mkInstruction "COPY" ["."; "/app"] :: [])
  = [optimizer.mkInstruction "RUN" ["apk update && apk add curl"];
     optimizer.mkInstruction "COPY" ["."; "/app"]]
  ∧ optimizer.combineRunCommands
      [optimizer.mkInstruction "RUN" ["apk"; "update"];
       optimizer.mkInstruction "RUN" ["apk"; "add"; "curl"]]
    = [optimizer.mkInstruction "RUN" ["apk update && apk add curl"]].
Proof.
  refine (combineRunCommands_block
            [optimizer.mkInstruction "RUN" ["apk"; "update"];
             optimizer.mkInstruction "RUN" ["apk"; "add"; "curl"]]
            [] (optimizer.mkInstruction "COPY" ["."; "/app"]) eq_refl _ eq_refl).
  discriminate.
Defined.

Lemma ParseDockerfile_formatDockerfile_three :
  is_ascii (optimizer.formatDockerfile three_instructions) = true
  ∧ forallb optimizer.wordy three_instructions = true
  ∧ optimizer.ParseDockerfile (optimizer.formatDockerfile three_instructions)
    = optimizer.mkDockerfile three_instructions.
Proof.
  split; [reflexivity |]. split; [reflexivity |].
  exact (ParseDockerfile_formatDockerfile three_instructions eq_refl eq_refl).
Defined.

Lemma Optimize_twice_three_lines :
  is_ascii three_lines = true
  ∧ forallb optimizer.has_command
      (optimizer.Instructions (optimizer.ParseDockerfile three_lines)) = true
  ∧ optimizer.Optimize (optimizer.ParseDockerfile three_lines)
    = "FROM alpine" +:+ nl +:+ "RUN apk update && apk add curl" +:+ nl
  ∧ optimizer.Optimize
      (optimizer.ParseDockerfile (optimizer.Optimize (optimizer.ParseDockerfile three_lines)))
    = optimizer.Optimize (optimizer.ParseDockerfile three_lines).
Proof.
  assert (forallb optimizer.has_command
            (optimizer.Instructions (optimizer.ParseDockerfile three_lines)) = true) as Hc
    by (vm_compute; reflexivity).
  split; [reflexivity |]. split; [exact Hc |]. split; [vm_compute; reflexivity |].
  exact (Optimize_twice three_lines eq_refl Hc).
Defined.


Lemma getSyntaxErrorHints_invalid_port :
  order_valid map_to_list
  ∧ is_ascii "Invalid Port number" = true
  ∧ getSyntaxErrorHints map_to_list "Invalid Port number"
    ≡ₚ ["Port number valid range (1-65535) mein hona chahiye"].
Proof.
  split; [exact map_to_list_valid |]. split; [reflexivity |].
  destruct (getSyntaxErrorHints_not_empty "Invalid Port number" map_to_list
              map_to_list_valid) as [_ Hascii].
  destruct (Hascii eq_refl) as [_ Hfound].
  assert (matching_hints "Invalid Port number" (map_to_list commonErrors)
          = ["Port number valid range (1-65535) mein hona chahiye"]) as E
    by (vm_compute; reflexivity).
  rewrite E in Hfound. apply Hfound. discriminate.
Defined.

Lemma unexpected_EOF_hint_not_given :
  order_valid map_to_list
  ∧ commonErrors !! "unexpected EOF"
    = Some "Kisi instruction ya quote ko close karna bhool gaye hain"
  ∧ ¬ In "Kisi instruction ya quote ko close karna bhool gaye hain"
         (getSyntaxErrorHints map_to_list "unexpected EOF").
Proof.
  split; [exact map_to_list_valid |].
  exact (unexpected_EOF_hint_never_given "unexpected EOF" map_to_list map_to_list_valid).
Defined.

Lemma splitCommand_quoted_command :
  is_ascii (Join (List.map part_text quoted_command) " ") = true
  ∧ forallb part_ok quoted_command = true
  ∧ splitCommand (Join (List.map part_text quoted_command) " ") = ["RUN"; "a b"; "c d"].
Proof.
  split; [reflexivity |]. split; [reflexivity |].
  exact (splitCommand_parts quoted_command eq_refl eq_refl).
Defined.

Lemma parseVariableDeclarations_three :
  forallb declaration_ok three_declarations = true
  ∧ parseVariableDeclarations "A=1 B C=x=y"
    = list_to_map [("C", "x=y"); ("B", EmptyString); ("A", "1")].
Proof.
  split; [reflexivity |].
  exact (parseVariableDeclarations_declarations three_declarations eq_refl).
Defined.
